(** * pykeyemu: keyboard emulation and typing cadence

    A shallow embedding of [constants.py], [wininput.py] and [utils.py],
    and the properties of the typing engine proved over it.

    Conventions of the embedding.
    - A Python [str] is the list of its Unicode code points; a character
      is a string of length one, as in Python.
    - Arguments that the source inspects with [isinstance] are values of
      the dynamic type [pyobj]; arguments it only computes with are typed.
    - Numbers that the source treats as floats range over a type [F] with
      the operations of the interface [Number]; it is instantiated with
      exact rationals and with IEEE 754 binary64, Python's [float]:
      closed calls are evaluated, and the bounds of the humanized delay
      are proved from the library's specification of rounding.
    - Side effects (calls of [user32.SendInput], [print], [time.sleep],
      draws of the [random] module) are threaded through a [World];
      an exception keeps the effects that happened before it. *)

From Stdlib Require Import ZArith NArith List String Ascii Bool Lia.
From Stdlib Require Import DecimalString QArith Lqa Floats.
Import ListNotations.

Set Implicit Arguments.
Set Warnings "-inexact-float,-register-all".

Local Open Scope Z_scope.

(* ================================================================= *)
(** ** Python strings *)

(** A Unicode code point. *)
Definition char := N.

(** [str]: an immutable sequence of code points. *)
Definition str := list char.

Definition ord (a : ascii) : char := N_of_ascii a.

(** A source literal, as a [str]. *)
Definition lit (s : string) : str := map ord (list_ascii_of_string s).

Fixpoint str_eqb (s t : str) : bool :=
  match s, t with
  | [], [] => true
  | a :: s', b :: t' => N.eqb a b && str_eqb s' t'
  | _, _ => false
  end.

(** [str(n)] for a non-negative integer. *)
Definition decimal (n : N) : str :=
  lit (NilEmpty.string_of_uint (N.to_uint n)).

(** [s.startswith(p)] *)
Fixpoint startswith (s p : str) {struct p} : bool :=
  match p, s with
  | [], _ => true
  | a :: p', b :: s' => N.eqb a b && startswith s' p'
  | _ :: _, [] => false
  end.

(** The scan of [s.replace(old, new)] for a non-empty [old]: occurrences
    are found from left to right and do not overlap.  [skip] counts the
    characters of the occurrence just replaced that are still to be
    passed over. *)
Fixpoint replace_from (old new : str) (skip : nat) (s : str) : str :=
  match s with
  | [] => []
  | c :: rest =>
      match skip with
      | S k => replace_from old new k rest
      | O =>
          if startswith s old then
            new ++ replace_from old new (List.length old - 1) rest
          else c :: replace_from old new 0 rest
      end
  end.

(** [s.replace(old, new)].  The empty string occurs before every
    character and at the end. *)
Definition str_replace (s old new : str) : str :=
  match old with
  | [] => new ++ flat_map (fun c => c :: new) s
  | _ => replace_from old new 0 s
  end.

(** The two [str] methods the program calls.  They are built-ins driven
    by the Unicode character database, which is not part of the
    repository: the program is parametric in them, and [py_unicode]
    below gives their values on the code points the tables of
    [constants.py] can reach. *)
Class Unicode := {
  (** [c.isupper()] for a one-character string [c] *)
  isupper_cp : char -> bool;
  (** [c.lower()] for a one-character string [c]; the full case mapping
      may produce more than one code point *)
  lower_cp : char -> str
}.

Section StrMethods.
Context {U : Unicode}.

(** [s.isupper()].  The program calls it on one-character strings only,
    where it is [isupper_cp]; strings of another length are not
    described. *)
Definition isupper (s : str) : bool :=
  match s with
  | [c] => isupper_cp c
  | _ => false
  end.

(** [s.lower()] *)
Definition lower (s : str) : str := flat_map lower_cp s.
End StrMethods.

(* ================================================================= *)
(** ** Python dictionaries and sets with string keys *)

Section Dict.
Variables K V : Type.
Variable eqb : K -> K -> bool.

(** [d.get(k)] *)
Fixpoint dict_get (d : list (K * V)) (k : K) : option V :=
  match d with
  | [] => None
  | (k', v) :: d' => if eqb k k' then Some v else dict_get d' k
  end.

(** [k in d] *)
Definition dict_contains (d : list (K * V)) (k : K) : bool :=
  match dict_get d k with Some _ => true | None => false end.

(** [k in s] for a set literal *)
Definition set_contains (s : list K) (k : K) : bool := existsb (eqb k) s.
End Dict.

(* ================================================================= *)
(** ** Numbers *)

(** The arithmetic and the comparisons the program performs on delays.
    [of_Z] is the conversion Python applies to an [int] operand of a
    mixed expression. *)
Class Number (F : Type) := {
  of_Z : Z -> F;
  add : F -> F -> F;
  sub : F -> F -> F;
  mul : F -> F -> F;
  div : F -> F -> F;
  neg : F -> F;
  ltb : F -> F -> bool;
  leb : F -> F -> bool;
  eqb : F -> F -> bool;
  (** a non-negative number is not negative *)
  nonneg_not_neg : forall x, leb (of_Z 0) x = true -> ltb x (of_Z 0) = false
}.

Declare Scope num_scope.
Delimit Scope num_scope with num.
Infix "+" := add : num_scope.
Infix "-" := sub : num_scope.
Infix "*" := mul : num_scope.
Infix "/" := div : num_scope.
Notation "- x" := (neg x) : num_scope.
Infix "<?" := ltb : num_scope.
Infix "<=?" := leb : num_scope.
Infix "=?" := eqb : num_scope.

(** Python's [x > y] is [y < x], and [x >= y] is [y <= x]. *)
Definition gtb {F} {num : Number F} (x y : F) : bool := ltb y x.

(** A decimal literal [n/d] of the source, e.g. [0.2] as [decimal_lit 2 10]:
    the nearest number to the quotient. *)
Definition decimal_lit {F} {num : Number F} (n d : Z) : F :=
  div (of_Z n) (of_Z d).

(* ================================================================= *)
(** ** Dynamic values, exceptions, effects *)

Section Values.
Variable F : Type.

Inductive pyobj :=
| PyNone
| PyBool (b : bool)
| PyInt (z : Z)
| PyFloat (x : F)
| PyStr (s : str)
| PyList (l : list pyobj).

(** [isinstance(o, int)], with the integer when it holds ([bool] is a
    subclass of [int]). *)
Definition as_int (o : pyobj) : option Z :=
  match o with
  | PyInt z => Some z
  | PyBool b => Some (if b then 1 else 0)
  | _ => None
  end.

(** [iter(o)]: the items, or [None] when [o] is not iterable. *)
Definition py_iter (o : pyobj) : option (list pyobj) :=
  match o with
  | PyList l => Some l
  | PyStr s => Some (map (fun c => PyStr [c]) s)
  | _ => None
  end.

(** [reversed(o)] *)
Definition py_reversed (o : pyobj) : option (list pyobj) :=
  option_map (@rev pyobj) (py_iter o).
End Values.

Arguments PyNone {F}.
Arguments PyBool {F} b.
Arguments PyInt {F} z.
Arguments PyStr {F} s.
Arguments PyList {F} l.

(** Truth value of an object, as [if o:] tests it. *)
Definition truthy {F} {num : Number F} (o : pyobj F) : bool :=
  match o with
  | PyNone => false
  | PyBool b => b
  | PyInt z => negb (z =? 0)
  | PyFloat x => negb (eqb x (of_Z 0))
  | PyStr s => match s with [] => false | _ => true end
  | PyList l => match l with [] => false | _ => true end
  end.

(** The exceptions the program can raise.  The f-string messages keep
    their fixed text; the interpolated argument is left out. *)
Inductive exn :=
| ValueError (msg : string)
| TypeError (msg : string)
| KeyError (key : string)
| ZeroDivisionError
| OverflowError (msg : string)
| UnicodeEncodeError (reason : string).

Inductive result (A : Type) :=
| Ok (a : A)
| Raise (e : exn).
Arguments Ok {A} a.
Arguments Raise {A} e.

(** [a / b] on two [int]s (true division): the quotient in the number
    type, or the exception raised. *)
Class IntDivision (F : Type) := {
  int_truediv : Z -> Z -> result F
}.

(** *** Windows structures ([wininput.py], lines 29-57) *)

Record KEYBDINPUT := {
  wVk : Z;          (* WORD *)
  wScan : Z;        (* WORD *)
  dwFlags : Z;      (* DWORD *)
  time : Z;         (* DWORD *)
  dwExtraInfo : Z   (* ULONG_PTR *)
}.

Record INPUT := {
  type : Z;         (* DWORD *)
  ki : KEYBDINPUT
}.

Section Effects.
Variable F : Type.

(** What the program does to the outside.  A [print] or a
    [time.sleep] is recorded when the call returns. *)
Inductive effect :=
| ESendInput (inputs : list INPUT)   (* user32.SendInput(n, array, size) *)
| EPrint (line : str)                (* print(line) *)
| ESleep (seconds : F).              (* time.sleep(seconds) *)

(** The effects so far, oldest first, and the number of draws taken
    from the random generator. *)
Record World := {
  events : list effect;
  draws : nat
}.

(** The collaborators: the operating system's answer to a call of
    [SendInput] (the number of events it inserted, which may depend on
    everything that happened before), the stream of values of
    [random.random()], and what [print] and [time.sleep] do with their
    argument: return ([None]) or raise an exception, as [print] does
    for a line the console cannot encode and [time.sleep] for a
    duration that does not fit its clock. *)
Class Host := {
  user32_SendInput : list effect -> list INPUT -> Z;
  random_stream : nat -> F;
  print_answer : list effect -> str -> option exn;
  sleep_answer : list effect -> F -> option exn
}.

(** A computation: it returns or raises, and leaves a world. *)
Definition M (A : Type) : Type := World -> result A * World.

Definition ret {A} (a : A) : M A := fun w => (Ok a, w).

Definition bind {A B} (m : M A) (k : A -> M B) : M B :=
  fun w =>
    match m w with
    | (Ok a, w') => k a w'
    | (Raise e, w') => (Raise e, w')
    end.

Definition raise {A} (e : exn) : M A := fun w => (Raise e, w).

(** A pure computation that may raise. *)
Definition lift {A} (r : result A) : M A := fun w => (r, w).

(** [try: m finally: cleanup] *)
Definition try_finally {A} (m : M A) (cleanup : M unit) : M A :=
  fun w =>
    let (r, w1) := m w in
    match cleanup w1 with
    | (Ok _, w2) => (r, w2)
    | (Raise e, w2) => (Raise e, w2)
    end.

Definition emit (e : effect) : M unit :=
  fun w => (Ok tt, {| events := events w ++ [e]; draws := draws w |}).

(** [for x in xs: body x] *)
Fixpoint for_each {A} (xs : list A) (body : A -> M unit) : M unit :=
  match xs with
  | [] => ret tt
  | x :: xs' => bind (body x) (fun _ => for_each xs' body)
  end.

(** [print(line)] *)
Definition print {host : Host} (line : str) : M unit :=
  fun w =>
    match print_answer (events w) line with
    | Some e => (Raise e, w)
    | None => emit (EPrint line) w
    end.

(** [time.sleep(seconds)] *)
Definition time_sleep {host : Host} (seconds : F) : M unit :=
  fun w =>
    match sleep_answer (events w) seconds with
    | Some e => (Raise e, w)
    | None => emit (ESleep seconds) w
    end.
End Effects.

Arguments ret {F A} a.
Arguments bind {F A B} m k.
Arguments raise {F A} e.
Arguments lift {F A} r.
Arguments try_finally {F A} m cleanup.
Arguments for_each {F A} xs body.
Arguments print {F host} line.
Arguments time_sleep {F host} seconds.
Arguments ESendInput {F} inputs.
Arguments EPrint {F} line.

(** The operating system's answer to [GetAsyncKeyState]: a query, which
    leaves no trace but may depend on everything that happened before. *)
Class KeyState (F : Type) := {
  user32_GetAsyncKeyState : list (effect F) -> Z -> Z
}.

Declare Scope py_scope.
Delimit Scope py_scope with py.
Notation "x <- m ;; k" := (bind m (fun x => k))
  (at level 61, m at next level, right associativity) : py_scope.
Notation "m ;; k" := (bind m (fun _ => k))
  (at level 61, right associativity) : py_scope.

(** Binding in a pure computation that may raise. *)
Definition rbind {A B} (r : result A) (k : A -> result B) : result B :=
  match r with
  | Ok a => k a
  | Raise e => Raise e
  end.

(* ================================================================= *)
(** ** [constants.py] *)

Module constants.

(** Input types and keyboard event flags. *)
Definition INPUT_KEYBOARD : Z := 1.
Definition KEYEVENTF_EXTENDEDKEY : Z := 0x0001.
Definition KEYEVENTF_KEYUP : Z := 0x0002.

(** Virtual key codes used by the character tables. *)
Definition VK_TAB : Z := 0x09.
Definition VK_RETURN : Z := 0x0D.
Definition VK_SHIFT : Z := 0x10.
Definition VK_CONTROL : Z := 0x11.
Definition VK_MENU : Z := 0x12.
Definition VK_SPACE : Z := 0x20.

Definition VK_0 : Z := 0x30.
Definition VK_1 : Z := 0x31.
Definition VK_2 : Z := 0x32.
Definition VK_3 : Z := 0x33.
Definition VK_4 : Z := 0x34.
Definition VK_5 : Z := 0x35.
Definition VK_6 : Z := 0x36.
Definition VK_7 : Z := 0x37.
Definition VK_8 : Z := 0x38.
Definition VK_9 : Z := 0x39.

Definition VK_A : Z := 0x41.
Definition VK_B : Z := 0x42.
Definition VK_C : Z := 0x43.
Definition VK_D : Z := 0x44.
Definition VK_E : Z := 0x45.
Definition VK_F : Z := 0x46.
Definition VK_G : Z := 0x47.
Definition VK_H : Z := 0x48.
Definition VK_I : Z := 0x49.
Definition VK_J : Z := 0x4A.
Definition VK_K : Z := 0x4B.
Definition VK_L : Z := 0x4C.
Definition VK_M : Z := 0x4D.
Definition VK_N : Z := 0x4E.
Definition VK_O : Z := 0x4F.
Definition VK_P : Z := 0x50.
Definition VK_Q : Z := 0x51.
Definition VK_R : Z := 0x52.
Definition VK_S : Z := 0x53.
Definition VK_T : Z := 0x54.
Definition VK_U : Z := 0x55.
Definition VK_V : Z := 0x56.
Definition VK_W : Z := 0x57.
Definition VK_X : Z := 0x58.
Definition VK_Y : Z := 0x59.
Definition VK_Z : Z := 0x5A.

Definition VK_OEM_1 : Z := 0xBA.
Definition VK_OEM_PLUS : Z := 0xBB.
Definition VK_OEM_COMMA : Z := 0xBC.
Definition VK_OEM_MINUS : Z := 0xBD.
Definition VK_OEM_PERIOD : Z := 0xBE.
Definition VK_OEM_2 : Z := 0xBF.
Definition VK_OEM_3 : Z := 0xC0.
Definition VK_OEM_4 : Z := 0xDB.
Definition VK_OEM_5 : Z := 0xDC.
Definition VK_OEM_6 : Z := 0xDD.
Definition VK_OEM_7 : Z := 0xDE.

(** Characters the string notation cannot write. *)
Definition TAB : str := [9%N].
Definition LF : str := [10%N].
Definition CR : str := [13%N].
Definition DQUOTE : str := [34%N].

(** Character to VK code mapping for common characters. *)
Definition CHAR_TO_VK : list (str * Z) := [
  (lit "a", VK_A); (lit "b", VK_B); (lit "c", VK_C); (lit "d", VK_D);
  (lit "e", VK_E); (lit "f", VK_F); (lit "g", VK_G); (lit "h", VK_H);
  (lit "i", VK_I); (lit "j", VK_J); (lit "k", VK_K); (lit "l", VK_L);
  (lit "m", VK_M); (lit "n", VK_N); (lit "o", VK_O); (lit "p", VK_P);
  (lit "q", VK_Q); (lit "r", VK_R); (lit "s", VK_S); (lit "t", VK_T);
  (lit "u", VK_U); (lit "v", VK_V); (lit "w", VK_W); (lit "x", VK_X);
  (lit "y", VK_Y); (lit "z", VK_Z);
  (lit "0", VK_0); (lit "1", VK_1); (lit "2", VK_2); (lit "3", VK_3);
  (lit "4", VK_4); (lit "5", VK_5); (lit "6", VK_6); (lit "7", VK_7);
  (lit "8", VK_8); (lit "9", VK_9);
  (lit " ", VK_SPACE); (TAB, VK_TAB); (LF, VK_RETURN); (CR, VK_RETURN);
  (lit ";", VK_OEM_1); (lit "=", VK_OEM_PLUS); (lit ",", VK_OEM_COMMA);
  (lit "-", VK_OEM_MINUS); (lit ".", VK_OEM_PERIOD); (lit "/", VK_OEM_2);
  (lit "`", VK_OEM_3); (lit "[", VK_OEM_4); (lit "\", VK_OEM_5);
  (lit "]", VK_OEM_6); (lit "'", VK_OEM_7)
].

(** Characters that require the shift key. *)
Definition SHIFT_CHARS : list str := [
  lit "A"; lit "B"; lit "C"; lit "D"; lit "E"; lit "F"; lit "G"; lit "H";
  lit "I"; lit "J"; lit "K"; lit "L"; lit "M"; lit "N"; lit "O"; lit "P";
  lit "Q"; lit "R"; lit "S"; lit "T"; lit "U"; lit "V"; lit "W"; lit "X";
  lit "Y"; lit "Z";
  lit "!"; lit "@"; lit "#"; lit "$"; lit "%"; lit "^"; lit "&"; lit "*";
  lit "("; lit ")"; lit "_"; lit "+";
  lit "{"; lit "}"; lit "|"; lit ":"; DQUOTE; lit "<"; lit ">"; lit "?";
  lit "~"
].

(** Shift character mappings: the unshifted character of the same key. *)
Definition SHIFT_CHAR_MAP : list (str * str) := [
  (lit "!", lit "1"); (lit "@", lit "2"); (lit "#", lit "3");
  (lit "$", lit "4"); (lit "%", lit "5"); (lit "^", lit "6");
  (lit "&", lit "7"); (lit "*", lit "8"); (lit "(", lit "9");
  (lit ")", lit "0"); (lit "_", lit "-"); (lit "+", lit "=");
  (lit "{", lit "["); (lit "}", lit "]"); (lit "|", lit "\");
  (lit ":", lit ";"); (DQUOTE, lit "'");
  (lit "<", lit ","); (lit ">", lit "."); (lit "?", lit "/");
  (lit "~", lit "`")
].

End constants.

(* ================================================================= *)
(** ** [wininput.py] *)

Module wininput.
Import constants.

Section WinInput.
Context {F : Type} {num : Number F} {U : Unicode} {host : Host F}.

Local Open Scope py_scope.

(** Storing a Python object in a [WORD] field: an [int] is truncated to
    16 bits, anything else is a [TypeError]. *)
Definition to_WORD (o : pyobj F) : result Z :=
  match as_int o with
  | Some v => Ok (v mod 2 ^ 16)
  | None => Raise (TypeError "int expected instead of another type")
  end.

Definition to_DWORD (v : Z) : Z := v mod 2 ^ 32.

(** Create a keyboard INPUT structure. *)
Definition _create_keyboard_input (vk_code : pyobj F) (flags : Z)
  : result INPUT :=
  rbind (to_WORD vk_code) (fun w =>
  Ok {| type := to_DWORD INPUT_KEYBOARD;
        ki := {| wVk := w;
                 wScan := 0;
                 dwFlags := to_DWORD flags;
                 time := 0;
                 dwExtraInfo := 0 |} |}).

(** The call [user32.SendInput(len(inputs), input_array, sizeof(INPUT))]:
    it is recorded, and the host gives the number of inserted events. *)
Definition SendInput (inputs : list INPUT) : M F Z :=
  fun w =>
    (Ok (user32_SendInput (events w) inputs),
     {| events := events w ++ [ESendInput inputs]; draws := draws w |}).

(** Send input events to the system. *)
Definition _send_input (inputs : list INPUT) : M F bool :=
  match inputs with
  | [] => ret true
  | _ =>
      result <- SendInput inputs ;;
      ret (result =? Z.of_nat (List.length inputs))
  end.

(** The guard [not isinstance(vk_code, int) or vk_code < 0 or
    vk_code > 255] that every public function applies to a key code. *)
Definition invalid_code (vk_code : pyobj F) : bool :=
  match as_int vk_code with
  | None => true
  | Some v => (v <? 0) || (v >? 255)
  end.

(** Press a key down (without releasing it). *)
Definition press_key (vk_code : pyobj F) : M F bool :=
  if invalid_code vk_code then
    raise (ValueError "Invalid virtual key code")
  else
    input_down <- lift (_create_keyboard_input vk_code 0) ;;
    _send_input [input_down].

(** Release a key that was previously pressed. *)
Definition release_key (vk_code : pyobj F) : M F bool :=
  if invalid_code vk_code then
    raise (ValueError "Invalid virtual key code")
  else
    input_up <- lift (_create_keyboard_input vk_code KEYEVENTF_KEYUP) ;;
    _send_input [input_up].

(** The loop [for mod in modifiers: ...; inputs.append(...)] of [tap_key]
    that presses the modifiers. *)
Fixpoint press_modifiers (modifiers : list (pyobj F)) (inputs : list INPUT)
  : result (list INPUT) :=
  match modifiers with
  | [] => Ok inputs
  | modifier :: rest =>
      if invalid_code modifier then
        Raise (ValueError "Invalid modifier key code")
      else
        rbind (_create_keyboard_input modifier 0) (fun i =>
        press_modifiers rest (inputs ++ [i]))
  end.

(** The loop [for mod in reversed(modifiers): inputs.append(...)], run
    over the reversed list. *)
Fixpoint release_modifiers (reversed : list (pyobj F)) (inputs : list INPUT)
  : result (list INPUT) :=
  match reversed with
  | [] => Ok inputs
  | modifier :: rest =>
      rbind (_create_keyboard_input modifier KEYEVENTF_KEYUP) (fun i =>
      release_modifiers rest (inputs ++ [i]))
  end.

Definition not_iterable {A} : result A :=
  Raise (TypeError "object is not iterable").

(** Press and immediately release a key, holding [modifiers] meanwhile.
    [modifiers] defaults to [None]. *)
Definition tap_key (vk_code : pyobj F) (modifiers : pyobj F) : M F bool :=
  if invalid_code vk_code then
    raise (ValueError "Invalid virtual key code")
  else
    let inputs := [] in
    (* Press modifiers *)
    inputs <- lift
      (if truthy modifiers then
         match py_iter modifiers with
         | Some mods => press_modifiers mods inputs
         | None => not_iterable
         end
       else Ok inputs) ;;
    (* Press and release main key *)
    down <- lift (_create_keyboard_input vk_code 0) ;;
    let inputs := inputs ++ [down] in
    up <- lift (_create_keyboard_input vk_code KEYEVENTF_KEYUP) ;;
    let inputs := inputs ++ [up] in
    (* Release modifiers (in reverse order) *)
    inputs <- lift
      (if truthy modifiers then
         match py_reversed modifiers with
         | Some mods => release_modifiers mods inputs
         | None => not_iterable
         end
       else Ok inputs) ;;
    _send_input inputs.

(** [if vk_code:] on the result of [CHAR_TO_VK.get]: [None] and [0] are
    false. *)
Definition found (vk_code : option Z) : option Z :=
  match vk_code with
  | Some v => if v =? 0 then None else Some v
  | None => None
  end.

(** The line printed for a character without mapping. *)
Definition warning (char : str) : str :=
  lit "Warning: Character '" ++ char ++ lit "' (ord: "
  ++ decimal (hd 0%N char) ++ lit ") not supported".

(** Type a single character. *)
Definition _type_character (char : str) : M F bool :=
  if negb (List.length char =? 1)%nat then
    raise (ValueError "Must provide exactly one character")
  else
    (* Handle special shift characters: [Some] is a [return] taken *)
    let shifted : option (M F bool) :=
      if set_contains str_eqb SHIFT_CHARS char then
        if isupper char then
          (* Uppercase letter *)
          match found (dict_get str_eqb CHAR_TO_VK (lower char)) with
          | Some vk_code =>
              Some (tap_key (PyInt vk_code) (PyList [PyInt VK_SHIFT]))
          | None => None
          end
        else
          (* Special character requiring shift *)
          match dict_get str_eqb SHIFT_CHAR_MAP char with
          | Some ((_ :: _) as base_char) =>
              match found (dict_get str_eqb CHAR_TO_VK base_char) with
              | Some vk_code =>
                  Some (tap_key (PyInt vk_code) (PyList [PyInt VK_SHIFT]))
              | None => None
              end
          | _ => None
          end
      else None in
    match shifted with
    | Some returned => returned
    | None =>
        (* Handle regular characters *)
        match found (dict_get str_eqb CHAR_TO_VK char) with
        | Some vk_code => tap_key (PyInt vk_code) PyNone
        | None =>
            (* Character not supported *)
            print (warning char) ;;
            ret false
        end
    end.

(** The loop of [type_string], with the variable [success] it updates. *)
Fixpoint type_chars (text : str) (delay : F) (success : bool) : M F bool :=
  match text with
  | [] => ret success
  | char :: rest =>
      char_success <- _type_character [char] ;;
      let success := if negb char_success then false else success in
      (if gtb delay (of_Z 0) then time_sleep delay else ret tt) ;;
      type_chars rest delay success
  end.

(** Type a string of text. *)
Definition type_string (text : pyobj F) (delay : F) : M F bool :=
  match text with
  | PyStr s =>
      if ltb delay (of_Z 0) then
        raise (ValueError "Delay must be non-negative")
      else
        type_chars s delay true
  | _ => raise (ValueError "Text must be a string")
  end.

(** Context manager for holding modifier keys:
    [with with_modifiers(modifiers): block]. *)
Definition with_modifiers {A} (modifiers : pyobj F) (block : M F A) : M F A :=
  match modifiers with
  | PyList mods =>
      (* Press all modifiers *)
      for_each mods (fun modifier =>
        if invalid_code modifier then
          raise (ValueError "Invalid modifier key code")
        else
          press_key modifier ;; ret tt) ;;
      try_finally block
        (* Release all modifiers (in reverse order) *)
        (for_each (rev mods) (fun modifier => release_key modifier ;; ret tt))
  | _ => raise (ValueError "Modifiers must be a list")
  end.

(** A result of type [SHORT]: the low 16 bits, read as a signed
    number. *)
Definition to_SHORT (v : Z) : Z := (v + 2 ^ 15) mod 2 ^ 16 - 2 ^ 15.

(** Check if a key is currently pressed. *)
Definition is_key_pressed {keys : KeyState F} (vk_code : pyobj F) : M F bool :=
  if invalid_code vk_code then
    raise (ValueError "Invalid virtual key code")
  else
    match as_int vk_code with
    | Some v =>
        (* Use GetAsyncKeyState to check key state *)
        fun w =>
          let state := to_SHORT (user32_GetAsyncKeyState (events w) v) in
          (* Check if the most significant bit is set (key is pressed) *)
          (Ok (negb (Z.land state 0x8000 =? 0)), w)
    | None => raise (TypeError "int expected instead of another type")
    end.

End WinInput.
End wininput.

(* ================================================================= *)
(** ** [utils.py] *)

Module utils.
Import constants.

Section Utils.
Context {F : Type} {num : Number F} {U : Unicode} {host : Host F}.
Context {division : IntDivision F}.

Local Open Scope py_scope.
Local Open Scope num_scope.

(** [random.random()]: the next value of the generator. *)
Definition random_random : M F F :=
  fun w =>
    (Ok (random_stream (draws w)),
     {| events := events w; draws := S (draws w) |}).

(** [random.uniform(a, b)], which the library computes as
    [a + (b - a) * random()]. *)
Definition random_uniform (a b : F) : M F F :=
  r <- random_random ;;
  ret (a + (b - a) * r).

(** [max(0, x)]: the second argument when it is greater than the first. *)
Definition max0 (x : F) : F :=
  if gtb x (of_Z 0) then x else of_Z 0.

(** Generate a humanized delay with random variance. *)
Definition humanize_delay (base_delay variance : F) : M F F :=
  if base_delay <? of_Z 0 then
    raise (ValueError "Base delay must be non-negative")
  else if variance <? of_Z 0 then
    raise (ValueError "Variance must be non-negative")
  else
    variation <- random_uniform (- variance) variance ;;
    ret (max0 (base_delay + variation)).

(** Check if a single character is supported. *)
Definition _is_char_supported (char : str) : bool :=
  if negb (List.length char =? 1)%nat then false
  (* Check if it's a direct mapping *)
  else if dict_contains str_eqb CHAR_TO_VK char then true
  (* Check if it's an uppercase letter *)
  else if isupper char && dict_contains str_eqb CHAR_TO_VK (lower char)
  then true
  (* Check if it's a shift character *)
  else if set_contains str_eqb SHIFT_CHARS char then
    match dict_get str_eqb SHIFT_CHAR_MAP char with
    | Some ((_ :: _) as base_char) =>
        if dict_contains str_eqb CHAR_TO_VK base_char then true else false
    | _ => false
    end
  else false.

(** The loop of [validate_text], with the list [unsupported] it
    extends. *)
Fixpoint unsupported_loop (text : str) (unsupported : list str) : list str :=
  match text with
  | [] => unsupported
  | char :: rest =>
      if negb (_is_char_supported [char]) then
        if negb (set_contains str_eqb unsupported [char]) then
          unsupported_loop rest (unsupported ++ [[char]])
        else unsupported_loop rest unsupported
      else unsupported_loop rest unsupported
  end.

(** Validate if text can be typed and return unsupported characters. *)
Definition validate_text (text : pyobj F) : result (bool * list str) :=
  match text with
  | PyStr s =>
      let unsupported := unsupported_loop s [] in
      Ok ((List.length unsupported =? 0)%nat, unsupported)
  | _ => Raise (ValueError "Text must be a string")
  end.

(** The variables of the loop of [split_text_by_support]. *)
Record split_state := {
  chunks : list (str * bool);
  current_chunk : str;
  current_supported : bool
}.

(** [if current_chunk: chunks.append((current_chunk, current_supported))] *)
Definition flush (st : split_state) : list (str * bool) :=
  match current_chunk st with
  | [] => chunks st
  | _ => chunks st ++ [(current_chunk st, current_supported st)]
  end.

(** One iteration of [for char in text]. *)
Definition split_step (st : split_state) (char : char) : split_state :=
  let char_supported := _is_char_supported [char] in
  if Bool.eqb char_supported (current_supported st) then
    {| chunks := chunks st;
       current_chunk := current_chunk st ++ [char];
       current_supported := current_supported st |}
  else
    {| chunks := flush st;
       current_chunk := [char];
       current_supported := char_supported |}.

(** Split text into chunks of supported and unsupported characters. *)
Definition split_text_by_support (text : pyobj F)
  : result (list (str * bool)) :=
  match text with
  | PyStr [] => Ok []
  | PyStr ((first :: _) as s) =>
      let st := {| chunks := [];
                   current_chunk := [];
                   current_supported := _is_char_supported [first] |} in
      Ok (flush (fold_left split_step s st))
  | _ => Raise (ValueError "Text must be a string")
  end.

(** [sum(xs)] over integers. *)
Definition py_sum (xs : list Z) : Z := fold_left Z.add xs 0%Z.

(** Calculate estimated time to type text.  The result [0] of the first
    [return] is the integer, read as a number. *)
Definition calculate_typing_time (text : pyobj F) (delay : F) : result F :=
  match text with
  | PyStr s =>
      if delay <? of_Z 0 then
        Raise (ValueError "Delay must be non-negative")
      else
        (* Count characters that will actually be typed *)
        let typeable_chars :=
          py_sum (map (fun _ => 1%Z)
                      (filter (fun char => _is_char_supported [char]) s)) in
        (* Estimate time (last character doesn't have delay after it) *)
        if (typeable_chars <=? 1)%Z then Ok (of_Z 0)
        else Ok (of_Z (typeable_chars - 1) * delay)
  | _ => Raise (ValueError "Text must be a string")
  end.

(** Normalize line endings in text.  [target] defaults to ["\n"]. *)
Definition normalize_line_endings (text target : pyobj F) : result str :=
  match text with
  | PyStr s =>
      match target with
      | PyStr t =>
          if negb (set_contains str_eqb [LF; CR ++ LF; CR] t) then
            Raise (ValueError "Target must be '\n', '\r\n', or '\r'")
          else
            (* Replace all line ending variations with target *)
            let text := str_replace s (CR ++ LF) LF in   (* Windows -> Unix *)
            let text := str_replace text CR LF in        (* Mac -> Unix *)
            if negb (str_eqb t LF) then Ok (str_replace text LF t)
            else Ok text
      | _ => Raise (ValueError "Target must be '\n', '\r\n', or '\r'")
      end
  | _ => Raise (ValueError "Text must be a string")
  end.

(** The dictionary [escape_map] of [escape_special_chars], in insertion
    order: line feed, carriage return, tab, backspace, form feed,
    vertical tab, NUL. *)
Definition escape_map : list (str * str) :=
  [ (LF, lit "\n"); (CR, lit "\r"); (TAB, lit "\t");
    ([8%N], lit "\b"); ([12%N], lit "\f"); ([11%N], lit "\v");
    ([0%N], lit "\0") ].

(** Escape special characters for display purposes. *)
Definition escape_special_chars (text : pyobj F) : result str :=
  match text with
  | PyStr s =>
      Ok (fold_left (fun result kv => str_replace result (fst kv) (snd kv))
                    escape_map s)
  | _ => Raise (ValueError "Text must be a string")
  end.

(** [x / y] on floats. *)
Definition float_truediv (x y : F) : result F :=
  if y =? of_Z 0 then Raise ZeroDivisionError else Ok (x / y).

(** A profile: a dictionary from field names to numbers. *)
Definition profile_dict := list (string * F).

(** Create a typing profile with realistic delays.  The dictionary
    holds the [int] it was given and four floats. *)
Definition create_typing_profile (wpm : Z)
  : result (list (string * pyobj F)) :=
  if (wpm <=? 0)%Z then Raise (ValueError "WPM must be positive")
  else
    (* Calculate base delay from WPM,
       assuming average word length of 5 characters *)
    let chars_per_minute := (wpm * 5)%Z in
    rbind (int_truediv chars_per_minute 60) (fun chars_per_second =>
    rbind (float_truediv (of_Z 1) chars_per_second) (fun base_delay =>
    (* Calculate variance based on typing speed *)
    let variance_ratio :=
      if (wpm >=? 80)%Z then decimal_lit 2 10        (* Fast typist *)
      else if (wpm >=? 40)%Z then decimal_lit 3 10   (* Average typist *)
      else decimal_lit 4 10 in                       (* Slow typist *)
    let variance := base_delay * variance_ratio in
    Ok [ ("wpm"%string, PyInt wpm);
         ("base_delay"%string, PyFloat base_delay);
         ("variance"%string, PyFloat variance);
         ("pause_chance"%string, PyFloat (decimal_lit 5 100));
         ("pause_duration"%string, PyFloat (base_delay * of_Z 3)) ])).

(** [profile[key]] *)
Definition subscript (profile : profile_dict) (key : string) : result F :=
  match dict_get String.eqb profile key with
  | Some v => Ok v
  | None => Raise (KeyError key)
  end.

Definition required_keys : list string :=
  ["base_delay"; "variance"; "pause_chance"; "pause_duration"]%string.

(** [for key in required_keys: if key not in profile: raise ...] *)
Fixpoint check_keys (keys : list string) (profile : profile_dict)
  : result unit :=
  match keys with
  | [] => Ok tt
  | key :: rest =>
      if negb (dict_contains String.eqb profile key) then
        Raise (ValueError "Profile missing required key")
      else check_keys rest profile
  end.

(** The loop of [apply_typing_profile], with the list [delays] it
    extends. *)
Fixpoint delay_loop (text : str) (profile : profile_dict) (delays : list F)
  : M F (list F) :=
  match text with
  | [] => ret delays
  | char :: rest =>
      if negb (_is_char_supported [char]) then
        delay_loop rest profile delays          (* continue *)
      else
        (* Check for random pause *)
        r <- random_random ;;
        pause_chance <- lift (subscript profile "pause_chance") ;;
        delay <-
          (if r <? pause_chance then
             lift (subscript profile "pause_duration")
           else
             base_delay <- lift (subscript profile "base_delay") ;;
             variance <- lift (subscript profile "variance") ;;
             humanize_delay base_delay variance) ;;
        delay_loop rest profile (delays ++ [delay])
  end.

(** Generate delay sequence based on typing profile. *)
Definition apply_typing_profile (text : pyobj F) (profile : profile_dict)
  : M F (list F) :=
  match text with
  | PyStr s =>
      lift (check_keys required_keys profile) ;;
      delay_loop s profile []
  | _ => raise (ValueError "Text must be a string")
  end.

End Utils.

Arguments profile_dict F : clear implicits.
End utils.

(* ================================================================= *)
(** ** Instances of the interfaces *)

(** *** Exact rational arithmetic *)

Definition Q_ltb (x y : Q) : bool := negb (Qle_bool y x).

#[export] Instance Q_number : Number Q := {|
  of_Z := inject_Z;
  add := Qplus;
  sub := Qminus;
  mul := Qmult;
  div := Qdiv;
  neg := Qopp;
  ltb := Q_ltb;
  leb := Qle_bool;
  eqb := Qeq_bool;
  nonneg_not_neg := fun x H => f_equal negb H
|}.

(** Over the rationals the quotient of two integers is exact. *)
#[export] Instance Q_division : IntDivision Q := {|
  int_truediv a b :=
    if (b =? 0)%Z then Raise ZeroDivisionError
    else Ok (Qdiv (inject_Z a) (inject_Z b))
|}.

(** *** IEEE 754 binary64, the [float] of Python *)

(** [float(z)]: the nearest binary64 number, ties to even. *)
Definition float_of_Z (z : Z) : float :=
  SF2Prim (binary_normalize prec emax z 0 false).

#[export] Instance binary64 : Number float.
Proof.
  refine {| of_Z := float_of_Z;
            add := PrimFloat.add;
            sub := PrimFloat.sub;
            mul := PrimFloat.mul;
            div := PrimFloat.div;
            neg := PrimFloat.opp;
            ltb := PrimFloat.ltb;
            leb := PrimFloat.leb;
            eqb := PrimFloat.eqb;
            nonneg_not_neg := _ |}.
  intros x. rewrite leb_spec, ltb_spec.
  replace (Prim2SF (float_of_Z 0)) with (S754_zero false)
    by (vm_compute; reflexivity).
  unfold SFleb, SFltb.
  destruct (Prim2SF x) as [s | s | | s m e]; simpl; try reflexivity;
    destruct s; simpl; intros H; congruence.
Defined.

(** [a / b] on two [int]s: the correctly rounded quotient.  The
    quotient of two positive integers is taken in units of
    [2 ^ -1074]; [rne_div a d] is [a / d] rounded to the nearest
    integer, ties to even, and [keep53_ratio a b] keeps the 53 leading
    bits of the quotient, the bits below the unit when it has fewer. *)
Definition rne_div (a d : Z) : Z :=
  let q := a / d in
  let r := a mod d in
  match 2 * r ?= d with
  | Lt => q
  | Eq => if Z.even q then q else q + 1
  | Gt => q + 1
  end.

Definition keep53_ratio (a b : Z) : Z :=
  let u := a * 2 ^ 1074 in
  let n := Z.max (Zdigits2 (u / b) - 53) 0 in
  rne_div u (b * 2 ^ n) * 2 ^ n.

(** A quotient that rounds to [2 ^ 1024] or more is too large for a
    float; the sign of a zero quotient is that of the divisor. *)
Definition long_true_divide (a b : Z) : result float :=
  if b =? 0 then Raise ZeroDivisionError
  else
    let negate := xorb (a <? 0) (b <? 0) in
    let u := keep53_ratio (Z.abs a) (Z.abs b) in
    if 2 ^ 2098 <=? u then
      Raise (OverflowError "integer division result too large for a float")
    else
      Ok (SF2Prim (binary_normalize prec emax (cond_Zopp negate u) (-1074)
                     negate)).

#[export] Instance binary64_division : IntDivision float := {|
  int_truediv := long_true_divide
|}.

(** *** The case tables of Python on the code points that matter

    [isupper] and [lower] as Python computes them on ASCII and on
    U+212A KELVIN SIGN, an upper-case letter whose lower case is the
    ASCII letter k.  No other code point has a lower-case mapping that
    is a key of [CHAR_TO_VK], and no other code point is in
    [SHIFT_CHARS]; the instance treats them as uncased, which none of
    the modelled functions can tell apart from their real case data. *)

Definition KELVIN_SIGN : char := 0x212A%N.

Definition ascii_upper (c : char) : bool := ((65 <=? c) && (c <=? 90))%N.

#[export] Instance py_unicode : Unicode := {|
  isupper_cp c := ascii_upper c || (c =? KELVIN_SIGN)%N;
  lower_cp c :=
    if ascii_upper c then [(c + 32)%N]
    else if (c =? KELVIN_SIGN)%N then lit "k"
    else [c]
|}.

(** *** Hosts *)

(** An injector that inserts every event it is given. *)
Definition succeeds {F} (host : Host F) : Prop :=
  forall history inputs,
    user32_SendInput history inputs = Z.of_nat (List.length inputs).

(** The host that always succeeds and whose generator yields [rs]. *)
Definition success_host {F} (rs : nat -> F) : Host F := {|
  user32_SendInput := fun _ inputs => Z.of_nat (List.length inputs);
  random_stream := rs;
  print_answer := fun _ _ => None;
  sleep_answer := fun _ _ => None
|}.

(** The host whose injector inserts nothing. *)
Definition failing_host {F} (rs : nat -> F) : Host F := {|
  user32_SendInput := fun _ _ => 0;
  random_stream := rs;
  print_answer := fun _ _ => None;
  sleep_answer := fun _ _ => None
|}.

(** A code point that UTF-8 does not encode. *)
Definition surrogate (c : char) : bool :=
  ((0xD800 <=? c) && (c <=? 0xDFFF))%N.

(** A host as CPython 3.11 on a UTF-8 console gives it: the injector
    inserts every event; [print] raises [UnicodeEncodeError] for a line
    with a surrogate; [time.sleep] raises [ValueError] for a NaN,
    [OverflowError] when the nanoseconds do not fit a signed 64-bit
    integer, and [ValueError] for a negative duration. *)
Definition cpython_host (rs : nat -> float) : Host float := {|
  user32_SendInput := fun _ inputs => Z.of_nat (List.length inputs);
  random_stream := rs;
  print_answer := fun _ line =>
    if existsb surrogate line then
      Some (UnicodeEncodeError "surrogates not allowed")
    else None;
  sleep_answer := fun _ seconds =>
    let nanoseconds := (seconds * 1e9)%float in
    if PrimFloat.is_nan seconds then
      Some (ValueError "Invalid value NaN (not a number)")
    else if negb (PrimFloat.leb (-9223372036854775808) nanoseconds
                  && PrimFloat.leb nanoseconds 9223372036854775808) then
      Some (OverflowError "timestamp too large to convert to C _PyTime_t")
    else if PrimFloat.ltb seconds 0 then
      Some (ValueError "sleep length must be non-negative")
    else None
|}.

(** The world before anything happened. *)
Definition initial {F} : World F := {| events := []; draws := 0 |}.

(* ================================================================= *)
(** ** Vocabulary of the specifications *)

(** A key code in range. *)
Definition valid_key (vk : Z) : Prop := 0 <= vk <= 255.

(** The event that presses, respectively releases, a key. *)
Definition key_down (vk : Z) : INPUT :=
  {| type := constants.INPUT_KEYBOARD;
     ki := {| wVk := vk; wScan := 0; dwFlags := 0;
              time := 0; dwExtraInfo := 0 |} |}.

Definition key_up (vk : Z) : INPUT :=
  {| type := constants.INPUT_KEYBOARD;
     ki := {| wVk := vk; wScan := 0; dwFlags := constants.KEYEVENTF_KEYUP;
              time := 0; dwExtraInfo := 0 |} |}.

(** The events of one tap: modifiers down in order, the key down and up,
    modifiers up in reverse order. *)
Definition tap_events (vk : Z) (modifiers : list Z) : list INPUT :=
  map key_down modifiers ++ [key_down vk; key_up vk]
  ++ map key_up (rev modifiers).

(** The world [w] after the further effects [es]. *)
Definition after {F} (w : World F) (es : list (effect F)) : World F :=
  {| events := events w ++ es; draws := draws w |}.

(** The effects a computation adds when started in the initial world. *)
Definition emitted {F A} (m : M F A) : list (effect F) :=
  events (snd (m initial)).


Section Vocabulary.
Context {F : Type} {num : Number F} {U : Unicode} {host : Host F}.
Import constants wininput.

(** The answer of [_send_input] for a list that is sent. *)
Definition sent_ok (w : World F) (inputs : list INPUT) : bool :=
  user32_SendInput (events w) inputs =? Z.of_nat (List.length inputs).

(** The outcome of typing one character: the single effect it has and,
    given the world it starts in, the value returned. *)
Definition outcome (e : effect F) (w : World F) : bool :=
  match e with
  | ESendInput inputs => sent_ok w inputs
  | _ => false
  end.

(** What one character does: one tap, with or without Shift, or the
    warning. *)
Definition keystroke (c : char) (e : effect F) : Prop :=
  (exists vk, valid_key vk /\
     (e = ESendInput (tap_events vk [VK_SHIFT])
      \/ e = ESendInput (tap_events vk [])))
  \/ e = EPrint (warning [c]).

(** The suspension after a character: [if delay > 0: time.sleep(delay)]. *)
Definition pause (delay : F) : list (effect F) :=
  if gtb delay (of_Z 0) then [ESleep delay] else [].

(** [typed delay text w bs w']: starting in [w], the characters of [text]
    are typed one after the other, each followed by the pause; the
    character at position [i] returns [bs] at [i], and the last one
    leaves [w']. *)
Inductive typed (delay : F)
  : str -> World F -> list bool -> World F -> Prop :=
| typed_nil w : typed delay [] w [] w
| typed_cons c cs w b w1 bs w2 :
    _type_character [c] w = (Ok b, w1) ->
    typed delay cs (after w1 (pause delay)) bs w2 ->
    typed delay (c :: cs) w (b :: bs) w2.

(** The host on which every event is inserted and every [print] and
    [time.sleep] returns. *)
Definition obliging : Host F := success_host (fun _ => of_Z 0).

(** What typing the character adds to the trace when its call
    returns. *)
Definition stroke (c : char) : list (effect F) :=
  emitted (_type_character (host:=obliging) [c]).

(** Everything one character adds to the trace when its calls return. *)
Definition char_group (delay : F) (c : char) : list (effect F) :=
  stroke c ++ pause delay.

(** What [_type_character] does with the effect of its character: a
    tap is sent, a warning goes through [print]. *)
Definition attempt (e : effect F) : M F bool :=
  match e with
  | EPrint line => (print line ;; ret false)%py
  | _ => fun w => (Ok (outcome e w), after w [e])
  end.

(** [print] can write the warning of every character of the text. *)
Definition can_print (text : str) : Prop :=
  forall history c,
    In c text -> print_answer history (warning [c]) = None.

(** [time.sleep] accepts the delay, when the delay is one that
    [type_string] sleeps for. *)
Definition can_sleep (delay : F) : Prop :=
  gtb delay (of_Z 0) = true ->
  forall history, sleep_answer history delay = None.

(** Whether a computation sends a tap from the initial world. *)
Definition taps (m : M F bool) : bool :=
  match emitted m with
  | [ESendInput _] => true
  | _ => false
  end.

End Vocabulary.

(** No two neighbours of a list of flags are equal. *)
Fixpoint alternating (flags : list bool) : Prop :=
  match flags with
  | a :: rest =>
      match rest with
      | b :: _ => a <> b /\ alternating rest
      | [] => True
      end
  | [] => True
  end.

Definition ascii_key (s : str) : bool :=
  match s with
  | [k] => (k <? 128)%N
  | _ => false
  end.

Section TextVocabulary.
Context {U : Unicode}.
Import utils.

(** The text the loop has consumed. *)
Definition consumed (st : split_state) : str :=
  List.concat (map fst (chunks st)) ++ current_chunk st.

(** The invariant of the loop: the closed chunks and the open one
    alternate, and chunks are closed only once the open one has a
    character. *)
Definition split_inv (st : split_state) : Prop :=
  alternating (map snd (chunks st) ++ [current_supported st])
  /\ (current_chunk st = [] -> chunks st = []).

(** The supported characters of a text, in order. *)
Definition supported_chars (text : str) : str :=
  filter (fun c => _is_char_supported [c]) text.

(** Their number. *)
Definition supported_count (text : str) : Z :=
  Z.of_nat (List.length (supported_chars text)).

End TextVocabulary.

(** A Python number as arithmetic reads it, and the numbers of a
    dictionary. *)
Definition as_number {F} {num : Number F} (o : pyobj F) : option F :=
  match o with
  | PyBool b => Some (of_Z (if b then 1 else 0))
  | PyInt z => Some (of_Z z)
  | PyFloat x => Some x
  | _ => None
  end.

Definition numbers {F} {num : Number F} (d : list (string * pyobj F))
  : utils.profile_dict F :=
  flat_map (fun kv => match as_number (snd kv) with
                      | Some x => [(fst kv, x)]
                      | None => []
                      end) d.

(** A profile whose four fields are read by [apply_typing_profile]. *)
Definition profile_fields {F} (profile : utils.profile_dict F)
  (base_delay variance pause_chance pause_duration : F) : Prop :=
  utils.subscript profile "base_delay" = Ok base_delay
  /\ utils.subscript profile "variance" = Ok variance
  /\ utils.subscript profile "pause_chance" = Ok pause_chance
  /\ utils.subscript profile "pause_duration" = Ok pause_duration.

Section DelayVocabulary.
Context {host : Host Q}.
Import utils.
Local Open Scope Q_scope.

(** The value [random.uniform(a, b)] returns in the world [w]. *)
Definition drawn (a b : Q) (w : World Q) : Q :=
  a + (b - a) * random_stream (draws w).

(** Every value of [random.random()] is in the unit interval. *)
Definition unit_draws : Prop :=
  forall n, 0 <= random_stream n <= 1.

End DelayVocabulary.

(** A host for the examples: every injection succeeds and the generator
    always yields one half. *)
Definition demo_host : Host Q := success_host (fun _ => 1 # 2).

(** The text ["H", U+4E16, "i"]: the middle character has no mapping. *)
Definition demo_text : str := lit "H" ++ [0x4E16%N] ++ lit "i".

(* ================================================================= *)
(** ** Values of binary64 numbers

    The arithmetic of [float] is specified by the library on
    [spec_float] (sign, mantissa, exponent).  To reason about order and
    rounding, a number is read as a whole number of units of
    [2 ^ -1074], the smallest positive number of the format, or as an
    infinity; a NaN has no value. *)

Inductive xval := NegInf | Fin (z : Z) | PosInf.

Definition xcompare (a b : xval) : comparison :=
  match a, b with
  | NegInf, NegInf => Eq
  | NegInf, _ => Lt
  | _, NegInf => Gt
  | PosInf, PosInf => Eq
  | PosInf, _ => Gt
  | _, PosInf => Lt
  | Fin x, Fin y => x ?= y
  end.

Definition xleb (a b : xval) : bool :=
  match xcompare a b with Gt => false | _ => true end.

Definition xltb (a b : xval) : bool :=
  match xcompare a b with Lt => true | _ => false end.

Definition xle (a b : xval) : Prop :=
  match a, b with
  | NegInf, _ | _, PosInf => True
  | Fin x, Fin y => x <= y
  | _, _ => False
  end.

Definition xlt (a b : xval) : Prop :=
  match a with
  | NegInf => match b with NegInf => False | _ => True end
  | Fin x => match b with NegInf => False | Fin y => x < y | PosInf => True end
  | PosInf => False
  end.

Definition xopp (a : xval) : xval :=
  match a with
  | NegInf => PosInf
  | Fin x => Fin (- x)
  | PosInf => NegInf
  end.

Definition infinity_of (s : bool) : xval := if s then NegInf else PosInf.

(** The units of the finite number with sign [s], mantissa [m] and
    exponent [e]. *)
Definition units (s : bool) (m : positive) (e : Z) : Z :=
  cond_Zopp s (Z.pos m * 2 ^ (e + 1074)).

Definition SFvalue (x : spec_float) : option xval :=
  match x with
  | S754_nan => None
  | S754_zero _ => Some (Fin 0)
  | S754_infinity s => Some (if s then NegInf else PosInf)
  | S754_finite s m e => Some (Fin (units s m e))
  end.

Definition value (x : float) : option xval := SFvalue (Prim2SF x).

(** Round to nearest, ties to even, of [a / 2 ^ k]. *)
Definition rne (a k : Z) : Z :=
  let q := a / 2 ^ k in
  let r := a mod 2 ^ k in
  match 2 * r ?= 2 ^ k with
  | Lt => q
  | Eq => if Z.even q then q else q + 1
  | Gt => q + 1
  end.

(** [u > 0] units rounded to 53 significant bits. *)
Definition keep53 (u : Z) : Z :=
  let n := Z.max (Zdigits2 u - 53) 0 in rne u n * 2 ^ n.

(** The value of binary64 nearest to the magnitude [u > 0] with sign
    [s]: an infinity from [2 ^ 1024] on. *)
Definition nearest_mag (s : bool) (u : Z) : xval :=
  if keep53 u <? 2 ^ 2098 then Fin (cond_Zopp s (keep53 u))
  else infinity_of s.

(** The value of binary64 nearest to [u] units. *)
Definition nearest (u : Z) : xval :=
  match u with
  | 0 => Fin 0
  | Z.pos _ => nearest_mag false u
  | Z.neg _ => nearest_mag true (- u)
  end.

(** The value of a sum; there is none for infinities of opposite
    signs. *)
Definition xadd (a b : xval) : option xval :=
  match a, b with
  | NegInf, PosInf | PosInf, NegInf => None
  | NegInf, _ | _, NegInf => Some NegInf
  | PosInf, _ | _, PosInf => Some PosInf
  | Fin x, Fin y => Some (nearest (x + y))
  end.

(** The value of [max(0, x)] when [x] has the value [t]: a NaN is not
    greater than 0. *)
Definition xclamp (t : option xval) : xval :=
  match t with
  | Some (Fin x) => Fin (Z.max 0 x)
  | Some PosInf => PosInf
  | _ => Fin 0
  end.

(** The library's shift and rounding functions, in closed form: what
    [k] right shifts leave of a non-negative [a] (the quotient, the last
    bit shifted out, whether a bit before it was set), the exponent
    function of the format, and the rounding of a magnitude
    [z * 2 ^ e]. *)
Definition shr_by (a k : Z) : shr_record :=
  {| shr_m := a / 2 ^ k;
     shr_r := (0 <? k) && Z.odd (a / 2 ^ (k - 1));
     shr_s := (0 <? k) && negb (a mod 2 ^ (k - 1) =? 0) |}.

Definition fexp64 (e : Z) : Z := Z.max (e - 53) (-1074).

Definition finite_or_inf (s : bool) (m e : Z) : spec_float :=
  if e <=? 971 then S754_finite s (Z.to_pos m) e
  else S754_infinity s.

Definition round_mag (s : bool) (z e : Z) : spec_float :=
  let fe := fexp64 (Zdigits2 z + e) in
  if fe <=? e then finite_or_inf s (z * 2 ^ (e - fe)) fe
  else
    let m2 := rne z (fe - e) in
    if m2 =? 2 ^ 53 then finite_or_inf s (2 ^ 52) (fe + 1)
    else finite_or_inf s m2 fe.

(** Every value of [random.random()] is in the unit interval. *)
Definition unit_draws_binary64 {host : Host float} : Prop :=
  forall n, PrimFloat.leb 0 (random_stream n) = true
            /\ PrimFloat.leb (random_stream n) 1 = true.

(* ================================================================= *)
(** ** Vocabulary of the further properties *)

(** *** Text utilities *)

(** One pass over a text that puts [target] in the place of every line
    ending: a carriage return with the line feed after it, a carriage
    return alone, or a line feed alone. *)
Fixpoint retarget (target s : str) : str :=
  match s with
  | [] => []
  | c :: rest =>
      if (c =? 13)%N then
        match rest with
        | d :: rest' =>
            if (d =? 10)%N then target ++ retarget target rest'
            else target ++ retarget target rest
        | [] => target
        end
      else if (c =? 10)%N then target ++ retarget target rest
      else c :: retarget target rest
  end.

(** The three line endings. *)
Definition line_ending (t : str) : Prop :=
  t = [10%N] \/ t = [13%N; 10%N] \/ t = [13%N].

(** What stands for a character after escaping: its entry in
    [escape_map], or the character itself. *)
Definition escape_char (c : char) : str :=
  match dict_get str_eqb utils.escape_map [c] with
  | Some escaped => escaped
  | None => [c]
  end.

(** The elements of a list, each once, in the order of their first
    occurrence. *)
Fixpoint first_occurrences (l : list str) : list str :=
  match l with
  | [] => []
  | x :: rest =>
      x :: filter (fun y => negb (str_eqb y x)) (first_occurrences rest)
  end.

Section UnsupportedVocabulary.
Context {U : Unicode}.

(** The unsupported characters of a text, in order, with repetitions. *)
Definition unsupported_chars (text : str) : list str :=
  map (fun c => [c]) (filter (fun c => negb (utils._is_char_supported [c])) text).

(** A chunk is not empty and all its characters have its flag. *)
Definition uniform_chunk (chunk : str * bool) : Prop :=
  fst chunk <> []
  /\ Forall (fun c => utils._is_char_supported [c] = snd chunk) (fst chunk).

(** The invariant of the loop of [split_text_by_support]. *)
Definition chunk_inv (st : utils.split_state) : Prop :=
  Forall uniform_chunk (utils.chunks st)
  /\ Forall (fun c => utils._is_char_supported [c] = utils.current_supported st)
            (utils.current_chunk st).
End UnsupportedVocabulary.

(** *** Key injection *)

(** The calls that press the modifiers one by one, and those that
    release them in reverse order. *)
Definition presses {F} (ms : list Z) : list (effect F) :=
  map (fun m => ESendInput [key_down m]) ms.

Definition releases {F} (ms : list Z) : list (effect F) :=
  map (fun m => ESendInput [key_up m]) (rev ms).

(** An event for a key of the keyboard: a press or a release of a key
    code in range. *)
Definition key_event (i : INPUT) : Prop :=
  exists vk, valid_key vk /\ (i = key_down vk \/ i = key_up vk).

(** An effect the library may have on the outside: a call of
    [SendInput] with at least one event, all of them key events, a
    printed line or a sleep. *)
Definition keyboard_call {F} (e : effect F) : Prop :=
  match e with
  | ESendInput inputs => inputs <> [] /\ Forall key_event inputs
  | _ => True
  end.

(** A computation that only adds effects of this kind, whatever it
    returns or raises. *)
Definition keyboard_only {F A} (m : M F A) : Prop :=
  forall w, exists es, snd (m w) = after w es /\ Forall keyboard_call es.

(** The durations of the sleeps among some effects, in order. *)
Definition sleeps {F} (es : list (effect F)) : list F :=
  flat_map (fun e => match e with ESleep d => [d] | _ => [] end) es.

(** The sleeps after one character. *)
Definition pause_durations {F} {num : Number F} (delay : F) : list F :=
  if gtb delay (of_Z 0) then [delay] else [].

(* ================================================================= *)
(** ** Facts about the monad and the dictionaries *)

Section MonadFacts.
Context {F : Type}.

Lemma bind_ok {A B} (m : M F A) (k : A -> M F B) w a w' :
  m w = (Ok a, w') -> bind m k w = k a w'.
Proof. intros H. unfold bind. rewrite H. reflexivity. Qed.

Lemma after_nil (w : World F) : after w [] = w.
Proof. destruct w. unfold after. simpl. rewrite app_nil_r. reflexivity. Qed.

Lemma after_after (w : World F) es1 es2 :
  after (after w es1) es2 = after w (es1 ++ es2).
Proof. unfold after. simpl. rewrite app_assoc. reflexivity. Qed.

End MonadFacts.

Lemma str_eqb_eq (s t : str) : str_eqb s t = true <-> s = t.
Proof.
  revert t. induction s as [|a s IH]; intros [|b t]; simpl;
    try (split; [discriminate | congruence ]); try tauto.
  rewrite andb_true_iff, N.eqb_eq, IH. split.
  - intros [-> ->]. reflexivity.
  - intros H. injection H as -> ->. split; reflexivity.
Qed.

Lemma dict_get_Forall {K V} (eqb : K -> K -> bool) (P : V -> Prop) d k v :
  Forall (fun kv => P (snd kv)) d -> dict_get eqb d k = Some v -> P v.
Proof.
  induction 1 as [|[k' v'] d Hv Hd IH]; simpl; [discriminate|].
  destruct (eqb k k'); [intros [= <-]; exact Hv | exact IH].
Qed.

(** Every key code of the character table is in range and not zero. *)
Lemma CHAR_TO_VK_range k vk :
  dict_get str_eqb constants.CHAR_TO_VK k = Some vk -> 1 <= vk <= 255.
Proof.
  apply (dict_get_Forall str_eqb (fun v => 1 <= v <= 255)).
  unfold constants.CHAR_TO_VK.
  repeat (constructor; [simpl; vm_compute; split; discriminate|]).
  constructor.
Qed.

(* ================================================================= *)
(** ** [wininput]: what the key functions send *)

Section WinInputFacts.
Context {F : Type} {num : Number F} {U : Unicode} {host : Host F}.
Import constants wininput.

Lemma invalid_code_int vk :
  valid_key vk -> invalid_code (F:=F) (PyInt vk) = false.
Proof.
  intros [H0 H1]. unfold invalid_code. simpl.
  rewrite Z.gtb_ltb. apply orb_false_iff. split; apply Z.ltb_ge; lia.
Qed.

Lemma invalid_code_false (o : pyobj F) :
  invalid_code o = false -> exists vk, as_int o = Some vk /\ valid_key vk.
Proof.
  unfold invalid_code. destruct (as_int o) as [v|]; [|discriminate].
  intros H. apply orb_false_iff in H as [H0 H1].
  exists v. split; [reflexivity|].
  apply Z.ltb_ge in H0. rewrite Z.gtb_ltb in H1. apply Z.ltb_ge in H1.
  split; assumption.
Qed.

Lemma create_key_down (o : pyobj F) vk :
  as_int o = Some vk -> valid_key vk ->
  _create_keyboard_input o 0 = Ok (key_down vk).
Proof.
  intros Ho [H0 H1]. unfold _create_keyboard_input, to_WORD. rewrite Ho.
  simpl. rewrite Z.mod_small by lia. reflexivity.
Qed.

Lemma create_key_up (o : pyobj F) vk :
  as_int o = Some vk -> valid_key vk ->
  _create_keyboard_input o KEYEVENTF_KEYUP = Ok (key_up vk).
Proof.
  intros Ho [H0 H1]. unfold _create_keyboard_input, to_WORD. rewrite Ho.
  simpl. rewrite Z.mod_small by lia. reflexivity.
Qed.

Lemma press_modifiers_valid ms inputs :
  Forall valid_key ms ->
  press_modifiers (F:=F) (map PyInt ms) inputs = Ok (inputs ++ map key_down ms).
Proof.
  intros H. revert inputs.
  induction H as [|m ms Hm _ IH]; intros inputs;
    cbn [press_modifiers map].
  - rewrite app_nil_r. reflexivity.
  - rewrite (invalid_code_int Hm).
    rewrite (create_key_down (PyInt m) eq_refl Hm). cbn [rbind].
    rewrite IH, <- app_assoc. reflexivity.
Qed.

Lemma release_modifiers_valid ms inputs :
  Forall valid_key ms ->
  release_modifiers (F:=F) (map PyInt ms) inputs
  = Ok (inputs ++ map key_up ms).
Proof.
  intros H. revert inputs.
  induction H as [|m ms Hm _ IH]; intros inputs;
    cbn [release_modifiers map].
  - rewrite app_nil_r. reflexivity.
  - rewrite (create_key_up (PyInt m) eq_refl Hm). cbn [rbind].
    rewrite IH, <- app_assoc. reflexivity.
Qed.

Lemma send_input_run inputs w :
  inputs <> [] ->
  _send_input inputs w = (Ok (sent_ok w inputs), after w [ESendInput inputs]).
Proof. destruct inputs; [congruence | reflexivity]. Qed.

Lemma tap_events_not_nil vk ms : tap_events vk ms <> [].
Proof. unfold tap_events. destruct (map key_down ms); discriminate. Qed.

(** A tap with a list of valid modifiers is one call of [SendInput] with
    the events of the tap. *)
Lemma tap_key_run vk ms w :
  valid_key vk -> Forall valid_key ms ->
  tap_key (PyInt vk) (PyList (map PyInt ms)) w
  = (Ok (sent_ok w (tap_events vk ms)),
     after w [ESendInput (tap_events vk ms)]).
Proof.
  intros Hvk Hms. unfold tap_key. rewrite (invalid_code_int Hvk).
  rewrite (create_key_down (PyInt vk) eq_refl Hvk).
  rewrite (create_key_up (PyInt vk) eq_refl Hvk).
  destruct ms as [|m ms].
  - simpl. reflexivity.
  - assert (Ht : truthy (F:=F) (PyList (map PyInt (m :: ms))) = true)
      by reflexivity.
    rewrite Ht. unfold py_reversed, py_iter, option_map.
    rewrite (press_modifiers_valid [] Hms).
    rewrite <- map_rev.
    unfold bind at 1, lift at 1. unfold bind at 1, lift at 1.
    unfold bind at 1, lift at 1.
    rewrite release_modifiers_valid by (apply Forall_rev; exact Hms).
    unfold bind at 1, lift at 1.
    replace ((((([] : list INPUT) ++ map key_down (m :: ms)) ++ [key_down vk])
               ++ [key_up vk]) ++ map key_up (rev (m :: ms)))
      with (tap_events vk (m :: ms))
      by (unfold tap_events; rewrite app_nil_l, <- !app_assoc; reflexivity).
    apply send_input_run, tap_events_not_nil.
Qed.

(** A tap without modifiers ([modifiers=None]). *)
Lemma tap_key_none_run vk w :
  valid_key vk ->
  tap_key (PyInt vk) PyNone w
  = (Ok (sent_ok w (tap_events vk [])),
     after w [ESendInput (tap_events vk [])]).
Proof.
  intros Hvk. unfold tap_key. rewrite (invalid_code_int Hvk).
  rewrite (create_key_down (PyInt vk) eq_refl Hvk).
  rewrite (create_key_up (PyInt vk) eq_refl Hvk).
  reflexivity.
Qed.
End WinInputFacts.

Section TypeCharacterFacts.
Context {F : Type} {num : Number F} {U : Unicode}.
Import constants wininput.

Lemma found_range k vk :
  found (dict_get str_eqb CHAR_TO_VK k) = Some vk -> valid_key vk.
Proof.
  unfold found. destruct (dict_get str_eqb CHAR_TO_VK k) as [v|] eqn:E;
    [|discriminate].
  apply CHAR_TO_VK_range in E.
  destruct (v =? 0); [discriminate|]. intros [= <-]. split; lia.
Qed.

Lemma attempt_tap (host : Host F) inputs w :
  attempt (ESendInput inputs) w
  = (Ok (sent_ok w inputs), after w [ESendInput inputs]).
Proof. reflexivity. Qed.

(** The effect of a character does not depend on the host; what comes
    of it does. *)
Lemma type_character_run c :
  exists e : effect F, keystroke c e /\
    forall (host : Host F) w, _type_character [c] w = attempt e w.
Proof.
  assert (Hshift : Forall valid_key [VK_SHIFT])
    by (repeat constructor; vm_compute; discriminate).
  assert (Htap : forall vk, valid_key vk ->
            exists e : effect F, keystroke c e /\
            forall (host : Host F) w,
              tap_key (PyInt vk) (PyList [PyInt VK_SHIFT]) w = attempt e w).
  { intros vk Hvk. exists (ESendInput (tap_events vk [VK_SHIFT])).
    split; [left; exists vk; auto|].
    intros host w. apply (tap_key_run (ms:=[VK_SHIFT]) w Hvk Hshift). }
  assert (Hplain : forall vk, valid_key vk ->
            exists e : effect F, keystroke c e /\
            forall (host : Host F) w,
              tap_key (PyInt vk) PyNone w = attempt e w).
  { intros vk Hvk. exists (ESendInput (tap_events vk [])).
    split; [left; exists vk; auto|].
    intros host w. apply tap_key_none_run, Hvk. }
  assert (Hwarn : exists e : effect F, keystroke c e /\
            forall (host : Host F) w,
              (print (warning [c]) ;; ret false)%py w = attempt e w).
  { exists (EPrint (warning [c])). split; [right; reflexivity|].
    intros host w. reflexivity. }
  unfold _type_character. cbn [List.length Nat.eqb negb].
  destruct (set_contains str_eqb SHIFT_CHARS [c]).
  - destruct (isupper [c]).
    + destruct (found (dict_get str_eqb CHAR_TO_VK (lower [c]))) as [vk|] eqn:E.
      * apply Htap, (found_range _ E).
      * destruct (found (dict_get str_eqb CHAR_TO_VK [c])) as [vk|] eqn:E'.
        -- apply Hplain, (found_range _ E').
        -- exact Hwarn.
    + destruct (dict_get str_eqb SHIFT_CHAR_MAP [c]) as [[|b bs]|];
        try destruct (found (dict_get str_eqb CHAR_TO_VK (b :: bs)))
          as [vk0|] eqn:E0;
        try (apply Htap, (found_range _ E0));
        (destruct (found (dict_get str_eqb CHAR_TO_VK [c])) as [vk|] eqn:E';
         [ apply Hplain, (found_range _ E') | exact Hwarn ]).
  - destruct (found (dict_get str_eqb CHAR_TO_VK [c])) as [vk|] eqn:E'.
    + apply Hplain, (found_range _ E').
    + exact Hwarn.
Qed.

(** The effect of typing [c] is its stroke. *)
Lemma type_character_stroke c :
  exists e : effect F, keystroke c e /\ stroke c = [e] /\
    forall (host : Host F) w, _type_character [c] w = attempt e w.
Proof.
  destruct (type_character_run c) as [e [Hk He]].
  exists e. split; [exact Hk|]. split; [|exact He].
  unfold stroke, emitted. rewrite He.
  destruct Hk as [[vk [_ [-> | ->]]] | ->]; reflexivity.
Qed.

(** What comes of the effect of a character: it is added to the trace,
    or it is a warning that [print] refuses. *)
Lemma attempt_cases {host : Host F} c e w :
  keystroke c e ->
  attempt e w = (Ok (outcome e w), after w [e])
  \/ (exists x, e = EPrint (warning [c])
                /\ print_answer (events w) (warning [c]) = Some x
                /\ attempt e w = (Raise x, w)).
Proof.
  intros [[vk [_ [-> | ->]]] | ->]; try (left; reflexivity).
  unfold attempt, bind, print.
  destruct (print_answer (events w) (warning [c])) as [x|] eqn:E.
  - right. exists x. auto.
  - left. reflexivity.
Qed.

(** With a [print] that writes the warning, the character returns. *)
Lemma type_character_emitted {host : Host F} c w :
  (forall history, print_answer history (warning [c]) = None) ->
  exists e, keystroke c e /\ emitted (_type_character [c]) = [e] /\
    stroke c = [e] /\
    _type_character [c] w = (Ok (outcome e w), after w [e]).
Proof.
  intros Hp. destruct (type_character_stroke c) as [e [Hk [Hs He]]].
  exists e. split; [exact Hk|].
  assert (Hrun : forall w0, _type_character [c] w0
                            = (Ok (outcome e w0), after w0 [e])).
  { intros w0. rewrite He.
    destruct (attempt_cases w0 Hk) as [H|[x [_ [Hx _]]]]; [exact H|].
    rewrite Hp in Hx. discriminate. }
  split; [|split; [exact Hs | apply Hrun]].
  unfold emitted. rewrite Hrun. reflexivity.
Qed.
End TypeCharacterFacts.

(* ================================================================= *)
(** ** [type_string]: every character, in order *)

Section TypeStringFacts.
Context {F : Type} {num : Number F} {U : Unicode} {host : Host F}.
Import constants wininput.

(** The pause after a character: it is added to the trace, or
    [time.sleep] refuses the delay. *)
Lemma pause_cases delay (w : World F) :
  (if gtb delay (of_Z 0) then time_sleep delay else ret tt) w
  = (Ok tt, after w (pause delay))
  \/ (exists x, gtb delay (of_Z 0) = true
                /\ sleep_answer (events w) delay = Some x
                /\ (if gtb delay (of_Z 0) then time_sleep delay else ret tt) w
                   = (Raise x, w)).
Proof.
  unfold pause. destruct (gtb delay (of_Z 0)).
  - unfold time_sleep.
    destruct (sleep_answer (events w) delay) as [x|] eqn:E.
    + right. exists x. auto.
    + left. reflexivity.
  - left. rewrite after_nil. reflexivity.
Qed.

Lemma pause_run delay (w : World F) :
  can_sleep delay ->
  (if gtb delay (of_Z 0) then time_sleep delay else ret tt) w
  = (Ok tt, after w (pause delay)).
Proof.
  intros Hs. destruct (pause_cases delay w) as [H|[x [Hd [Hx _]]]];
    [exact H|].
  rewrite (Hs Hd) in Hx. discriminate.
Qed.

(** The loop on any host: it types a prefix of the text, group after
    group, and either reaches the end and returns, or stops at the
    character whose warning [print] refuses, or after the stroke of the
    character whose pause [time.sleep] refuses. *)
Lemma type_chars_cases text delay success w :
  exists n bs tail r,
    type_chars text delay success w
    = (r, after w (flat_map (char_group delay) (firstn n text) ++ tail))
    /\ typed delay (firstn n text) w bs
         (after w (flat_map (char_group delay) (firstn n text)))
    /\ ((n = List.length text /\ tail = []
         /\ r = Ok (success && forallb (fun b => b) bs))
        \/ (exists c x,
              nth_error text n = Some c /\ r = Raise x
              /\ ((tail = []
                   /\ exists history,
                        print_answer history (warning [c]) = Some x)
                  \/ (tail = stroke c
                      /\ gtb delay (of_Z 0) = true
                      /\ exists history,
                           sleep_answer history delay = Some x)))).
Proof.
  revert success w. induction text as [|c cs IH]; intros success w.
  - exists 0%nat, [], [], (Ok success). cbn [type_chars firstn flat_map app].
    rewrite after_nil, andb_true_r.
    split; [reflexivity|]. split; [constructor|]. left. auto.
  - destruct (type_character_stroke c) as [e [Hk [Hst He]]].
    cbn [type_chars]. unfold bind at 1. rewrite He.
    destruct (attempt_cases w Hk) as [Ha|[x [-> [Hx Ha]]]]; rewrite Ha.
    2:{ exists 0%nat, [], [], (Raise x). cbn [firstn flat_map app].
        rewrite after_nil. split; [reflexivity|]. split; [constructor|].
        right. exists c, x. split; [reflexivity|]. split; [reflexivity|].
        left. split; [reflexivity|]. exists (events w). exact Hx. }
    unfold bind at 1.
    destruct (pause_cases delay (after w [e])) as [Hp|[x [Hd [Hx Hp]]]];
      rewrite Hp.
    2:{ exists 0%nat, [], [e], (Raise x). cbn [firstn flat_map app].
        split; [reflexivity|]. rewrite after_nil. split; [constructor|].
        right. exists c, x. split; [reflexivity|]. split; [reflexivity|].
        right. split; [symmetry; exact Hst|]. split; [exact Hd|].
        exists (events (after w [e])). exact Hx. }
    destruct (IH (if negb (outcome e w) then false else success)
                 (after (after w [e]) (pause delay)))
      as [n [bs [tail [r [Hrun [Htyped Hcases]]]]]].
    assert (Hw : forall es,
              after (after (after w [e]) (pause delay)) es
              = after w (char_group delay c ++ es)).
    { intros es. unfold char_group. rewrite Hst, !after_after.
      reflexivity. }
    exists (S n), (outcome e w :: bs), tail, r.
    cbn [firstn flat_map]. rewrite <- app_assoc, <- Hw.
    split; [exact Hrun|]. split.
    + econstructor; [rewrite He; exact Ha|].
      rewrite <- (app_nil_r (flat_map (char_group delay) (firstn n cs))) at 1.
      rewrite <- Hw, app_nil_r. exact Htyped.
    + destruct Hcases as [[Hn [Ht Hr]]|[c' [x [Hnth H]]]].
      * left. cbn [List.length forallb]. rewrite Hn.
        split; [reflexivity|]. split; [exact Ht|]. rewrite Hr.
        destruct (outcome e w), success; reflexivity.
      * right. exists c', x. cbn [nth_error]. split; [exact Hnth | exact H].
Qed.

Lemma type_chars_run text delay success w :
  can_print text -> can_sleep delay ->
  exists bs w',
    type_chars text delay success w
    = (Ok (success && forallb (fun b => b) bs), w')
    /\ typed delay text w bs w'
    /\ w' = after w (flat_map (char_group delay) text).
Proof.
  intros Hp Hs.
  destruct (type_chars_cases text delay success w)
    as [n [bs [tail [r [Hrun [Htyped Hcases]]]]]].
  destruct Hcases as [[Hn [Ht Hr]]|[c [x [Hnth [_ H]]]]].
  - subst n tail r. rewrite firstn_all, app_nil_r in *.
    exists bs, (after w (flat_map (char_group delay) text)). auto.
  - exfalso. destruct H as [[_ [history Hx]]|[_ [Hd [history Hx]]]].
    + rewrite (Hp history c (nth_error_In _ _ Hnth)) in Hx. discriminate.
    + rewrite (Hs Hd history) in Hx. discriminate.
Qed.

Lemma typed_length delay text w bs w' :
  typed delay text w bs w' -> List.length bs = List.length text.
Proof. induction 1; simpl; congruence. Qed.
End TypeStringFacts.

(* ================================================================= *)
(** ** [split_text_by_support]: the spans *)

Lemma alternating_snoc l a b :
  alternating (l ++ [a]) -> a <> b -> alternating (l ++ [a; b]).
Proof.
  induction l as [|x l IH]; intros H Hab.
  - simpl. auto.
  - destruct l as [|y l].
    + simpl in *. tauto.
    + change (x <> y /\ alternating ((y :: l) ++ [a])) in H.
      change (x <> y /\ alternating ((y :: l) ++ [a; b])).
      destruct H as [Hxy H]. split; [exact Hxy | apply IH; assumption].
Qed.

Lemma alternating_nth l :
  alternating l ->
  forall i a b, nth_error l i = Some a -> nth_error l (S i) = Some b -> a <> b.
Proof.
  induction l as [|x l IH]; intros H i a b Ha Hb.
  - destruct i; discriminate.
  - destruct l as [|y l]; [destruct i; discriminate|].
    destruct H as [Hxy H]. destruct i as [|i].
    + simpl in Ha, Hb. congruence.
    + apply (IH H i); assumption.
Qed.

Section SplitFacts.
Context {U : Unicode}.
Import utils.

Lemma flush_consumed st : List.concat (map fst (flush st)) = consumed st.
Proof.
  unfold flush, consumed. destruct (current_chunk st) as [|c cs].
  - rewrite app_nil_r. reflexivity.
  - rewrite map_app, List.concat_app. simpl. rewrite app_nil_r. reflexivity.
Qed.

Lemma flush_alternating st :
  split_inv st -> alternating (map snd (flush st)).
Proof.
  intros [Halt Hnil]. unfold flush. destruct (current_chunk st) as [|c cs].
  - rewrite Hnil by reflexivity. exact I.
  - rewrite map_app. exact Halt.
Qed.

Lemma split_step_inv st c :
  split_inv st ->
  split_inv (split_step st c)
  /\ consumed (split_step st c) = consumed st ++ [c].
Proof.
  intros Hinv. unfold split_step.
  destruct (Bool.eqb (_is_char_supported [c]) (current_supported st)) eqn:E.
  - split.
    + destruct Hinv as [Halt Hnil]. split; [exact Halt|].
      simpl. intros H. destruct (current_chunk st); discriminate.
    + unfold consumed. simpl. rewrite app_assoc. reflexivity.
  - split.
    + split; [|simpl; discriminate].
      cbn [chunks current_supported].
      apply eqb_false_iff in E.
      destruct Hinv as [Halt Hnil]. unfold flush.
      destruct (current_chunk st) as [|d ds].
      * rewrite Hnil by reflexivity. exact I.
      * rewrite map_app, <- app_assoc. apply alternating_snoc; [exact Halt|].
        simpl. congruence.
    + unfold consumed. cbn [chunks current_chunk].
      rewrite flush_consumed. reflexivity.
Qed.

Lemma split_loop_inv s st :
  split_inv st ->
  split_inv (fold_left split_step s st)
  /\ consumed (fold_left split_step s st) = consumed st ++ s.
Proof.
  revert st. induction s as [|c s IH]; intros st Hinv; simpl.
  - rewrite app_nil_r. auto.
  - destruct (split_step_inv c Hinv) as [Hinv' Hc].
    destruct (IH _ Hinv') as [Hinv'' Hc'].
    split; [exact Hinv''|]. rewrite Hc', Hc, <- app_assoc. reflexivity.
Qed.
End SplitFacts.

(* ================================================================= *)
(** ** Counting the supported characters *)

Section CountFacts.
Context {U : Unicode}.
Import utils.

Lemma py_sum_ones {A} (l : list A) :
  py_sum (map (fun _ => 1) l) = Z.of_nat (List.length l).
Proof.
  unfold py_sum.
  assert (H : forall a, fold_left Z.add (map (fun _ : A => 1) l) a
                        = a + Z.of_nat (List.length l)).
  { induction l as [|x l IH]; intros a; cbn [map fold_left List.length].
    - lia.
    - rewrite IH. lia. }
  rewrite H. lia.
Qed.
End CountFacts.

(* ================================================================= *)
(** ** Delays over exact rationals *)

Section RationalFacts.
Context {U : Unicode} {host : Host Q}.
Import utils.
Local Open Scope Q_scope.

Lemma Q_ltb_lt x y : Q_ltb x y = true <-> x < y.
Proof.
  unfold Q_ltb. rewrite negb_true_iff, <- not_true_iff_false, Qle_bool_iff.
  split; [apply Qnot_le_lt | apply Qlt_not_le].
Qed.

Lemma Q_ltb_ge x y : Q_ltb x y = false <-> y <= x.
Proof.
  unfold Q_ltb. rewrite negb_false_iff. apply Qle_bool_iff.
Qed.

Lemma max0_spec (x : Q) :
  (0 < x /\ max0 x = x) \/ (x <= 0 /\ max0 x = 0).
Proof.
  unfold max0, gtb. cbn [ltb of_Z Q_number].
  destruct (Q_ltb (inject_Z 0) x) eqn:E.
  - left. apply Q_ltb_lt in E. auto.
  - right. apply Q_ltb_ge in E. auto.
Qed.

Lemma random_uniform_run a b w :
  random_uniform a b w
  = (Ok (drawn a b w), {| events := events w; draws := S (draws w) |}).
Proof. reflexivity. Qed.

(** A draw of the generator in the unit interval puts the offset in
    [[-variance, variance]]. *)
Lemma drawn_range variance w :
  0 <= variance -> 0 <= random_stream (draws w) <= 1 ->
  - variance <= drawn (- variance) variance w <= variance.
Proof.
  intros Hv [H0 H1]. unfold drawn.
  set (r := random_stream (draws w)) in *. nra.
Qed.

Lemma humanize_delay_run base_delay variance w :
  0 <= base_delay -> 0 <= variance ->
  humanize_delay base_delay variance w
  = (Ok (max0 (base_delay + drawn (- variance) variance w)),
     {| events := events w; draws := S (draws w) |}).
Proof.
  intros Hb Hv. unfold humanize_delay. cbn [ltb of_Z neg add Q_number].
  apply Q_ltb_ge in Hb, Hv.
  change (inject_Z 0) with 0. rewrite Hb, Hv. reflexivity.
Qed.
End RationalFacts.

(* ================================================================= *)
(** ** Properties of the typing orchestrator *)

Section Orchestrator.
Context {F : Type} {num : Number F} {U : Unicode} {host : Host F}.
Import constants wininput.

(** Typing a string on any host: the trace is the groups of a prefix of
    the text, complete when it returns; when it raises, [print] has
    refused the warning of the next character, or [time.sleep] the
    delay after its stroke. *)
Lemma type_string_cases text delay w :
  leb (of_Z 0) delay = true ->
  exists n bs tail r,
    type_string (PyStr text) delay w
    = (r, after w (flat_map (char_group delay) (firstn n text) ++ tail))
    /\ typed delay (firstn n text) w bs
         (after w (flat_map (char_group delay) (firstn n text)))
    /\ ((n = List.length text /\ tail = []
         /\ r = Ok (forallb (fun b => b) bs))
        \/ (exists c x,
              nth_error text n = Some c /\ r = Raise x
              /\ ((tail = []
                   /\ exists history,
                        print_answer history (warning [c]) = Some x)
                  \/ (tail = stroke c
                      /\ gtb delay (of_Z 0) = true
                      /\ exists history,
                           sleep_answer history delay = Some x)))).
Proof.
  intros Hd. unfold type_string. rewrite (nonneg_not_neg _ Hd).
  apply type_chars_cases.
Qed.

Lemma type_string_run text delay w :
  leb (of_Z 0) delay = true ->
  can_print text -> can_sleep delay ->
  exists bs w',
    type_string (PyStr text) delay w = (Ok (forallb (fun b => b) bs), w')
    /\ typed delay text w bs w'
    /\ w' = after w (flat_map (char_group delay) text).
Proof.
  intros Hd Hp Hs. unfold type_string. rewrite (nonneg_not_neg _ Hd).
  destruct (type_chars_run true w Hp Hs) as [bs [w' [Hrun H]]].
  exists bs, w'. split; [exact Hrun | exact H].
Qed.

(** C2.  When [time.sleep] accepts the delay and [print] can write the
    warning of every character of the text, typing the string with a
    non-negative delay types every character, in order and whatever the
    earlier characters returned, and returns the conjunction of what
    the characters returned: false if some character failed, true
    otherwise. *)
Theorem type_string_best_effort (text : str) (delay : F) (w : World F) :
  leb (of_Z 0) delay = true ->
  can_print text -> can_sleep delay ->
  exists (bs : list bool) (w' : World F),
    type_string (PyStr text) delay w = (Ok (forallb (fun b => b) bs), w')
    /\ typed delay text w bs w'
    /\ List.length bs = List.length text.
Proof.
  intros Hd Hp Hs.
  destruct (@type_string_run text delay w Hd Hp Hs)
    as [bs [w' [Hrun [Htyped _]]]].
  exists bs, w'. split; [exact Hrun|]. split; [exact Htyped|].
  apply (typed_length Htyped).
Qed.


(** C10.  Typing the empty string returns true and leaves the world as
    it was: nothing is sent, printed or slept. *)
Theorem type_string_empty (delay : F) (w : World F) :
  leb (of_Z 0) delay = true ->
  type_string (PyStr []) delay w = (Ok true, w).
Proof.
  intros Hd. unfold type_string. rewrite (nonneg_not_neg _ Hd). reflexivity.
Qed.

(** *** Validation errors *)

Lemma send_input_ok inputs w :
  exists b w', _send_input inputs w = (Ok b, w').
Proof.
  destruct inputs as [|i inputs].
  - exists true, w. reflexivity.
  - eexists _, _. apply send_input_run. discriminate.
Qed.

(** [press_key] raises before it sends. *)
Lemma press_key_raise_clean vk_code w e w' :
  press_key vk_code w = (Raise e, w') -> w' = w.
Proof.
  unfold press_key. destruct (invalid_code vk_code) eqn:E.
  - intros [= _ <-]. reflexivity.
  - destruct (invalid_code_false _ E) as [vk [Hint Hvk]].
    rewrite (create_key_down _ Hint Hvk). discriminate.
Qed.

Lemma release_key_raise_clean vk_code w e w' :
  release_key vk_code w = (Raise e, w') -> w' = w.
Proof.
  unfold release_key. destruct (invalid_code vk_code) eqn:E.
  - intros [= _ <-]. reflexivity.
  - destruct (invalid_code_false _ E) as [vk [Hint Hvk]].
    rewrite (create_key_up _ Hint Hvk). discriminate.
Qed.

(** [tap_key] raises before it sends, whatever [modifiers] is. *)
Lemma tap_key_raise_clean vk_code modifiers w e w' :
  tap_key vk_code modifiers w = (Raise e, w') -> w' = w.
Proof.
  unfold tap_key. destruct (invalid_code vk_code) eqn:E.
  - intros [= _ <-]. reflexivity.
  - destruct (invalid_code_false _ E) as [vk [Hint Hvk]].
    rewrite (create_key_down _ Hint Hvk), (create_key_up _ Hint Hvk).
    unfold bind, lift.
    destruct (if truthy modifiers then _ else _) as [inputs|e1];
      [|intros [= _ <-]; reflexivity].
    destruct (if truthy modifiers then _ else _) as [inputs'|e2];
      [|intros [= _ <-]; reflexivity].
    destruct (send_input_ok inputs' w) as [b [w2 ->]]. discriminate.
Qed.

(** [type_string] raises its own errors before it types: a text that is
    not a string, a negative delay. *)
Lemma type_string_raise_clean text delay w :
  (forall s, text <> PyStr s) \/ ltb delay (of_Z 0) = true ->
  exists msg, type_string text delay w = (Raise (ValueError msg), w).
Proof.
  unfold type_string. intros [H|H].
  - destruct text as [| | | |s|]; try (eexists; reflexivity).
    exfalso. apply (H s). reflexivity.
  - destruct text as [| | | |s|]; try (eexists; reflexivity).
    rewrite H. eexists. reflexivity.
Qed.

(** Whatever else [type_string] raises is what [print] or [time.sleep]
    raised. *)
Lemma type_string_raise_cases text delay w e w' :
  type_string text delay w = (Raise e, w') ->
  w' = w
  \/ (exists history line, print_answer history line = Some e)
  \/ (exists history, sleep_answer history delay = Some e).
Proof.
  unfold type_string.
  destruct text as [| | | |s|]; try (intros [= _ <-]; left; reflexivity).
  destruct (ltb delay (of_Z 0)); [intros [= _ <-]; left; reflexivity|].
  destruct (type_chars_cases s delay true w)
    as [n [bs [tail [r [Hrun [_ Hcases]]]]]].
  rewrite Hrun. intros [= -> _].
  destruct Hcases as [[_ [_ Hr]]|[c [x [_ [[= <-] H]]]]]; [discriminate|].
  right. destruct H as [[_ [history Hx]]|[_ [_ [history Hx]]]].
  - left. exists history, (warning [c]). exact Hx.
  - right. exists history. exact Hx.
Qed.

(** C4.  [with_modifiers] validates each modifier just before pressing
    it: with a valid modifier followed by an invalid one, the first is
    pressed before the error is raised, and nothing releases it. *)
Theorem with_modifiers_partial_press {A} (block : M F A) (w : World F) :
  with_modifiers (PyList [PyInt VK_SHIFT; PyInt 256]) block w
  = (Raise (ValueError "Invalid modifier key code"),
     after w [ESendInput [key_down VK_SHIFT]]).
Proof. reflexivity. Qed.

End Orchestrator.

(* ================================================================= *)
(** ** Properties of the text segmenter and of the estimate *)

Section Segmenter.
Context {F : Type} {num : Number F} {U : Unicode}.
Import utils.

(** C5.  The spans of a text: their chunks, concatenated in order, give
    the text back; two spans next to each other never have the same
    flag; the empty text has no span. *)
Theorem split_text_by_support_spans (t : str) :
  exists spans : list (str * bool),
    split_text_by_support (F:=F) (PyStr t) = Ok spans
    /\ List.concat (map fst spans) = t
    /\ (forall i a b,
          nth_error spans i = Some a -> nth_error spans (S i) = Some b ->
          snd a <> snd b)
    /\ (t = [] -> spans = []).
Proof.
  destruct t as [|c t].
  - exists []. repeat split; try reflexivity.
    intros [|i] a b Ha; discriminate.
  - set (st := {| chunks := []; current_chunk := [];
                  current_supported := _is_char_supported [c] |}).
    assert (Hinv : split_inv st) by (split; [exact I | reflexivity]).
    destruct (split_loop_inv (c :: t) Hinv) as [Hinv' Hc].
    exists (flush (fold_left split_step (c :: t) st)).
    split; [reflexivity|]. split; [|split].
    + rewrite flush_consumed, Hc. reflexivity.
    + intros i a b Ha Hb.
      apply (alternating_nth _ (flush_alternating Hinv') i).
      * apply map_nth_error. exact Ha.
      * apply map_nth_error. exact Hb.
    + discriminate.
Qed.

(** The general part of C8, for every number type. *)
Lemma calculate_typing_time_run (text : str) (delay : F) :
  leb (of_Z 0) delay = true ->
  calculate_typing_time (PyStr text) delay
  = Ok (if (1 <? supported_count text)%Z
        then mul (of_Z (supported_count text - 1)) delay
        else of_Z 0).
Proof.
  intros Hd. unfold calculate_typing_time. rewrite (nonneg_not_neg _ Hd).
  rewrite py_sum_ones. fold (supported_chars text).
  fold (supported_count text).
  destruct (Z.leb_spec (supported_count text) 1) as [H|H].
  - rewrite (proj2 (Z.ltb_ge _ _) H). reflexivity.
  - rewrite (proj2 (Z.ltb_lt _ _) H). reflexivity.
Qed.
End Segmenter.

(** C8.  With [n] the number of supported characters of the text and a
    non-negative delay, the estimate is [(n - 1) * delay] when [n > 1]
    and [0] otherwise, in every number type; in binary64, with Python's
    case tables: ["Hello"] at 0.1 gives 0.4, ["A"] and the empty text
    give 0. *)
Theorem calculate_typing_time_spec :
  (forall (F : Type) (num : Number F) (U : Unicode) (text : str) (delay : F),
     leb (of_Z 0) delay = true ->
     let n := supported_count text in
     utils.calculate_typing_time (PyStr text) delay
     = Ok (if (1 <? n)%Z then mul (of_Z (n - 1)) delay else of_Z 0))
  /\ utils.calculate_typing_time (PyStr (lit "Hello")) 0.1%float
     = Ok 0.4%float
  /\ utils.calculate_typing_time (PyStr (lit "A")) 0.1%float = Ok 0%float
  /\ utils.calculate_typing_time (PyStr (lit "")) 0.1%float = Ok 0%float.
Proof.
  split; [|repeat split; vm_compute; reflexivity].
  intros F num U text delay Hd. apply calculate_typing_time_run. exact Hd.
Qed.

(* ================================================================= *)
(** ** Properties of the typing profile and of the delays *)

Section Delays.
Context {U : Unicode} {host : Host Q}.
Import utils.
Local Open Scope Q_scope.

Lemma inject_Z_pos z : (0 < z)%Z -> 0 < inject_Z z.
Proof. intros H. unfold Qlt. simpl. lia. Qed.

Lemma chars_per_second_pos wpm :
  (0 < wpm)%Z -> 0 < inject_Z (wpm * 5) / inject_Z 60.
Proof.
  intros H. apply Qlt_shift_div_l; [reflexivity|].
  rewrite Qmult_0_l. apply inject_Z_pos. lia.
Qed.

(** The bounds of a humanized delay, given the offset that is drawn. *)
Lemma humanize_delay_bounds base_delay variance w :
  0 <= base_delay -> 0 <= variance ->
  - variance <= drawn (- variance) variance w <= variance ->
  exists d w',
    humanize_delay base_delay variance w = (Ok d, w')
    /\ max0 (base_delay - variance) <= d <= base_delay + variance
    /\ (variance == 0 -> d == base_delay).
Proof.
  intros Hb Hv Ho.
  rewrite (humanize_delay_run w Hb Hv).
  set (o := drawn (- variance) variance w) in *.
  eexists _, _. split; [reflexivity|].
  destruct (max0_spec (base_delay + o)) as [[Hs ->]|[Hs ->]];
    destruct (max0_spec (base_delay - variance)) as [[Hl ->]|[Hl ->]];
    repeat split; try lra; intros Hz; lra.
Qed.

(** The same, with the offset named as the value of the draw. *)
Lemma humanize_delay_drawn (base_delay variance : Q) (w : World Q) :
  0 <= base_delay -> 0 <= variance ->
  forall (offset : Q) (w1 : World Q),
    random_uniform (- variance) variance w = (Ok offset, w1) ->
    - variance <= offset <= variance ->
    exists (d : Q) (w' : World Q),
      humanize_delay base_delay variance w = (Ok d, w')
      /\ max0 (base_delay - variance) <= d <= base_delay + variance
      /\ (variance == 0 -> d == base_delay).
Proof.
  intros Hb Hv offset w1 Hdraw Ho.
  rewrite random_uniform_run in Hdraw. injection Hdraw as <- _.
  apply humanize_delay_bounds; assumption.
Qed.
End Delays.

Section GenericSchedule.
Context {F : Type} {num : Number F} {U : Unicode} {host : Host F}.
Import utils.

(** In every number type the loop adds one delay for each supported
    character it passes, when it returns. *)
Lemma delay_loop_length text profile delays w ds w' :
  delay_loop text profile delays w = (Ok ds, w') ->
  List.length ds
  = (List.length delays + List.length (supported_chars text))%nat.
Proof.
  revert delays w. induction text as [|c text IH]; intros delays w.
  - cbn [delay_loop]. intros [= <- _]. simpl. lia.
  - cbn [delay_loop]. unfold supported_chars. cbn [filter].
    fold (supported_chars text).
    destruct (_is_char_supported [c]); cbn [negb]; [|apply IH].
    unfold bind at 1. unfold random_random at 1.
    unfold bind at 1, lift at 1.
    destruct (subscript profile "pause_chance") as [p|e]; [|discriminate].
    unfold bind at 1.
    match goal with
    | |- context [match ?m ?w0 with _ => _ end] =>
        destruct (m w0) as [[x|e] w1]
    end; [|discriminate].
    intros H. apply IH in H. rewrite H, length_app. simpl. lia.
Qed.

(** In every number type a schedule that is returned has one delay for
    each supported character. *)
Lemma apply_typing_profile_length text profile w delays w' :
  apply_typing_profile (PyStr text) profile w = (Ok delays, w') ->
  List.length delays = List.length (supported_chars text).
Proof.
  unfold apply_typing_profile. unfold bind at 1, lift at 1.
  destruct (check_keys required_keys profile); [|discriminate].
  intros H. apply delay_loop_length in H. exact H.
Qed.
Lemma subscript_contains (profile : profile_dict F) key v :
  subscript profile key = Ok v ->
  dict_contains String.eqb profile key = true.
Proof.
  unfold subscript, dict_contains.
  destruct (dict_get String.eqb profile key); [reflexivity | discriminate].
Qed.

Lemma check_keys_fields (profile : profile_dict F) b v p d :
  profile_fields profile b v p d ->
  check_keys required_keys profile = Ok tt.
Proof.
  intros [Hb [Hv [Hp Hd]]]. unfold required_keys. cbn [check_keys].
  rewrite (subscript_contains _ _ Hb), (subscript_contains _ _ Hv),
    (subscript_contains _ _ Hp), (subscript_contains _ _ Hd).
  reflexivity.
Qed.

(** A schedule all of whose delays have the property [P]: the pause has
    it, and so has every humanized delay. *)
Lemma delay_loop_all (P : F -> Prop) text (profile : profile_dict F)
  b v p d delays w :
  profile_fields profile b v p d ->
  P d ->
  (forall w0, exists x w1, humanize_delay b v w0 = (Ok x, w1) /\ P x) ->
  exists ds w',
    delay_loop text profile delays w = (Ok (delays ++ ds), w')
    /\ List.length ds = List.length (supported_chars text)
    /\ Forall P ds.
Proof.
  intros Hf Hd Hh. destruct Hf as [Fb [Fv [Fp Fd]]].
  revert delays w. induction text as [|c text IH]; intros delays w.
  - exists [], w. rewrite app_nil_r. repeat split. constructor.
  - cbn [delay_loop]. unfold supported_chars. cbn [filter].
    fold (supported_chars text).
    destruct (_is_char_supported [c]); cbn [negb]; [|apply IH].
    unfold bind at 1. unfold random_random at 1.
    rewrite Fp. unfold bind at 1, lift at 1.
    set (w1 := {| events := events w; draws := S (draws w) |}).
    destruct (ltb (random_stream (draws w)) p).
    + rewrite Fd. unfold bind at 1, lift at 1.
      destruct (IH (delays ++ [d]) w1) as [ds [w' [Hrun [Hlen Hall]]]].
      exists (d :: ds), w'. rewrite Hrun, <- app_assoc.
      repeat split; [simpl; congruence | constructor; assumption].
    + rewrite Fb, Fv.
      destruct (Hh w1) as [x [w2 [Hx HP]]].
      unfold bind at 1. unfold bind at 1, lift at 1.
      unfold bind at 1, lift at 1. rewrite Hx.
      destruct (IH (delays ++ [x]) w2) as [ds [w' [Hrun [Hlen Hall]]]].
      exists (x :: ds), w'. rewrite Hrun, <- app_assoc.
      repeat split; [simpl; congruence | constructor; assumption].
Qed.

Lemma apply_typing_profile_all (P : F -> Prop) text
  (profile : profile_dict F) b v p d w :
  profile_fields profile b v p d ->
  P d ->
  (forall w0, exists x w1, humanize_delay b v w0 = (Ok x, w1) /\ P x) ->
  exists delays w',
    apply_typing_profile (PyStr text) profile w = (Ok delays, w')
    /\ List.length delays = List.length (supported_chars text)
    /\ Forall P delays.
Proof.
  intros Hf Hd Hh. unfold apply_typing_profile.
  rewrite (check_keys_fields Hf). unfold bind at 1, lift at 1.
  exact (@delay_loop_all P text profile b v p d [] w Hf Hd Hh).
Qed.
End GenericSchedule.

Section Schedule.
Context {U : Unicode} {host : Host Q}.
Import utils.
Local Open Scope Q_scope.

Lemma humanize_delay_positive base_delay variance w :
  0 <= variance -> variance < base_delay ->
  0 <= random_stream (draws w) <= 1 ->
  exists d w',
    humanize_delay base_delay variance w = (Ok d, w') /\ 0 < d.
Proof.
  intros Hv Hb Hr.
  assert (Hb0 : 0 <= base_delay) by lra.
  rewrite (humanize_delay_run w Hb0 Hv).
  pose proof (drawn_range w Hv Hr) as Ho.
  set (o := drawn (- variance) variance w) in *.
  eexists _, _. split; [reflexivity|].
  destruct (max0_spec (base_delay + o)) as [[Hs ->]|[Hs ->]]; lra.
Qed.

(** The schedule of a profile with positive delays. *)
Lemma apply_typing_profile_run
  (text : str) (profile : profile_dict Q) (w : World Q)
  (base_delay variance pause_chance pause_duration : Q) :
  profile_fields profile base_delay variance pause_chance pause_duration ->
  0 <= variance -> variance < base_delay -> 0 < pause_duration ->
  unit_draws ->
  exists (delays : list Q) (w' : World Q),
    apply_typing_profile (PyStr text) profile w = (Ok delays, w')
    /\ List.length delays = List.length (supported_chars text)
    /\ Forall (fun delay => 0 < delay) delays.
Proof.
  intros Hf Hv Hb Hd Hr.
  apply (@apply_typing_profile_all Q _ U host (fun delay => 0 < delay)
           text profile base_delay variance pause_chance pause_duration
           w Hf Hd).
  intros w0. apply humanize_delay_positive; [exact Hv | exact Hb | apply Hr].
Qed.

(** The profiles of [create_typing_profile] meet these conditions. *)
Lemma create_typing_profile_fields wpm :
  (0 < wpm)%Z ->
  exists profile b v p d,
    create_typing_profile (F:=Q) wpm = Ok profile
    /\ profile_fields (numbers profile) b v p d
    /\ 0 <= v /\ v < b /\ 0 < d.
Proof.
  intros H. unfold create_typing_profile.
  rewrite (proj2 (Z.leb_gt _ _) H).
  change (int_truediv (wpm * 5) 60)
    with (Ok (inject_Z (wpm * 5) / inject_Z 60)). cbn [rbind].
  unfold float_truediv. cbn [eqb of_Z div mul Q_number].
  assert (Hcps := chars_per_second_pos H).
  destruct (Qeq_bool (inject_Z (wpm * 5) / inject_Z 60) (inject_Z 0)) eqn:E.
  { apply Qeq_bool_iff in E. rewrite E in Hcps. discriminate. }
  cbn [rbind]. do 5 eexists. split; [reflexivity|].
  split; [repeat split|].
  assert (Hb : 0 < inject_Z 1 / (inject_Z (wpm * 5) / inject_Z 60)).
  { apply Qlt_shift_div_l; [exact Hcps|]. rewrite Qmult_0_l. reflexivity. }
  set (b := inject_Z 1 / (inject_Z (wpm * 5) / inject_Z 60)) in *.
  assert (H2 : decimal_lit (F:=Q) 2 10 == 0.2) by reflexivity.
  assert (H3 : decimal_lit (F:=Q) 3 10 == 0.3) by reflexivity.
  assert (H4 : decimal_lit (F:=Q) 4 10 == 0.4) by reflexivity.
  assert (H1 : inject_Z 3 == 3) by reflexivity.
  destruct (wpm >=? 80)%Z; [|destruct (wpm >=? 40)%Z];
    rewrite ?H2, ?H3, ?H4, H1; repeat split; nra.
Qed.
End Schedule.

(* ================================================================= *)
(** ** Rounding in binary64

    The library's addition rounds the exact sum of the units to the
    nearest value of the format; rounding is monotone, and comparison of
    numbers is comparison of values. *)

Unset Implicit Arguments.

Lemma shr_1_nonneg m r s :
  0 <= m ->
  shr_1 {| shr_m := m; shr_r := r; shr_s := s |}
  = {| shr_m := m / 2; shr_r := Z.odd m; shr_s := r || s |}.
Proof.
  intros Hm. unfold shr_1.
  destruct m as [|p|p]; [reflexivity| |lia].
  destruct p as [p|p|]; try reflexivity.
  - f_equal. rewrite Pos2Z.inj_xI.
    apply Z.div_unique with (r := 1); lia.
  - f_equal. rewrite Pos2Z.inj_xO.
    apply Z.div_unique with (r := 0); lia.
Qed.

Lemma shr_1_shr_by a k :
  0 <= a -> 0 <= k -> shr_1 (shr_by a k) = shr_by a (k + 1).
Proof.
  intros Ha Hk. unfold shr_by.
  rewrite shr_1_nonneg by (apply Z.div_pos; [lia | apply Z.pow_pos_nonneg; lia]).
  assert (H1 : (0 <? k + 1) = true) by (apply Z.ltb_lt; lia).
  rewrite H1. replace (k + 1 - 1) with k by lia. cbn [andb].
  f_equal.
  - rewrite Z.pow_add_r, Z.pow_1_r by lia.
    rewrite Z.div_div by (try apply Z.pow_pos_nonneg; lia). reflexivity.
  - destruct (Z.ltb_spec 0 k) as [Hpos|Hz]; cbn [andb].
    + (* k >= 1 *)
      replace k with ((k - 1) + 1) at 3 by lia.
      rewrite Z.pow_add_r, Z.pow_1_r by lia.
      set (h := 2 ^ (k - 1)).
      assert (Hh : 0 < h) by (apply Z.pow_pos_nonneg; lia).
      rewrite Z.rem_mul_r by lia. rewrite Zmod_odd.
      assert (0 <= a mod h < h) by (apply Z.mod_pos_bound; lia).
      destruct (Z.odd (a / h)); cbn [orb].
      * symmetry. apply negb_true_iff, Z.eqb_neq. lia.
      * rewrite Z.mul_0_r, Z.add_0_r. reflexivity.
    + assert (k = 0) by lia. subst k. simpl.
      rewrite Z.mod_1_r. reflexivity.
Qed.

Lemma iter_pos_shr_1 p a k :
  0 <= a -> 0 <= k ->
  iter_pos shr_1 p (shr_by a k) = shr_by a (k + Z.pos p).
Proof.
  intros Ha. revert k.
  induction p as [p IH|p IH|]; intros k Hk; cbn [iter_pos].
  - rewrite shr_1_shr_by, IH, IH by lia. f_equal. lia.
  - rewrite IH, IH by lia. f_equal. lia.
  - apply shr_1_shr_by; assumption.
Qed.

Lemma rne_0 a : rne a 0 = a.
Proof.
  unfold rne. rewrite Z.pow_0_r, Z.div_1_r, Z.mod_1_r. reflexivity.
Qed.

Lemma round_shr_by a k :
  0 <= a -> 0 <= k ->
  round_nearest_even (shr_m (shr_by a k)) (loc_of_shr_record (shr_by a k))
  = rne a k.
Proof.
  intros Ha Hk. destruct (Z.eq_dec k 0) as [->|Hk0].
  - rewrite rne_0. unfold shr_by. simpl. rewrite Z.div_1_r. reflexivity.
  - unfold shr_by, rne.
    assert (H1 : (0 <? k) = true) by (apply Z.ltb_lt; lia).
    rewrite H1. cbn [andb shr_m loc_of_shr_record].
    set (h := 2 ^ (k - 1)).
    assert (Hh : 0 < h) by (apply Z.pow_pos_nonneg; lia).
    assert (Hp : 2 ^ k = h * 2).
    { unfold h. replace k with ((k - 1) + 1) at 1 by lia.
      rewrite Z.pow_add_r, Z.pow_1_r by lia. reflexivity. }
    rewrite Hp.
    assert (Hq : a / (h * 2) = a / h / 2)
      by (rewrite Z.div_div by lia; reflexivity).
    assert (Hr : a mod (h * 2) = a mod h + h * ((a / h) mod 2))
      by (apply Z.rem_mul_r; lia).
    rewrite Hr, Zmod_odd.
    assert (Hb : 0 <= a mod h < h) by (apply Z.mod_pos_bound; lia).
    destruct (Z.odd (a / h)) eqn:Eo;
      destruct (Z.eqb_spec (a mod h) 0) as [E|E]; cbn [negb].
    + replace (2 * (a mod h + h * 1) ?= h * 2) with Eq
        by (symmetry; apply Z.compare_eq_iff; lia).
      reflexivity.
    + replace (2 * (a mod h + h * 1) ?= h * 2) with Gt
        by (symmetry; apply Z.compare_gt_iff; lia).
      reflexivity.
    + replace (2 * (a mod h + h * 0) ?= h * 2) with Lt
        by (symmetry; apply Z.compare_lt_iff; lia).
      reflexivity.
    + replace (2 * (a mod h + h * 0) ?= h * 2) with Lt
        by (symmetry; apply Z.compare_lt_iff; lia).
      reflexivity.
Qed.

(** Rounding stays between the multiples of [2 ^ k] around [a]. *)
Lemma rne_bounds a k :
  0 <= k -> a / 2 ^ k <= rne a k <= a / 2 ^ k + 1.
Proof.
  intros Hk. unfold rne.
  destruct (2 * (a mod 2 ^ k) ?= 2 ^ k); [destruct (Z.even _)| |]; lia.
Qed.

Lemma rne_exact a k : 0 <= k -> rne (a * 2 ^ k) k = a.
Proof.
  intros Hk. unfold rne.
  assert (Hp : 0 < 2 ^ k) by (apply Z.pow_pos_nonneg; lia).
  rewrite Z.div_mul, Z.mod_mul by lia.
  replace (2 * 0 ?= 2 ^ k) with Lt
    by (symmetry; apply Z.compare_lt_iff; lia).
  reflexivity.
Qed.

Lemma rne_le_grid a k g : 0 <= k -> a <= g * 2 ^ k -> rne a k <= g.
Proof.
  intros Hk Ha.
  assert (Hp : 0 < 2 ^ k) by (apply Z.pow_pos_nonneg; lia).
  pose proof (Z.div_mod a (2 ^ k) ltac:(lia)) as Hdm.
  pose proof (Z.mod_pos_bound a (2 ^ k) Hp) as Hb.
  unfold rne.
  destruct (Z.compare_spec (2 * (a mod 2 ^ k)) (2 ^ k)) as [E|E|E];
    [destruct (Z.even _)| |]; nia.
Qed.

Lemma rne_ge_grid a k g : 0 <= k -> g * 2 ^ k <= a -> g <= rne a k.
Proof.
  intros Hk Ha.
  assert (Hp : 0 < 2 ^ k) by (apply Z.pow_pos_nonneg; lia).
  pose proof (Z.div_mod a (2 ^ k) ltac:(lia)) as Hdm.
  pose proof (Z.mod_pos_bound a (2 ^ k) Hp) as Hb.
  unfold rne.
  destruct (Z.compare_spec (2 * (a mod 2 ^ k)) (2 ^ k)) as [E|E|E];
    [destruct (Z.even _)| |]; nia.
Qed.

Lemma rne_mono a b k : 0 <= k -> a <= b -> rne a k <= rne b k.
Proof.
  intros Hk Hab.
  assert (Hp : 0 < 2 ^ k) by (apply Z.pow_pos_nonneg; lia).
  pose proof (Z.div_mod a (2 ^ k) ltac:(lia)) as Hda.
  pose proof (Z.div_mod b (2 ^ k) ltac:(lia)) as Hdb.
  pose proof (Z.mod_pos_bound a (2 ^ k) Hp) as Hba.
  pose proof (Z.mod_pos_bound b (2 ^ k) Hp) as Hbb.
  assert (Hq : a / 2 ^ k <= b / 2 ^ k) by (apply Z.div_le_mono; lia).
  destruct (Z.eq_dec (a / 2 ^ k) (b / 2 ^ k)) as [E|E].
  - unfold rne. rewrite <- E.
    assert (Hr : a mod 2 ^ k <= b mod 2 ^ k) by nia.
    destruct (Z.compare_spec (2 * (a mod 2 ^ k)) (2 ^ k)) as [Ea|Ea|Ea];
      destruct (Z.compare_spec (2 * (b mod 2 ^ k)) (2 ^ k)) as [Eb|Eb|Eb];
      try destruct (Z.even _); lia.
  - pose proof (rne_bounds a k Hk). pose proof (rne_bounds b k Hk). lia.
Qed.

(** Rounding does not depend on trailing zeros. *)
Lemma rne_scale a j k :
  0 <= j -> 0 <= k -> rne (a * 2 ^ j) (k + j) = rne a k.
Proof.
  intros Hj Hk.
  assert (Hpj : 0 < 2 ^ j) by (apply Z.pow_pos_nonneg; lia).
  assert (Hpk : 0 < 2 ^ k) by (apply Z.pow_pos_nonneg; lia).
  unfold rne. rewrite Z.pow_add_r by lia.
  rewrite Z.div_mul_cancel_r by lia.
  rewrite Z.mul_mod_distr_r by lia.
  replace (2 * (a mod 2 ^ k * 2 ^ j) ?= 2 ^ k * 2 ^ j)
    with (2 * (a mod 2 ^ k) ?= 2 ^ k); [reflexivity|].
  destruct (Z.compare_spec (2 * (a mod 2 ^ k)) (2 ^ k)) as [E|E|E]; symmetry.
  - apply Z.compare_eq_iff. nia.
  - apply Z.compare_lt_iff. nia.
  - apply Z.compare_gt_iff. nia.
Qed.

(** *** Digits *)

Lemma digits2_bounds p :
  2 ^ (Z.pos (digits2_pos p) - 1) <= Z.pos p < 2 ^ Z.pos (digits2_pos p).
Proof.
  induction p as [p IH|p IH|]; cbn [digits2_pos].
  - rewrite Pos2Z.inj_succ. replace (Z.succ (Z.pos (digits2_pos p)) - 1)
      with ((Z.pos (digits2_pos p) - 1) + 1) by lia.
    rewrite Z.pow_succ_r, Z.pow_add_r, Z.pow_1_r by lia. lia.
  - rewrite Pos2Z.inj_succ. replace (Z.succ (Z.pos (digits2_pos p)) - 1)
      with ((Z.pos (digits2_pos p) - 1) + 1) by lia.
    rewrite Z.pow_succ_r, Z.pow_add_r, Z.pow_1_r by lia. lia.
  - simpl. lia.
Qed.

Lemma digits_bounds z :
  0 < z -> 2 ^ (Zdigits2 z - 1) <= z < 2 ^ Zdigits2 z.
Proof.
  destruct z as [|p|p]; try lia. intros _. apply digits2_bounds.
Qed.

Lemma digits_pos z : 0 < z -> 0 < Zdigits2 z.
Proof. destruct z; simpl; lia. Qed.

Lemma digits_unique z k :
  2 ^ (k - 1) <= z < 2 ^ k -> 0 < k -> Zdigits2 z = k.
Proof.
  intros [Hl Hu] Hk.
  assert (Hz : 0 < z).
  { assert (0 < 2 ^ (k - 1)) by (apply Z.pow_pos_nonneg; lia). lia. }
  pose proof (digits_bounds z Hz) as [Hl' Hu'].
  pose proof (digits_pos z Hz) as Hd.
  destruct (Z.lt_trichotomy (Zdigits2 z) k) as [H|[H|H]]; [|exact H|].
  - assert (2 ^ Zdigits2 z <= 2 ^ (k - 1))
      by (apply Z.pow_le_mono_r; lia). lia.
  - assert (2 ^ k <= 2 ^ (Zdigits2 z - 1))
      by (apply Z.pow_le_mono_r; lia). lia.
Qed.

Lemma digits_shift z j :
  0 < z -> 0 <= j -> Zdigits2 (z * 2 ^ j) = Zdigits2 z + j.
Proof.
  intros Hz Hj. pose proof (digits_bounds z Hz) as [Hl Hu].
  pose proof (digits_pos z Hz) as Hd.
  assert (Hp : 0 < 2 ^ j) by (apply Z.pow_pos_nonneg; lia).
  apply digits_unique; [|lia]. split.
  - replace (Zdigits2 z + j - 1) with ((Zdigits2 z - 1) + j) by lia.
    rewrite Z.pow_add_r by lia. nia.
  - rewrite Z.pow_add_r by lia. nia.
Qed.

Lemma digits_mono a b : 0 < a -> a <= b -> Zdigits2 a <= Zdigits2 b.
Proof.
  intros Ha Hab.
  pose proof (digits_bounds a Ha) as [Hla Hua].
  pose proof (digits_bounds b ltac:(lia)) as [Hlb Hub].
  destruct (Z.le_gt_cases (Zdigits2 a) (Zdigits2 b)) as [H|H]; [exact H|].
  assert (2 ^ Zdigits2 b <= 2 ^ (Zdigits2 a - 1)).
  { apply Z.pow_le_mono_r; [lia|]. lia. }
  lia.
Qed.

Lemma iter_xO m d : Z.pos (Pos.iter xO m d) = Z.pos m * 2 ^ Z.pos d.
Proof.
  induction d as [|d IH] using Pos.peano_ind.
  - simpl. lia.
  - rewrite Pos.iter_succ, Pos2Z.inj_xO, IH, Pos2Z.inj_succ.
    rewrite Z.pow_succ_r by lia. lia.
Qed.

(** *** The exponent function of binary64 *)

Lemma fexp_fexp64 e : fexp prec emax e = fexp64 e.
Proof. reflexivity. Qed.

Lemma shr_by_0 a : shr_by a 0 = {| shr_m := a; shr_r := false; shr_s := false |}.
Proof. unfold shr_by. simpl. rewrite Z.div_1_r. reflexivity. Qed.

Lemma shr_shr_by a e n :
  0 <= a -> 0 <= n ->
  shr {| shr_m := a; shr_r := false; shr_s := false |} e n
  = (shr_by a n, e + n).
Proof.
  intros Ha Hn. rewrite <- shr_by_0. unfold shr.
  destruct n as [|p|p]; [|rewrite iter_pos_shr_1|]; try lia.
  - rewrite Z.add_0_r. reflexivity.
  - reflexivity.
Qed.

Lemma shr_fexp_exact m e :
  0 <= m -> 0 <= fexp64 (Zdigits2 m + e) - e ->
  shr_fexp prec emax m e loc_Exact
  = (shr_by m (fexp64 (Zdigits2 m + e) - e), fexp64 (Zdigits2 m + e)).
Proof.
  intros Hm Hn. unfold shr_fexp. rewrite fexp_fexp64.
  cbn [shr_record_of_loc]. rewrite shr_shr_by by assumption.
  f_equal. lia.
Qed.

(** A mantissa that already has the exponent of its rounding. *)
Lemma binary_round_aux_fit s p e :
  fexp64 (Z.pos (digits2_pos p) + e) = e ->
  binary_round_aux prec emax s (Z.pos p) e loc_Exact = finite_or_inf s (Z.pos p) e.
Proof.
  intros He. unfold binary_round_aux.
  rewrite shr_fexp_exact by (cbn [Zdigits2]; lia).
  cbn [Zdigits2]. rewrite He, Z.sub_diag.
  rewrite round_shr_by, rne_0 by lia.
  rewrite shr_fexp_exact by (cbn [Zdigits2]; lia).
  cbn [Zdigits2]. rewrite He, Z.sub_diag, shr_by_0. cbn [shr_m].
  unfold finite_or_inf. reflexivity.
Qed.

(** A mantissa with too many bits: it is shifted right, rounded, and
    shifted once more when the rounding carries. *)
Lemma binary_round_aux_round s p e :
  -1074 <= e -> e < fexp64 (Z.pos (digits2_pos p) + e) ->
  binary_round_aux prec emax s (Z.pos p) e loc_Exact
  = let fe := fexp64 (Z.pos (digits2_pos p) + e) in
    let m2 := rne (Z.pos p) (fe - e) in
    if m2 =? 2 ^ 53 then finite_or_inf s (2 ^ 52) (fe + 1) else finite_or_inf s m2 fe.
Proof.
  intros He Hfe. cbv zeta.
  set (fe := fexp64 (Z.pos (digits2_pos p) + e)) in *.
  set (n := fe - e).
  assert (Hn : 0 < n) by (unfold n; lia).
  assert (Hd : Z.pos (digits2_pos p) = n + 53).
  { unfold n, fe, fexp64 in *. lia. }
  pose proof (digits2_bounds p) as [Hl Hu]. rewrite Hd in Hl, Hu.
  replace (n + 53 - 1) with (52 + n) in Hl by lia.
  replace (n + 53) with (53 + n) in Hu by lia.
  rewrite Z.pow_add_r in Hl, Hu by lia.
  assert (Hm2l : 2 ^ 52 <= rne (Z.pos p) n)
    by (apply rne_ge_grid; lia).
  assert (Hm2u : rne (Z.pos p) n <= 2 ^ 53)
    by (apply rne_le_grid; lia).
  unfold binary_round_aux.
  rewrite shr_fexp_exact by (cbn [Zdigits2]; fold fe; lia).
  cbn [Zdigits2]. fold fe. fold n.
  rewrite round_shr_by by lia.
  set (m2 := rne (Z.pos p) n) in *.
  destruct (Z.eqb_spec m2 (2 ^ 53)) as [E|E].
  - rewrite E.
    assert (Hfe1 : fexp64 (Zdigits2 (2 ^ 53) + fe) = fe + 1).
    { change (Zdigits2 (2 ^ 53)) with 54. unfold fexp64. lia. }
    rewrite shr_fexp_exact by (try rewrite Hfe1; lia).
    rewrite Hfe1. replace (fe + 1 - fe) with 1 by lia.
    change (shr_m (shr_by (2 ^ 53) 1)) with (2 ^ 52).
    unfold finite_or_inf. reflexivity.
  - assert (Hdig : Zdigits2 m2 = 53)
      by (apply digits_unique; [change (2 ^ (53 - 1)) with (2 ^ 52)|]; lia).
    assert (Hfe0 : fexp64 (Zdigits2 m2 + fe) = fe).
    { rewrite Hdig. unfold fexp64. unfold fe, fexp64 in *. lia. }
    rewrite shr_fexp_exact by (try rewrite Hfe0; lia).
    rewrite Hfe0, Z.sub_diag, shr_by_0. cbn [shr_m].
    assert (Hpos : 0 < m2) by lia.
    unfold finite_or_inf. destruct m2 as [|q|q]; try lia. reflexivity.
Qed.

(** [binary_round] rounds the magnitude. *)
Lemma binary_round_mag s m e :
  -1074 <= e ->
  binary_round prec emax s m e = round_mag s (Z.pos m) e.
Proof.
  intros He. unfold binary_round, round_mag. rewrite fexp_fexp64.
  cbn [Zdigits2].
  set (fe := fexp64 (Z.pos (digits2_pos m) + e)).
  unfold shl_align.
  destruct (Z.leb_spec fe e) as [Hle|Hgt].
  - destruct (fe - e) as [|d|d] eqn:Ed; try lia.
    + assert (fe = e) by lia.
      replace (e - fe) with 0 by lia. rewrite Z.mul_1_r.
      rewrite binary_round_aux_fit by (fold fe; lia).
      congruence.
    + assert (Hd : e - fe = Z.pos d) by lia. rewrite Hd.
      rewrite <- iter_xO.
      apply binary_round_aux_fit.
      pose proof (iter_xO m d) as Hi.
      assert (Hdig : Z.pos (digits2_pos (Pos.iter xO m d))
                     = Z.pos (digits2_pos m) + Z.pos d).
      { change (Zdigits2 (Z.pos (Pos.iter xO m d))
                = Zdigits2 (Z.pos m) + Z.pos d).
        rewrite Hi. apply digits_shift; lia. }
      rewrite Hdig. replace (Z.pos (digits2_pos m) + Z.pos d + fe)
        with (Z.pos (digits2_pos m) + e) by lia.
      reflexivity.
  - destruct (fe - e) as [|d|d] eqn:Ed; try lia.
    rewrite binary_round_aux_round by (fold fe; lia).
    cbv zeta. fold fe. rewrite <- Ed. reflexivity.
Qed.

(** *** Values *)

Lemma canonical_facts m e :
  canonical_mantissa prec emax m e = true ->
  -1074 <= e /\ Z.pos (digits2_pos m) <= 53
  /\ (-1074 < e -> Z.pos (digits2_pos m) = 53).
Proof.
  unfold canonical_mantissa. rewrite fexp_fexp64. intros H.
  apply Z.eqb_eq in H. unfold fexp64 in H. lia.
Qed.

Lemma valid_facts s m e :
  valid_binary (S754_finite s m e) = true ->
  -1074 <= e <= 971 /\ Z.pos (digits2_pos m) <= 53
  /\ (-1074 < e -> Z.pos (digits2_pos m) = 53).
Proof.
  cbn [SpecFloat.valid_binary]. unfold bounded. intros H.
  apply andb_true_iff in H as [Hc Hb].
  apply canonical_facts in Hc. apply Z.leb_le in Hb.
  change (emax - prec) with 971 in Hb. lia.
Qed.

(** Units of a canonical number: bounds by the exponent. *)
Lemma units_bounds m e :
  canonical_mantissa prec emax m e = true ->
  (-1074 < e -> 2 ^ (52 + (e + 1074)) <= Z.pos m * 2 ^ (e + 1074))
  /\ Z.pos m * 2 ^ (e + 1074) < 2 ^ (53 + (e + 1074)).
Proof.
  intros H. apply canonical_facts in H as [He [Hd Hn]].
  pose proof (digits2_bounds m) as [Hl Hu].
  assert (Hp : 0 < 2 ^ (e + 1074)) by (apply Z.pow_pos_nonneg; lia).
  split.
  - intros Hlt. rewrite (Hn Hlt) in Hl. change (53 - 1) with 52 in Hl.
    rewrite (Z.pow_add_r 2 52 (e + 1074)) by lia. nia.
  - rewrite (Z.pow_add_r 2 53 (e + 1074)) by lia.
    assert (2 ^ Z.pos (digits2_pos m) <= 2 ^ 53)
      by (apply Z.pow_le_mono_r; lia).
    nia.
Qed.

Lemma units_lt m1 e1 m2 e2 :
  canonical_mantissa prec emax m1 e1 = true ->
  canonical_mantissa prec emax m2 e2 = true ->
  e1 < e2 ->
  Z.pos m1 * 2 ^ (e1 + 1074) < Z.pos m2 * 2 ^ (e2 + 1074).
Proof.
  intros H1 H2 Hlt.
  pose proof (canonical_facts _ _ H1) as [He1 _].
  pose proof (units_bounds _ _ H1) as [_ Hu1].
  pose proof (units_bounds _ _ H2) as [Hl2 _].
  specialize (Hl2 ltac:(lia)).
  assert (2 ^ (53 + (e1 + 1074)) <= 2 ^ (52 + (e2 + 1074)))
    by (apply Z.pow_le_mono_r; lia).
  lia.
Qed.

Lemma compare_cont_Eq p q : Pos.compare_cont Eq p q = (Z.pos p ?= Z.pos q).
Proof. reflexivity. Qed.

(** Comparison of valid numbers is comparison of values. *)
Lemma SFcompare_value x y :
  valid_binary x = true -> valid_binary y = true ->
  SFcompare x y
  = match SFvalue x, SFvalue y with
    | Some a, Some b => Some (xcompare a b)
    | _, _ => None
    end.
Proof.
  intros Hx Hy.
  destruct x as [sx|sx| |sx mx ex]; destruct y as [sy|sy| |sy my ey];
    cbn [SFcompare SFvalue xcompare]; try reflexivity;
    try (destruct sx; reflexivity); try (destruct sy; reflexivity);
    try (destruct sx, sy; reflexivity).
  - (* zero, finite *)
    unfold units. destruct sy; cbn [cond_Zopp]; f_equal; symmetry;
      assert (0 < 2 ^ (ey + 1074))
        by (apply Z.pow_pos_nonneg; [lia|];
            apply valid_facts in Hy; lia).
    + apply Z.compare_gt_iff. nia.
    + apply Z.compare_lt_iff. nia.
  - (* finite, zero *)
    unfold units. destruct sx; cbn [cond_Zopp]; f_equal; symmetry;
      assert (0 < 2 ^ (ex + 1074))
        by (apply Z.pow_pos_nonneg; [lia|];
            apply valid_facts in Hx; lia).
    + apply Z.compare_lt_iff. nia.
    + apply Z.compare_gt_iff. nia.
  - (* finite, finite *)
    pose proof (valid_facts _ _ _ Hx) as [Hex _].
    pose proof (valid_facts _ _ _ Hy) as [Hey _].
    cbn [SpecFloat.valid_binary] in Hx, Hy. unfold bounded in Hx, Hy.
    apply andb_true_iff in Hx as [Hcx _].
    apply andb_true_iff in Hy as [Hcy _].
    assert (Hpx : 0 < 2 ^ (ex + 1074)) by (apply Z.pow_pos_nonneg; lia).
    assert (Hpy : 0 < 2 ^ (ey + 1074)) by (apply Z.pow_pos_nonneg; lia).
    f_equal. unfold units.
    destruct sx, sy; cbn [cond_Zopp].
    + (* both negative *)
      destruct (Z.compare_spec ex ey) as [E|E|E].
      * subst ey. rewrite compare_cont_Eq. symmetry.
        rewrite Z.compare_opp.
        rewrite <- Zmult_compare_compat_r by lia.
        apply Z.compare_antisym.
      * symmetry. apply Z.compare_gt_iff.
        pose proof (units_lt _ _ _ _ Hcx Hcy E). lia.
      * symmetry. apply Z.compare_lt_iff.
        pose proof (units_lt _ _ _ _ Hcy Hcx E). lia.
    + symmetry. apply Z.compare_lt_iff. nia.
    + symmetry. apply Z.compare_gt_iff. nia.
    + destruct (Z.compare_spec ex ey) as [E|E|E].
      * subst ey. rewrite compare_cont_Eq.
        apply Zmult_compare_compat_r. lia.
      * symmetry. apply Z.compare_lt_iff. apply units_lt; assumption.
      * symmetry. apply Z.compare_gt_iff. apply units_lt; assumption.
Qed.

(** *** Rounding in units *)

Lemma SFvalue_finite_or_inf s m e :
  0 < m ->
  SFvalue (finite_or_inf s m e)
  = Some (if e <=? 971 then Fin (cond_Zopp s (m * 2 ^ (e + 1074)))
          else infinity_of s).
Proof.
  intros Hm. unfold finite_or_inf. destruct (e <=? 971); [|destruct s; reflexivity].
  cbn [SFvalue]. unfold units. rewrite Z2Pos.id by lia. reflexivity.
Qed.

Lemma pow2_split a b : 0 <= a -> 0 <= b -> 2 ^ a * 2 ^ b = 2 ^ (a + b).
Proof. intros. symmetry. apply Z.pow_add_r; assumption. Qed.

Lemma SFvalue_round_mag s z e :
  0 < z -> -1074 <= e <= 971 ->
  SFvalue (round_mag s z e) = Some (nearest_mag s (z * 2 ^ (e + 1074))).
Proof.
  intros Hz He. unfold round_mag, nearest_mag, keep53.
  set (j := e + 1074). assert (Hj : 0 <= j) by (unfold j; lia).
  assert (Hpj : 0 < 2 ^ j) by (apply Z.pow_pos_nonneg; lia).
  rewrite digits_shift by lia.
  pose proof (digits_pos z Hz) as Hd.
  pose proof (digits_bounds z Hz) as [Hl Hu].
  set (d := Zdigits2 z) in *.
  unfold fexp64.
  destruct (Z.leb_spec (Z.max (d + e - 53) (-1074)) e) as [Hle|Hgt].
  - (* the mantissa fits *)
    assert (Hd53 : d <= 53) by lia.
    set (fe := Z.max (d + e - 53) (-1074)) in *.
    set (n := Z.max (d + j - 53) 0).
    assert (Hn : 0 <= n <= j) by (unfold n, j; lia).
    assert (Hzn : z * 2 ^ j = z * 2 ^ (j - n) * 2 ^ n).
    { rewrite <- Z.mul_assoc, pow2_split by lia. do 2 f_equal. lia. }
    assert (Hr : rne (z * 2 ^ j) n * 2 ^ n = z * 2 ^ j).
    { rewrite Hzn at 1. rewrite rne_exact by lia. symmetry. exact Hzn. }
    rewrite Hr.
    rewrite SFvalue_finite_or_inf by (apply Z.mul_pos_pos; [lia | apply Z.pow_pos_nonneg; lia]).
    assert (Hfe : fe <= 971) by lia.
    rewrite (proj2 (Z.leb_le _ _) Hfe).
    assert (Hval : z * 2 ^ (e - fe) * 2 ^ (fe + 1074) = z * 2 ^ j).
    { rewrite <- Z.mul_assoc, pow2_split by (unfold fe; lia).
      do 2 f_equal. unfold j; lia. }
    rewrite Hval.
    assert (Hlt : z * 2 ^ j < 2 ^ 2098).
    { assert (H1 : 2 ^ d <= 2 ^ 53) by (apply Z.pow_le_mono_r; lia).
      apply Z.lt_le_trans with (2 ^ 53 * 2 ^ j).
      - apply Z.mul_lt_mono_pos_r; lia.
      - rewrite pow2_split by lia.
        apply Z.pow_le_mono_r; unfold j; lia. }
    rewrite (proj2 (Z.ltb_lt _ _) Hlt). reflexivity.
  - (* the mantissa is rounded *)
    assert (Hd53 : 53 < d) by lia.
    replace (Z.max (d + e - 53) (-1074)) with (d + e - 53) by lia.
    replace (Z.max (d + j - 53) 0) with ((d - 53) + j) by (unfold j; lia).
    replace (d + e - 53 - e) with (d - 53) by lia.
    rewrite rne_scale by lia.
    set (n := d - 53) in *. set (m2 := rne z n).
    assert (Hm2l : 2 ^ 52 <= m2).
    { apply rne_ge_grid; [lia|]. rewrite pow2_split by lia.
      replace (52 + n) with (d - 1) by (unfold n; lia). exact Hl. }
    assert (Hm2u : m2 <= 2 ^ 53).
    { apply rne_le_grid; [lia|]. rewrite pow2_split by lia.
      replace (53 + n) with d by (unfold n; lia). lia. }
    set (fe := d + e - 53).
    replace (n + j) with (fe + 1074) by (unfold n, fe, j; lia).
    assert (Hfe : 0 <= fe + 1074) by (unfold fe; lia).
    assert (HP : 0 < 2 ^ (fe + 1074)) by (apply Z.pow_pos_nonneg; lia).
    destruct (Z.eqb_spec m2 (2 ^ 53)) as [E|E].
    + rewrite SFvalue_finite_or_inf by (apply Z.pow_pos_nonneg; lia).
      rewrite E.
      rewrite !pow2_split by lia.
      replace (52 + (fe + 1 + 1074)) with (53 + (fe + 1074)) by lia.
      destruct (Z.leb_spec (fe + 1) 971) as [H1|H1].
      * assert (H : 2 ^ (53 + (fe + 1074)) < 2 ^ 2098)
          by (apply Z.pow_lt_mono_r; lia).
        rewrite (proj2 (Z.ltb_lt _ _) H). reflexivity.
      * assert (H : 2 ^ 2098 <= 2 ^ (53 + (fe + 1074)))
          by (apply Z.pow_le_mono_r; lia).
        rewrite (proj2 (Z.ltb_ge _ _) H). reflexivity.
    + rewrite SFvalue_finite_or_inf by lia.
      destruct (Z.leb_spec fe 971) as [H1|H1].
      * assert (H : m2 * 2 ^ (fe + 1074) < 2 ^ 2098).
        { apply Z.lt_le_trans with (2 ^ 53 * 2 ^ (fe + 1074)).
          - apply Z.mul_lt_mono_pos_r; lia.
          - rewrite pow2_split by lia. apply Z.pow_le_mono_r; lia. }
        rewrite (proj2 (Z.ltb_lt _ _) H). reflexivity.
      * assert (H : 2 ^ 2098 <= m2 * 2 ^ (fe + 1074)).
        { apply Z.le_trans with (2 ^ 52 * 2 ^ (fe + 1074)).
          - rewrite pow2_split by lia. apply Z.pow_le_mono_r; lia.
          - apply Z.mul_le_mono_nonneg_r; lia. }
        rewrite (proj2 (Z.ltb_ge _ _) H). reflexivity.
Qed.

(** *** Addition *)

Lemma shl_align_units m e ez :
  ez <= e -> Z.pos (fst (shl_align m e ez)) = Z.pos m * 2 ^ (e - ez).
Proof.
  intros H. unfold shl_align. destruct (ez - e) as [|d|d] eqn:Ed; try lia.
  - replace (e - ez) with 0 by lia. cbn [fst]. lia.
  - cbn [fst]. rewrite iter_xO. do 2 f_equal. lia.
Qed.

Lemma align_units m e ez :
  -1074 <= ez <= e ->
  Z.pos m * 2 ^ (e - ez) * 2 ^ (ez + 1074) = Z.pos m * 2 ^ (e + 1074).
Proof.
  intros H. rewrite <- Z.mul_assoc, pow2_split by lia. do 2 f_equal. lia.
Qed.

Lemma SFvalue_binary_normalize a e :
  -1074 <= e <= 971 ->
  SFvalue (binary_normalize prec emax a e false)
  = Some (nearest (a * 2 ^ (e + 1074))).
Proof.
  intros He.
  assert (Hp : 0 < 2 ^ (e + 1074)) by (apply Z.pow_pos_nonneg; lia).
  destruct a as [|p|p]; cbn [binary_normalize].
  - reflexivity.
  - rewrite binary_round_mag, SFvalue_round_mag by lia. unfold nearest.
    destruct (Z.pos p * 2 ^ (e + 1074)) eqn:E; try lia. reflexivity.
  - rewrite binary_round_mag, SFvalue_round_mag by lia. unfold nearest.
    destruct (Z.neg p * 2 ^ (e + 1074)) eqn:E; try lia.
    do 2 f_equal. lia.
Qed.

(** A number of binary64 is its own rounding. *)
Lemma nearest_mag_units s m e :
  valid_binary (S754_finite s m e) = true ->
  nearest_mag s (Z.pos m * 2 ^ (e + 1074)) = Fin (units s m e).
Proof.
  intros Hv. pose proof (valid_facts _ _ _ Hv) as [He [Hd Hn]].
  assert (H : SFvalue (round_mag s (Z.pos m) e) = Some (Fin (units s m e))).
  { unfold round_mag. cbn [Zdigits2].
    assert (Hfe : fexp64 (Z.pos (digits2_pos m) + e) = e)
      by (unfold fexp64; lia).
    rewrite Hfe, Z.leb_refl, Z.sub_diag, Z.mul_1_r.
    unfold finite_or_inf. rewrite (proj2 (Z.leb_le _ _) (proj2 He)).
    reflexivity. }
  rewrite SFvalue_round_mag in H by lia. congruence.
Qed.

Lemma nearest_units s m e :
  valid_binary (S754_finite s m e) = true ->
  nearest (units s m e) = Fin (units s m e).
Proof.
  intros Hv. pose proof (valid_facts _ _ _ Hv) as [He _].
  pose proof (nearest_mag_units _ _ _ Hv) as H.
  assert (Hp : 0 < 2 ^ (e + 1074)) by (apply Z.pow_pos_nonneg; lia).
  unfold units in *. unfold nearest.
  destruct s; cbn [cond_Zopp] in *.
  - destruct (- (Z.pos m * 2 ^ (e + 1074))) eqn:E; try lia.
    replace (- Z.neg p) with (Z.pos m * 2 ^ (e + 1074)) by lia. exact H.
  - destruct (Z.pos m * 2 ^ (e + 1074)) eqn:E; try lia. exact H.
Qed.

Lemma SFvalue_add x y :
  valid_binary x = true -> valid_binary y = true ->
  SFvalue (SF64add x y)
  = match SFvalue x, SFvalue y with
    | Some a, Some b => xadd a b
    | _, _ => None
    end.
Proof.
  intros Hx Hy. unfold SF64add.
  destruct x as [sx|sx| |sx mx ex]; destruct y as [sy|sy| |sy my ey];
    try reflexivity;
    try (destruct sx; reflexivity); try (destruct sy; reflexivity);
    try (destruct sx, sy; reflexivity).
  - (* zero, finite *)
    cbn [SFadd SFvalue xadd]. rewrite Z.add_0_l, nearest_units by assumption.
    reflexivity.
  - (* finite, zero *)
    cbn [SFadd SFvalue xadd]. rewrite Z.add_0_r, nearest_units by assumption.
    reflexivity.
  - (* finite, finite *)
    pose proof (valid_facts _ _ _ Hx) as [Hex _].
    pose proof (valid_facts _ _ _ Hy) as [Hey _].
    cbn [SFadd SFvalue xadd]. cbv zeta.
    rewrite SFvalue_binary_normalize by lia.
    rewrite !shl_align_units by lia.
    do 2 f_equal. unfold units.
    rewrite Z.mul_add_distr_r.
    f_equal.
    + destruct sx; cbn [cond_Zopp];
        rewrite ?Z.mul_opp_l, align_units by lia; reflexivity.
    + destruct sy; cbn [cond_Zopp];
        rewrite ?Z.mul_opp_l, align_units by lia; reflexivity.
Qed.

Lemma SFsub_add x y : SF64sub x y = SF64add x (SFopp y).
Proof.
  unfold SF64sub, SF64add.
  destruct x as [sx|sx| |sx mx ex]; destruct y as [sy|sy| |sy my ey];
    try reflexivity;
    try (destruct sx; reflexivity); try (destruct sy; reflexivity);
    try (destruct sx, sy; reflexivity).
Qed.

(** *** Order *)

Lemma SFvalue_opp x : SFvalue (SFopp x) = option_map xopp (SFvalue x).
Proof.
  destruct x as [s|s| |s m e]; cbn [SFopp SFvalue option_map xopp];
    try reflexivity.
  - destruct s; reflexivity.
  - unfold units. destruct s; cbn [negb cond_Zopp];
      rewrite ?Z.opp_involutive; reflexivity.
Qed.

Lemma keep53_bounds u :
  0 < u -> 2 ^ (Zdigits2 u - 1) <= keep53 u <= 2 ^ Zdigits2 u.
Proof.
  intros Hu. pose proof (digits_pos u Hu) as Hd.
  pose proof (digits_bounds u Hu) as [Hl Hh].
  unfold keep53. set (d := Zdigits2 u) in *. set (n := Z.max (d - 53) 0).
  assert (Hn : 0 <= n <= d - 1) by (unfold n; lia).
  assert (Hp : 0 < 2 ^ n) by (apply Z.pow_pos_nonneg; lia).
  split.
  - replace (d - 1) with ((d - 1 - n) + n) by lia.
    rewrite <- pow2_split by lia.
    apply Z.mul_le_mono_nonneg_r; [lia|].
    apply rne_ge_grid; [lia|]. rewrite pow2_split by lia.
    replace (d - 1 - n + n) with (d - 1) by lia. exact Hl.
  - assert (Hs : 2 ^ (d - n) * 2 ^ n = 2 ^ d)
      by (rewrite pow2_split by lia; f_equal; lia).
    rewrite <- Hs.
    apply Z.mul_le_mono_nonneg_r; [lia|].
    apply rne_le_grid; [lia|]. rewrite Hs. lia.
Qed.

Lemma keep53_pos u : 0 < u -> 0 < keep53 u.
Proof.
  intros Hu. pose proof (keep53_bounds u Hu) as [Hl _].
  pose proof (digits_pos u Hu).
  assert (0 < 2 ^ (Zdigits2 u - 1)) by (apply Z.pow_pos_nonneg; lia).
  lia.
Qed.

Lemma keep53_mono a b : 0 < a -> a <= b -> keep53 a <= keep53 b.
Proof.
  intros Ha Hab.
  pose proof (digits_mono a b Ha Hab) as Hd.
  destruct (Z.eq_dec (Zdigits2 a) (Zdigits2 b)) as [E|E].
  - unfold keep53. rewrite E. set (n := Z.max (Zdigits2 b - 53) 0).
    apply Z.mul_le_mono_nonneg_r;
      [apply Z.pow_nonneg; lia | apply rne_mono; unfold n; lia].
  - pose proof (keep53_bounds a Ha) as [_ Hu].
    pose proof (keep53_bounds b ltac:(lia)) as [Hl _].
    assert (2 ^ Zdigits2 a <= 2 ^ (Zdigits2 b - 1))
      by (apply Z.pow_le_mono_r; lia).
    lia.
Qed.

Lemma nearest_mag_pos u : 0 < u -> xle (Fin 0) (nearest_mag false u).
Proof.
  intros Hu. unfold nearest_mag. pose proof (keep53_pos u Hu).
  destruct (keep53 u <? 2 ^ 2098); cbn [xle cond_Zopp infinity_of]; [lia|exact I].
Qed.

Lemma nearest_mag_neg u : 0 < u -> xle (nearest_mag true u) (Fin 0).
Proof.
  intros Hu. unfold nearest_mag. pose proof (keep53_pos u Hu).
  destruct (keep53 u <? 2 ^ 2098); cbn [xle cond_Zopp infinity_of]; [lia|exact I].
Qed.

Lemma xle_trans a b c : xle a b -> xle b c -> xle a c.
Proof. destruct a, b, c; cbn [xle]; try tauto; lia. Qed.

Lemma xle_refl a : xle a a.
Proof. destruct a; cbn [xle]; try exact I; lia. Qed.

(** Rounding is monotone. *)
Lemma nearest_mono a b : a <= b -> xle (nearest a) (nearest b).
Proof.
  intros Hab. destruct a as [|p|p], b as [|q|q]; try lia; unfold nearest.
  - apply xle_refl.
  - apply nearest_mag_pos; lia.
  - pose proof (keep53_mono (Z.pos p) (Z.pos q) ltac:(lia) Hab) as H.
    unfold nearest_mag.
    destruct (Z.ltb_spec (keep53 (Z.pos p)) (2 ^ 2098));
      destruct (Z.ltb_spec (keep53 (Z.pos q)) (2 ^ 2098));
      cbn [xle cond_Zopp infinity_of]; try exact I; lia.
  - apply nearest_mag_neg; lia.
  - apply xle_trans with (Fin 0); [apply nearest_mag_neg|apply nearest_mag_pos]; lia.
  - pose proof (keep53_mono (- Z.neg q) (- Z.neg p) ltac:(lia) ltac:(lia)) as H.
    unfold nearest_mag.
    destruct (Z.ltb_spec (keep53 (- Z.neg p)) (2 ^ 2098));
      destruct (Z.ltb_spec (keep53 (- Z.neg q)) (2 ^ 2098));
      cbn [xle cond_Zopp infinity_of]; try exact I; lia.
Qed.

(** *** Numbers of binary64 *)

Lemma xleb_le a b : xleb a b = true <-> xle a b.
Proof.
  destruct a as [|x|], b as [|y|]; unfold xleb; cbn [xcompare xle];
    try (split; [intros _; exact I | reflexivity]);
    try (split; [discriminate | intros []]).
  destruct (Z.compare_spec x y); split; intros; try lia; congruence.
Qed.

Lemma leb_value x y :
  PrimFloat.leb x y
  = match value x, value y with
    | Some a, Some b => xleb a b
    | _, _ => false
    end.
Proof.
  rewrite leb_spec. unfold SFleb, value.
  rewrite SFcompare_value by apply Prim2SF_valid.
  destruct (SFvalue (Prim2SF x)), (SFvalue (Prim2SF y)); reflexivity.
Qed.

Lemma ltb_value x y :
  PrimFloat.ltb x y
  = match value x, value y with
    | Some a, Some b => xltb a b
    | _, _ => false
    end.
Proof.
  rewrite ltb_spec. unfold SFltb, value.
  rewrite SFcompare_value by apply Prim2SF_valid.
  destruct (SFvalue (Prim2SF x)), (SFvalue (Prim2SF y)); reflexivity.
Qed.

Lemma leb_xle x y :
  PrimFloat.leb x y = true
  <-> exists a b, value x = Some a /\ value y = Some b /\ xle a b.
Proof.
  rewrite leb_value. split.
  - destruct (value x) as [a|], (value y) as [b|]; try discriminate.
    intros H. exists a, b. repeat split. apply xleb_le, H.
  - intros (a & b & -> & -> & H). apply xleb_le, H.
Qed.

Lemma value_add x y :
  value (x + y)
  = match value x, value y with
    | Some a, Some b => xadd a b
    | _, _ => None
    end.
Proof. unfold value. rewrite add_spec. apply SFvalue_add; apply Prim2SF_valid. Qed.

Lemma value_opp x : value (- x) = option_map xopp (value x).
Proof. unfold value. rewrite opp_spec. apply SFvalue_opp. Qed.

Lemma valid_opp x : valid_binary x = true -> valid_binary (SFopp x) = true.
Proof. destruct x; intros H; exact H. Qed.

Lemma value_sub x y :
  value (x - y)
  = match value x, value y with
    | Some a, Some b => xadd a (xopp b)
    | _, _ => None
    end.
Proof.
  unfold value. rewrite sub_spec, SFsub_add.
  rewrite SFvalue_add by (try apply valid_opp; apply Prim2SF_valid).
  rewrite SFvalue_opp. destruct (SFvalue (Prim2SF x)), (SFvalue (Prim2SF y)); reflexivity.
Qed.

Lemma value_zero : value 0 = Some (Fin 0).
Proof. reflexivity. Qed.

Lemma value_max0 (x : float) :
  value (utils.max0 x) = Some (xclamp (value x)).
Proof.
  change (utils.max0 x) with (if PrimFloat.ltb 0 x then x else 0%float).
  rewrite ltb_value, value_zero.
  destruct (value x) as [[|z|]|] eqn:E; cbn [xclamp]; try exact value_zero.
  - unfold xltb. cbn [xcompare].
    destruct (Z.compare_spec 0 z); rewrite ?E, ?value_zero; do 2 f_equal; lia.
  - exact E.
Qed.

Lemma xclamp_nonneg t : xle (Fin 0) (xclamp t).
Proof. destruct t as [[|x|]|]; cbn; lia || exact I. Qed.

Lemma xclamp_mono a c :
  xle a c -> xle (xclamp (Some a)) (xclamp (Some c)).
Proof. destruct a, c; cbn; try tauto; lia. Qed.

Lemma xclamp_le a u :
  xle a u -> xle (Fin 0) u -> xle (xclamp (Some a)) u.
Proof. destruct a, u; cbn; try tauto; lia. Qed.

Lemma nearest_nonneg u : 0 <= u -> xle (Fin 0) (nearest u).
Proof. intros H. apply (nearest_mono 0 u H). Qed.

Lemma xle_PosInf a : xle a PosInf.
Proof. destruct a; exact I. Qed.

(** The range of a clamped sum, on values. *)
Lemma xrange B W O :
  xle (Fin 0) B -> xle (Fin 0) W -> xle (xopp W) O -> xle O W ->
  xle (xclamp (xadd B (xopp W))) (xclamp (xadd B O))
  /\ exists U, xadd B W = Some U /\ xle (xclamp (xadd B O)) U.
Proof.
  destruct B as [|b|], W as [|v|], O as [|o|];
    cbn [xle xopp xadd]; intros HB HW Hl Hu; try tauto;
    (split; [|eexists; split; [reflexivity|]]);
    first [ apply xle_PosInf
          | apply xle_refl
          | apply xclamp_nonneg
          | apply xclamp_mono, nearest_mono; lia
          | apply xclamp_le; [apply nearest_mono|apply nearest_nonneg]; lia ].
Qed.

(** In binary64, a sum with an offset between [- v] and [v], clamped at
    zero, lies between the clamped difference and the sum. *)
Lemma max0_range_binary64 (b v o : float) :
  PrimFloat.leb 0 b = true -> PrimFloat.leb 0 v = true ->
  PrimFloat.leb (- v) o = true -> PrimFloat.leb o v = true ->
  PrimFloat.leb (utils.max0 (b - v)%float) (utils.max0 (b + o)%float) = true
  /\ PrimFloat.leb (utils.max0 (b + o)%float) (b + v) = true.
Proof.
  intros Hb Hv Hl Hu.
  apply leb_xle in Hb as (z & B & Hz & HB & Hb).
  rewrite value_zero in Hz. injection Hz as <-.
  apply leb_xle in Hv as (z & W & Hz & HW & Hv).
  rewrite value_zero in Hz. injection Hz as <-.
  apply leb_xle in Hu as (O & W' & HO & HW' & Hu).
  rewrite HW in HW'. injection HW' as <-.
  apply leb_xle in Hl as (N & O' & HN & HO' & Hl).
  rewrite HO in HO'. injection HO' as <-.
  rewrite value_opp, HW in HN. injection HN as <-.
  destruct (xrange B W O Hb Hv Hl Hu) as [H1 (U & HU & H2)].
  split; apply leb_xle.
  - exists (xclamp (xadd B (xopp W))), (xclamp (xadd B O)).
    rewrite !value_max0, value_sub, value_add, HB, HW, HO. repeat split. exact H1.
  - exists (xclamp (xadd B O)), U.
    rewrite value_max0, !value_add, HB, HW, HO. repeat split; assumption.
Qed.

(** *** Multiplication: the sign of a product *)

Lemma shr_fexp_nonneg m e :
  0 <= m ->
  exists k, 0 <= k /\ shr_fexp prec emax m e loc_Exact = (shr_by m k, e + k).
Proof.
  intros Hm. unfold shr_fexp. cbn [shr_record_of_loc].
  destruct (fexp prec emax (Zdigits2 m + e) - e) as [|p|p] eqn:En.
  - exists 0. split; [lia|]. rewrite shr_by_0, Z.add_0_r. reflexivity.
  - exists (Z.pos p). split; [lia|]. apply shr_shr_by; lia.
  - exists 0. split; [lia|]. rewrite shr_by_0, Z.add_0_r. reflexivity.
Qed.

Lemma rne_nonneg a k : 0 <= a -> 0 <= k -> 0 <= rne a k.
Proof.
  intros Ha Hk. pose proof (rne_bounds a k Hk) as [H _].
  assert (0 <= a / 2 ^ k)
    by (apply Z.div_pos; [lia | apply Z.pow_pos_nonneg; lia]).
  lia.
Qed.

(** Rounding a non-negative mantissa gives a zero, a finite number or an
    infinity of the sign asked for. *)
Lemma binary_round_aux_sign s m e :
  0 <= m ->
  binary_round_aux prec emax s m e loc_Exact = S754_zero s
  \/ binary_round_aux prec emax s m e loc_Exact = S754_infinity s
  \/ exists m' e',
       binary_round_aux prec emax s m e loc_Exact = S754_finite s m' e'.
Proof.
  intros Hm. unfold binary_round_aux.
  destruct (shr_fexp_nonneg m e Hm) as (k & Hk & ->).
  rewrite round_shr_by by assumption.
  pose proof (rne_nonneg m k Hm Hk) as Hr.
  destruct (shr_fexp_nonneg (rne m k) (e + k) Hr) as (k' & Hk' & ->).
  cbn [shr_m shr_by].
  assert (Hq : 0 <= rne m k / 2 ^ k')
    by (apply Z.div_pos; [lia | apply Z.pow_pos_nonneg; lia]).
  destruct (rne m k / 2 ^ k') as [|q|q]; [left; reflexivity| |lia].
  right. destruct (e + k + k' <=? emax - prec);
    [right; eexists _, _; reflexivity | left; reflexivity].
Qed.

Lemma units_nonneg m e : 0 <= units false m e.
Proof.
  unfold units. cbn [cond_Zopp].
  apply Z.mul_nonneg_nonneg; [lia | apply Z.pow_nonneg; lia].
Qed.

Lemma nonneg_sign s m e :
  valid_binary (S754_finite s m e) = true ->
  0 <= units s m e -> s = false.
Proof.
  intros Hv H. pose proof (valid_facts _ _ _ Hv) as [He _].
  assert (0 < 2 ^ (e + 1074)) by (apply Z.pow_pos_nonneg; lia).
  destruct s; [|reflexivity]. unfold units in H. cbn [cond_Zopp] in H. nia.
Qed.

(** The product of two non-negative numbers is non-negative, unless it
    is the product of a zero and an infinity. *)
Lemma SFmul_nonneg x y a b :
  valid_binary x = true -> valid_binary y = true ->
  SFvalue x = Some a -> SFvalue y = Some b ->
  xle (Fin 0) a -> xle (Fin 0) b ->
  ~ (a = PosInf /\ b = Fin 0) -> ~ (a = Fin 0 /\ b = PosInf) ->
  exists p, SFvalue (SF64mul x y) = Some p /\ xle (Fin 0) p.
Proof.
  intros Hx Hy Ha Hb Ha0 Hb0 N1 N2. unfold SF64mul.
  destruct x as [sx|sx| |sx mx ex]; destruct y as [sy|sy| |sy my ey];
    cbn [SFvalue] in Ha, Hb; try discriminate;
    injection Ha as <-; injection Hb as <-; cbn [SFmul SFvalue].
  - exists (Fin 0). split; [reflexivity | cbn; lia].
  - destruct sy; cbn [xle] in Hb0; [destruct Hb0|]. tauto.
  - exists (Fin 0). split; [reflexivity | cbn; lia].
  - destruct sx; cbn [xle] in Ha0; [destruct Ha0|]. tauto.
  - destruct sx; cbn [xle] in Ha0; [destruct Ha0|].
    destruct sy; cbn [xle] in Hb0; [destruct Hb0|].
    exists PosInf. split; [reflexivity | exact I].
  - destruct sx; cbn [xle] in Ha0; [destruct Ha0|].
    rewrite (nonneg_sign _ _ _ Hy Hb0).
    exists PosInf. split; [reflexivity | exact I].
  - exists (Fin 0). split; [reflexivity | cbn; lia].
  - destruct sy; cbn [xle] in Hb0; [destruct Hb0|].
    rewrite (nonneg_sign _ _ _ Hx Ha0).
    exists PosInf. split; [reflexivity | exact I].
  - rewrite (nonneg_sign _ _ _ Hx Ha0), (nonneg_sign _ _ _ Hy Hb0).
    cbn [xorb].
    destruct (binary_round_aux_sign false (Z.pos (mx * my)) (ex + ey)
                ltac:(lia)) as [-> | [-> | (m' & e' & ->)]]; cbn [SFvalue].
    + exists (Fin 0). split; [reflexivity | cbn; lia].
    + exists PosInf. split; [reflexivity | exact I].
    + eexists. split; [reflexivity | apply units_nonneg].
Qed.

(** *** Strict order and positive sums *)

Lemma xltb_lt a b : xltb a b = true <-> xlt a b.
Proof.
  destruct a as [|x|], b as [|y|]; unfold xltb; cbn [xcompare xlt];
    try (split; [intros _; exact I | reflexivity]);
    try (split; [discriminate | intros []]).
  destruct (Z.compare_spec x y); split; intros; try lia; congruence.
Qed.

Lemma ltb_xlt x y :
  PrimFloat.ltb x y = true
  <-> exists a b, value x = Some a /\ value y = Some b /\ xlt a b.
Proof.
  rewrite ltb_value. split.
  - destruct (value x) as [a|], (value y) as [b|]; try discriminate.
    intros H. exists a, b. repeat split. apply xltb_lt, H.
  - intros (a & b & -> & -> & H). apply xltb_lt, H.
Qed.

Lemma value_mul_nonneg x y a b :
  value x = Some a -> value y = Some b ->
  xle (Fin 0) a -> xle (Fin 0) b ->
  ~ (a = PosInf /\ b = Fin 0) -> ~ (a = Fin 0 /\ b = PosInf) ->
  exists p, value (x * y) = Some p /\ xle (Fin 0) p.
Proof.
  unfold value. rewrite mul_spec. apply SFmul_nonneg; apply Prim2SF_valid.
Qed.

(** The value of a number of binary64 is its own rounding. *)
Lemma value_representable x u : value x = Some (Fin u) -> nearest u = Fin u.
Proof.
  unfold value. pose proof (Prim2SF_valid x) as Hv.
  destruct (Prim2SF x) as [s|s| |s m e]; cbn [SFvalue]; try discriminate.
  - intros [= <-]. reflexivity.
  - destruct s; discriminate.
  - intros [= <-]. apply nearest_units, Hv.
Qed.

Lemma nearest_pos u : 0 < u -> xlt (Fin 0) (nearest u).
Proof.
  intros Hu. destruct u as [|p|p]; try lia. unfold nearest, nearest_mag.
  pose proof (keep53_pos (Z.pos p) Hu).
  destruct (keep53 (Z.pos p) <? 2 ^ 2098); cbn [xlt cond_Zopp infinity_of]; [lia|exact I].
Qed.

(** A base above the variance, plus an offset that is the negated
    variance plus something non-negative, is positive. *)
Lemma xpositive B vv P :
  xlt (Fin vv) B -> nearest (- vv) = Fin (- vv) -> xle (Fin 0) P ->
  exists O S,
    xadd (Fin (- vv)) P = Some O /\ xadd B O = Some S /\ xlt (Fin 0) S.
Proof.
  intros HB Hv HP.
  destruct P as [|p|]; cbn [xle] in HP; [destruct HP| |].
  - pose proof (nearest_mono (- vv) (- vv + p) ltac:(lia)) as Ho.
    rewrite Hv in Ho. cbn [xadd].
    destruct (nearest (- vv + p)) as [|o|] eqn:Eo; cbn [xle] in Ho;
      [destruct Ho| |];
      destruct B as [|bb|]; cbn [xlt] in HB; try (exfalso; exact HB);
      eexists _, _; (split; [reflexivity|]); cbn [xadd];
      (split; [reflexivity|]); try exact I.
    apply nearest_pos. lia.
  - destruct B as [|bb|]; cbn [xlt] in HB; try (exfalso; exact HB);
      eexists _, _; (split; [reflexivity|]); cbn [xadd];
      (split; [reflexivity|]); exact I.
Qed.

(** In binary64: with [0 <= v < b], [v + v] finite and [r] in the unit
    interval, the sum of [b] and the offset [- v + (v - - v) * r] is
    positive. *)
Lemma offset_sum_positive_binary64 (b v r : float) :
  PrimFloat.leb 0 v = true -> PrimFloat.ltb v b = true ->
  PrimFloat.ltb (v + v) infinity = true ->
  PrimFloat.leb 0 r = true -> PrimFloat.leb r 1 = true ->
  PrimFloat.ltb 0 (b + (- v + (v - - v) * r)) = true.
Proof.
  intros Hv Hb Hf Hr0 Hr1.
  apply leb_xle in Hv as (z & W & Hz & HW & Hv).
  rewrite value_zero in Hz. injection Hz as <-.
  apply ltb_xlt in Hb as (W' & B & HW' & HB & Hb).
  rewrite HW in HW'. injection HW' as <-.
  destruct W as [|vv|]; cbn [xle xlt] in Hv, Hb; [destruct Hv| |destruct Hb].
  apply ltb_xlt in Hf as (T & I' & HT & HI & Hf).
  change (value infinity) with (Some PosInf) in HI. injection HI as <-.
  rewrite value_add, HW in HT. cbn [xadd] in HT. injection HT as <-.
  apply leb_xle in Hr0 as (z & R & Hz & HR & Hr0).
  rewrite value_zero in Hz. injection Hz as <-.
  apply leb_xle in Hr1 as (R' & one & HR' & H1 & Hr1).
  change (value 1) with (Some (Fin (units false 4503599627370496 (-52)))) in H1.
  injection H1 as <-.
  rewrite HR in HR'. injection HR' as <-.
  assert (HN : value (- v) = Some (Fin (- vv))) by (rewrite value_opp, HW; reflexivity).
  assert (HD : value (v - - v) = Some (nearest (vv + vv))).
  { rewrite value_sub, HW, HN. cbn [xadd xopp]. rewrite Z.opp_involutive.
    reflexivity. }
  destruct (value_mul_nonneg (v - - v) r _ _ HD HR) as (P & HP & HP0).
  - apply nearest_nonneg; lia.
  - exact Hr0.
  - intros [E _]. rewrite E in Hf. exact Hf.
  - intros [_ E]. rewrite E in Hr1. exact Hr1.
  - destruct (xpositive B vv P Hb (value_representable _ _ HN) HP0)
      as (O & S & HO & HS & Hpos).
    apply ltb_xlt. exists (Fin 0), S. repeat split; [|exact Hpos].
    rewrite !value_add, HB, HN, HP, HO. exact HS.
Qed.

(** *** Division of integers *)

Lemma rne_div_bounds a d : 0 < d -> a / d <= rne_div a d <= a / d + 1.
Proof.
  intros Hd. unfold rne_div.
  destruct (2 * (a mod d) ?= d); [destruct (Z.even _)| |]; lia.
Qed.

Lemma rne_div_le_grid a d g : 0 < d -> a <= g * d -> rne_div a d <= g.
Proof.
  intros Hd Ha.
  pose proof (Z.div_mod a d ltac:(lia)) as Hdm.
  pose proof (Z.mod_pos_bound a d Hd) as Hb.
  unfold rne_div.
  destruct (Z.compare_spec (2 * (a mod d)) d) as [E|E|E];
    [destruct (Z.even _)| |]; nia.
Qed.

Lemma rne_div_ge_grid a d g : 0 < d -> g * d <= a -> g <= rne_div a d.
Proof.
  intros Hd Ha.
  pose proof (Z.div_mod a d ltac:(lia)) as Hdm.
  pose proof (Z.mod_pos_bound a d Hd) as Hb.
  unfold rne_div.
  destruct (Z.compare_spec (2 * (a mod d)) d) as [E|E|E];
    [destruct (Z.even _)| |]; nia.
Qed.

(** Below the point half-way between [g] and [g + 1] the quotient
    rounds to at most [g]; from that point on, for an odd [g], to at
    least [g + 1]. *)
Lemma rne_div_below a d g :
  0 < d -> 2 * a < (2 * g + 1) * d -> rne_div a d <= g.
Proof.
  intros Hd Ha.
  pose proof (Z.div_mod a d ltac:(lia)) as Hdm.
  pose proof (Z.mod_pos_bound a d Hd) as Hb.
  assert (Hq : a / d <= g) by nia.
  unfold rne_div.
  destruct (Z.compare_spec (2 * (a mod d)) d) as [E|E|E];
    [destruct (Z.even _)| |]; nia.
Qed.

Lemma rne_div_above a d g :
  0 < d -> Z.odd g = true -> (2 * g + 1) * d <= 2 * a ->
  g + 1 <= rne_div a d.
Proof.
  intros Hd Hg Ha.
  pose proof (Z.div_mod a d ltac:(lia)) as Hdm.
  pose proof (Z.mod_pos_bound a d Hd) as Hb.
  assert (Hq : g <= a / d) by nia.
  unfold rne_div.
  destruct (Z.eq_dec (a / d) g) as [Eq|Ne].
  - rewrite Eq in *. rewrite <- Z.negb_odd, Hg. cbn [negb].
    destruct (Z.compare_spec (2 * (a mod d)) d) as [E|E|E]; nia.
  - destruct (Z.compare_spec (2 * (a mod d)) d) as [E|E|E];
      [destruct (Z.even _)| |]; lia.
Qed.

(** The quotient rounded to 53 bits is a multiple of a power of two by
    at most [2 ^ 53]. *)
Lemma keep53_ratio_grid a b :
  0 <= a -> 0 < b ->
  exists R n, keep53_ratio a b = R * 2 ^ n /\ 0 <= R <= 2 ^ 53 /\ 0 <= n.
Proof.
  intros Ha Hb. unfold keep53_ratio.
  set (u := a * 2 ^ 1074).
  assert (Hu : 0 <= u) by (unfold u; apply Z.mul_nonneg_nonneg; lia).
  set (Q := u / b). set (n := Z.max (Zdigits2 Q - 53) 0).
  assert (Hn : 0 <= n) by (unfold n; lia).
  assert (Hp : 0 < 2 ^ n) by (apply Z.pow_pos_nonneg; lia).
  assert (HQ : 0 <= Q) by (apply Z.div_pos; lia).
  pose proof (Z.div_mod u b ltac:(lia)) as Hdm.
  pose proof (Z.mod_pos_bound u b Hb) as Hmb. fold Q in Hdm.
  exists (rne_div u (b * 2 ^ n)), n. split; [reflexivity|].
  split; [|exact Hn]. split.
  - apply rne_div_ge_grid; [nia|]. lia.
  - apply rne_div_le_grid; [nia|].
    destruct (Z.eq_dec Q 0) as [E|E].
    + assert (0 < 2 ^ 53) by (apply Z.pow_pos_nonneg; lia). nia.
    + pose proof (digits_bounds Q ltac:(lia)) as [_ Hh].
      assert (Hle : 2 ^ Zdigits2 Q <= 2 ^ 53 * 2 ^ n).
      { rewrite pow2_split by lia. apply Z.pow_le_mono_r; lia. }
      nia.
Qed.

Lemma keep53_ratio_pos a b :
  0 < b -> b <= a * 2 ^ 1074 -> 0 < keep53_ratio a b.
Proof.
  intros Hb Ha. unfold keep53_ratio.
  set (u := a * 2 ^ 1074) in *.
  set (Q := u / b). set (n := Z.max (Zdigits2 Q - 53) 0).
  assert (Hn : 0 <= n) by (unfold n; lia).
  assert (Hp : 0 < 2 ^ n) by (apply Z.pow_pos_nonneg; lia).
  assert (HQ : 1 <= Q).
  { unfold Q. apply Z.div_le_lower_bound; lia. }
  pose proof (Z.div_mod u b ltac:(lia)) as Hdm.
  pose proof (Z.mod_pos_bound u b Hb) as Hmb. fold Q in Hdm.
  pose proof (digits_bounds Q ltac:(lia)) as [Hl Hh].
  pose proof (digits_pos Q ltac:(lia)) as Hd.
  apply Z.mul_pos_pos; [|exact Hp].
  apply Z.lt_le_trans with 1; [lia|].
  apply rne_div_ge_grid; [nia|].
  destruct (Z.le_gt_cases (Zdigits2 Q) 53) as [H|H].
  - replace n with 0 by (unfold n; lia). rewrite Z.pow_0_r. lia.
  - replace n with (Zdigits2 Q - 53) in * by (unfold n; lia).
    assert (2 ^ (Zdigits2 Q - 53) <= 2 ^ (Zdigits2 Q - 1))
      by (apply Z.pow_le_mono_r; lia).
    nia.
Qed.

(** The quotient overflows exactly from the point half-way between the
    largest number of the format and [2 ^ 1024]. *)
Lemma keep53_ratio_finite a b :
  0 < a -> 0 < b ->
  (keep53_ratio a b < 2 ^ 2098 <-> 2 * a < b * (2 ^ 1025 - 2 ^ 971)).
Proof.
  intros Ha Hb.
  assert (E1074 : 0 < 2 ^ 1074) by (apply Z.pow_pos_nonneg; lia).
  assert (Ethr : (2 ^ 1025 - 2 ^ 971) * 2 ^ 1074
                 = (2 * (2 ^ 53 - 1) + 1) * 2 ^ 2045).
  { rewrite Z.mul_sub_distr_r, !pow2_split by lia.
    replace (2 * (2 ^ 53 - 1) + 1) with (2 ^ 54 - 1)
      by (change (2 ^ 54) with (2 * 2 ^ 53); lia).
    rewrite Z.mul_sub_distr_r, pow2_split by lia. cbn [Z.add]. lia. }
  assert (E2098 : 2 ^ 2098 = 2 ^ 53 * 2 ^ 2045)
    by (rewrite pow2_split by lia; reflexivity).
  assert (P2045 : 0 < 2 ^ 2045) by (apply Z.pow_pos_nonneg; lia).
  assert (P53 : 2 ^ 53 = 9007199254740992) by reflexivity.
  unfold keep53_ratio.
  set (u := a * 2 ^ 1074).
  assert (Hu : 0 < u) by (unfold u; lia).
  set (Q := u / b). set (D := Zdigits2 Q). set (n := Z.max (D - 53) 0).
  assert (Hn : 0 <= n) by (unfold n; lia).
  assert (Hp : 0 < 2 ^ n) by (apply Z.pow_pos_nonneg; lia).
  assert (HQ : 0 <= Q) by (apply Z.div_pos; lia).
  pose proof (Z.div_mod u b ltac:(lia)) as Hdm.
  pose proof (Z.mod_pos_bound u b Hb) as Hmb. fold Q in Hdm.
  (* the condition in units *)
  assert (Hcond : 2 * a < b * (2 ^ 1025 - 2 ^ 971)
                  <-> 2 * u < (2 * (2 ^ 53 - 1) + 1) * (b * 2 ^ 2045)).
  { replace ((2 * (2 ^ 53 - 1) + 1) * (b * 2 ^ 2045))
      with (b * (2 ^ 1025 - 2 ^ 971) * 2 ^ 1074)
      by (rewrite <- (Z.mul_assoc b), Ethr; lia).
    replace (2 * u) with (2 * a * 2 ^ 1074) by (unfold u; lia).
    apply Z.mul_lt_mono_pos_r. exact E1074. }
  rewrite Hcond. clear Hcond.
  set (T := 2 ^ 2045) in *.
  split.
  - (* finite: the quotient is below the point *)
    intros Hfin.
    destruct (Z.lt_ge_cases (2 * u) ((2 * (2 ^ 53 - 1) + 1) * (b * T)))
      as [H|H]; [exact H|exfalso].
    assert (HQl : 2 ^ 2097 <= Q).
    { unfold Q. apply Z.div_le_lower_bound; [lia|].
      assert (2 ^ 2097 = 2 ^ 52 * T)
        by (unfold T; rewrite pow2_split by lia; reflexivity).
      assert (2 ^ 52 = 4503599627370496) by reflexivity. nia. }
    assert (Q0 : 0 < Q).
    { assert (0 < 2 ^ 2097) by (apply Z.pow_pos_nonneg; lia). lia. }
    pose proof (digits_bounds Q Q0) as [Hl Hh]. fold D in Hl, Hh.
    assert (HD : 2098 <= D).
    { destruct (Z.le_gt_cases 2098 D) as [G|G]; [exact G|].
      assert (2 ^ D <= 2 ^ 2097) by (apply Z.pow_le_mono_r; lia). lia. }
    replace n with (D - 53) in * by (unfold n; lia).
    destruct (Z.eq_dec D 2098) as [ED|ND].
    + rewrite ED in *. change (2098 - 53) with 2045 in *. fold T in Hfin, Hp.
      pose proof (@rne_div_above u (b * T) (2 ^ 53 - 1) ltac:(nia)
                    eq_refl H) as HR.
      nia.
    + assert (HR : 2 ^ 52 <= rne_div u (b * 2 ^ (D - 53))).
      { apply rne_div_ge_grid; [nia|].
        assert (2 ^ (D - 1) = 2 ^ 52 * 2 ^ (D - 53))
          by (rewrite pow2_split by lia; f_equal; lia).
        nia. }
      assert (2 ^ 2098 <= 2 ^ 52 * 2 ^ (D - 53)).
      { rewrite pow2_split by lia. apply Z.pow_le_mono_r; lia. }
      nia.
  - (* below the point: finite *)
    intros H.
    assert (HQh : Q < 2 ^ 2098).
    { unfold Q. apply Z.div_lt_upper_bound; [lia|]. nia. }
    destruct (Z.eq_dec Q 0) as [EQ|NQ].
    { subst D n. rewrite EQ. cbn [Zdigits2 Z.sub Z.max Z.opp Z.add Z.compare].
      rewrite Z.pow_0_r, !Z.mul_1_r.
      pose proof (@rne_div_le_grid u b 1 Hb ltac:(lia)).
      assert (2 < 2 ^ 2098).
      { apply Z.lt_le_trans with (2 ^ 2); [reflexivity|].
        apply Z.pow_le_mono_r; lia. }
      lia. }
    pose proof (digits_bounds Q ltac:(lia)) as [Hl Hh]. fold D in Hl, Hh.
    pose proof (digits_pos Q ltac:(lia)) as HDp. fold D in HDp.
    assert (HD : D <= 2098).
    { destruct (Z.le_gt_cases D 2098) as [G|G]; [exact G|].
      assert (2 ^ 2098 <= 2 ^ (D - 1)) by (apply Z.pow_le_mono_r; lia).
      lia. }
    destruct (Z.eq_dec D 2098) as [ED|ND].
    + replace n with 2045 in * by (unfold n; lia). fold T.
      pose proof (@rne_div_below u (b * T) (2 ^ 53 - 1) ltac:(nia) H) as HR.
      nia.
    + assert (HR : rne_div u (b * 2 ^ n) <= 2 ^ 53).
      { apply rne_div_le_grid; [nia|].
        assert (2 ^ D <= 2 ^ 53 * 2 ^ n).
        { rewrite pow2_split by lia. apply Z.pow_le_mono_r; lia. }
        nia. }
      assert (2 ^ 53 * 2 ^ n <= 2 ^ 2097).
      { rewrite pow2_split by lia. apply Z.pow_le_mono_r; lia. }
      assert (2 ^ 2097 < 2 ^ 2098) by (apply Z.pow_lt_mono_r; lia).
      nia.
Qed.

(** A multiple of a power of two by at most [2 ^ 53] is kept as it
    is. *)
Lemma keep53_fixed R n : 0 < R <= 2 ^ 53 -> 0 <= n -> keep53 (R * 2 ^ n) = R * 2 ^ n.
Proof.
  intros [HR0 HR] Hn.
  assert (Hp : 0 < 2 ^ n) by (apply Z.pow_pos_nonneg; lia).
  unfold keep53. rewrite digits_shift by lia.
  pose proof (digits_bounds R HR0) as [Hl Hh].
  pose proof (digits_pos R HR0) as Hd.
  set (d := Zdigits2 R) in *.
  destruct (Z.eq_dec R (2 ^ 53)) as [E|E].
  - assert (Ed : d = 54).
    { unfold d. rewrite E. apply digits_unique; [|lia].
      split; [apply Z.le_refl|]. apply Z.pow_lt_mono_r; lia. }
    rewrite Ed. replace (Z.max (54 + n - 53) 0) with (n + 1) by lia.
    rewrite E.
    replace (2 ^ 53 * 2 ^ n) with (2 ^ 52 * 2 ^ (n + 1))
      by (rewrite !pow2_split by lia; f_equal; lia).
    rewrite rne_exact by lia. reflexivity.
  - assert (Hd53 : d <= 53).
    { destruct (Z.le_gt_cases d 53) as [G|G]; [exact G|].
      assert (2 ^ 53 <= 2 ^ (d - 1)) by (apply Z.pow_le_mono_r; lia). lia. }
    set (m := Z.max (d + n - 53) 0).
    assert (Hm : 0 <= m <= n) by (unfold m; lia).
    replace (R * 2 ^ n) with ((R * 2 ^ (n - m)) * 2 ^ m)
      by (rewrite <- Z.mul_assoc, pow2_split by lia; do 2 f_equal; lia).
    rewrite rne_exact by lia. reflexivity.
Qed.

Lemma nearest_fixed R n :
  0 < R <= 2 ^ 53 -> 0 <= n -> R * 2 ^ n < 2 ^ 2098 ->
  nearest (R * 2 ^ n) = Fin (R * 2 ^ n).
Proof.
  intros HR Hn Hlt.
  assert (Hp : 0 < 2 ^ n) by (apply Z.pow_pos_nonneg; lia).
  assert (Hpos : 0 < R * 2 ^ n) by nia.
  assert (Hk : nearest_mag false (R * 2 ^ n) = Fin (R * 2 ^ n)).
  { unfold nearest_mag. rewrite keep53_fixed by assumption.
    rewrite (proj2 (Z.ltb_lt _ _) Hlt). reflexivity. }
  unfold nearest. destruct (R * 2 ^ n) as [|p|p] eqn:E; try lia.
  exact Hk.
Qed.

(** What the library's rounding returns is a number of the format. *)
Lemma finite_or_inf_valid s m e :
  0 < m -> fexp64 (Zdigits2 m + e) = e ->
  valid_binary (finite_or_inf s m e) = true.
Proof.
  intros Hm He. unfold finite_or_inf.
  destruct (Z.leb_spec e 971) as [H|H]; [|reflexivity].
  destruct m as [|p|p]; try lia.
  cbn [valid_binary Z.to_pos]. unfold bounded, canonical_mantissa.
  rewrite fexp_fexp64. cbn [Zdigits2] in He. rewrite He, Z.eqb_refl.
  apply Z.leb_le. exact H.
Qed.

Lemma round_mag_valid s z e :
  0 < z -> -1074 <= e -> valid_binary (round_mag s z e) = true.
Proof.
  intros Hz He. unfold round_mag.
  pose proof (digits_bounds z Hz) as [Hl Hh].
  pose proof (digits_pos z Hz) as Hd.
  set (d := Zdigits2 z) in *.
  set (fe := fexp64 (d + e)).
  destruct (Z.leb_spec fe e) as [Hle|Hgt].
  - assert (Hp : 0 < 2 ^ (e - fe)) by (apply Z.pow_pos_nonneg; lia).
    apply finite_or_inf_valid; [nia|].
    rewrite digits_shift by lia. fold d.
    replace (d + (e - fe) + fe) with (d + e) by lia. reflexivity.
  - assert (Hfe : fe = d + e - 53) by (unfold fe, fexp64 in *; lia).
    assert (Hk : 0 < fe - e) by lia.
    assert (Hp : 0 < 2 ^ (fe - e)) by (apply Z.pow_pos_nonneg; lia).
    assert (Hgrid : 2 ^ (d - 1) = 2 ^ 52 * 2 ^ (fe - e))
      by (rewrite pow2_split by lia; f_equal; lia).
    assert (Hgrid' : 2 ^ d = 2 ^ 53 * 2 ^ (fe - e))
      by (rewrite pow2_split by lia; f_equal; lia).
    pose proof (@rne_ge_grid z (fe - e) (2 ^ 52) ltac:(lia) ltac:(lia)) as Hlo.
    pose proof (@rne_le_grid z (fe - e) (2 ^ 53) ltac:(lia) ltac:(lia)) as Hhi.
    set (m2 := rne z (fe - e)) in *.
    destruct (Z.eqb_spec m2 (2 ^ 53)) as [E|E].
    + apply finite_or_inf_valid; [reflexivity|].
      change (Zdigits2 (2 ^ 52)) with 53. unfold fexp64. lia.
    + assert (Hm : Zdigits2 m2 = 53).
      { apply digits_unique; [|lia]. change (53 - 1) with 52. lia. }
      apply finite_or_inf_valid.
      * assert (0 < 2 ^ 52) by reflexivity. lia.
      * rewrite Hm. unfold fexp64. lia.
Qed.

Lemma binary_normalize_valid a :
  valid_binary (binary_normalize prec emax a (-1074) false) = true.
Proof.
  destruct a as [|p|p]; cbn [binary_normalize]; [reflexivity| |];
    rewrite binary_round_mag by lia; apply round_mag_valid; lia.
Qed.

(** The quotient of two positive integers: the float whose value is
    the rounded quotient, when this is finite. *)
Lemma long_true_divide_value a b :
  0 < a -> 0 < b ->
  (2 * a < b * (2 ^ 1025 - 2 ^ 971) ->
   exists x, long_true_divide a b = Ok x
             /\ value x = Some (Fin (keep53_ratio a b))
             /\ (b <= a * 2 ^ 1074 -> 0 < keep53_ratio a b))
  /\ (b * (2 ^ 1025 - 2 ^ 971) <= 2 * a ->
      long_true_divide a b
      = Raise (OverflowError "integer division result too large for a float")).
Proof.
  intros Ha Hb.
  pose proof (keep53_ratio_finite a b Ha Hb) as Hfin.
  unfold long_true_divide.
  rewrite (proj2 (Z.eqb_neq b 0)) by lia.
  rewrite (proj2 (Z.ltb_ge a 0)), (proj2 (Z.ltb_ge b 0)) by lia.
  cbn [xorb cond_Zopp]. rewrite !Z.abs_eq by lia.
  split; intros H.
  - apply Hfin in H.
    rewrite (proj2 (Z.leb_gt _ _) H).
    eexists. split; [reflexivity|]. split; [|apply keep53_ratio_pos, Hb].
    unfold value. rewrite Prim2SF_SF2Prim by apply binary_normalize_valid.
    rewrite SFvalue_binary_normalize by lia.
    change (-1074 + 1074) with 0. rewrite Z.pow_0_r, Z.mul_1_r.
    destruct (keep53_ratio_grid a b ltac:(lia) Hb) as [R [n [E [[HR0 HR] Hn]]]].
    rewrite E in *.
    destruct (Z.eq_dec R 0) as [->|NR]; [reflexivity|].
    rewrite nearest_fixed by lia. reflexivity.
  - assert (G : 2 ^ 2098 <= keep53_ratio a b).
    { destruct (Z.le_gt_cases (2 ^ 2098) (keep53_ratio a b)) as [G|G];
        [exact G|]. apply Hfin in G. lia. }
    rewrite (proj2 (Z.leb_le _ _) G). reflexivity.
Qed.

Lemma eqb_value x y :
  PrimFloat.eqb x y
  = match value x, value y with
    | Some a, Some b => match xcompare a b with Eq => true | _ => false end
    | _, _ => false
    end.
Proof.
  rewrite eqb_spec. unfold SFeqb, value.
  rewrite SFcompare_value by apply Prim2SF_valid.
  destruct (SFvalue (Prim2SF x)), (SFvalue (Prim2SF y)); reflexivity.
Qed.

Set Implicit Arguments.

Section Binary64Facts.
Context {host : Host float}.
Import utils.

(** On specification floats: adding a zero to a non-negative number and
    clamping at zero gives back a number equal to it. *)
Lemma SF_clamp_add_zero (b : spec_float) (s : bool) :
  SFleb (S754_zero false) b = true ->
  SFeqb (if SFltb (S754_zero false) (SF64add b (S754_zero s))
         then SF64add b (S754_zero s) else S754_zero false) b = true.
Proof.
  unfold SFleb, SFeqb, SFltb, SF64add.
  destruct b as [sb | sb | | sb mb eb]; simpl; try discriminate.
  - intros _. destruct sb, s; reflexivity.
  - destruct sb; simpl; [discriminate|]. intros _. reflexivity.
  - destruct sb; simpl; [discriminate|]. intros _.
    rewrite Z.compare_refl, Pos.compare_cont_refl. reflexivity.
Qed.

(** The offset of a zero variance is a zero, whatever is drawn from the
    unit interval. *)
Lemma zero_offset_binary64 (v r : float) :
  PrimFloat.eqb v 0 = true ->
  PrimFloat.leb 0 r = true -> PrimFloat.leb r 1 = true ->
  exists s, Prim2SF (- v + (v - - v) * r)%float = S754_zero s.
Proof.
  rewrite eqb_spec, !leb_spec, add_spec, mul_spec, sub_spec, !opp_spec.
  replace (Prim2SF 0) with (S754_zero false) by (vm_compute; reflexivity).
  replace (Prim2SF 1) with (S754_finite false 4503599627370496 (-52))
    by (vm_compute; reflexivity).
  unfold SFeqb, SFleb.
  destruct (Prim2SF v) as [sv | sv | | sv mv ev];
    [ intros _
    | destruct sv; intros H; cbn in H; discriminate H
    | intros H; cbn in H; discriminate H
    | destruct sv; intros H; cbn in H; discriminate H ].
  destruct (Prim2SF r) as [sr | sr | | sr mr er].
  - intros _ _. destruct sv, sr; eexists; reflexivity.
  - destruct sr; intros H0 H1; cbn in H0, H1; discriminate.
  - intros H; cbn in H; discriminate H.
  - destruct sr; intros H0 _; cbn in H0; [discriminate H0|].
    destruct sv; eexists; reflexivity.
Qed.

(** In binary64, a zero variance gives back the base delay. *)
Lemma humanize_delay_zero_variance_binary64 (base_delay variance : float) w :
  PrimFloat.leb 0 base_delay = true ->
  PrimFloat.eqb variance 0 = true ->
  PrimFloat.leb 0 (random_stream (draws w)) = true ->
  PrimFloat.leb (random_stream (draws w)) 1 = true ->
  exists d w',
    humanize_delay base_delay variance w = (Ok d, w')
    /\ PrimFloat.eqb d base_delay = true.
Proof.
  intros Hb Hv Hr0 Hr1.
  destruct (@zero_offset_binary64 variance _ Hv Hr0 Hr1) as [s Ho].
  unfold humanize_delay.
  change (ltb base_delay (of_Z 0)) with (PrimFloat.ltb base_delay 0).
  change (ltb variance (of_Z 0)) with (PrimFloat.ltb variance 0).
  assert (Hb' : PrimFloat.ltb base_delay 0 = false)
    by exact (nonneg_not_neg (F:=float) base_delay Hb).
  assert (Hv' : PrimFloat.ltb variance 0 = false).
  { revert Hv. rewrite eqb_spec, ltb_spec. unfold SFeqb, SFltb.
    destruct (SFcompare (Prim2SF variance) (Prim2SF 0)) as [[| |]|];
      congruence. }
  rewrite Hb', Hv'. eexists _, _. split; [reflexivity|].
  unfold max0, gtb.
  change (PrimFloat.eqb
            (if PrimFloat.ltb 0
                  (base_delay + (- variance + (variance - - variance)
                                 * random_stream (draws w)))
             then base_delay + (- variance + (variance - - variance)
                                * random_stream (draws w))
             else 0) base_delay = true)%float.
  set (o := (- variance + (variance - - variance)
             * random_stream (draws w))%float) in *.
  rewrite leb_spec in Hb.
  replace (Prim2SF 0) with (S754_zero false) in Hb by (vm_compute; reflexivity).
  pose proof (@SF_clamp_add_zero _ s Hb) as H.
  rewrite eqb_spec, ltb_spec.
  replace (Prim2SF 0) with (S754_zero false) by (vm_compute; reflexivity).
  rewrite add_spec, Ho.
  destruct (SFltb (S754_zero false) (SF64add (Prim2SF base_delay) (S754_zero s))).
  - rewrite add_spec, Ho. exact H.
  - replace (Prim2SF 0) with (S754_zero false) by (vm_compute; reflexivity). exact H.
Qed.
(** In binary64, for every offset in [[- variance, variance]] that the
    generator draws, the humanized delay lies between
    [max(0, base_delay - variance)] and [base_delay + variance], each
    computed in binary64. *)
Lemma humanize_delay_range_binary64 (base_delay variance : float) w :
  PrimFloat.leb 0 base_delay = true ->
  PrimFloat.leb 0 variance = true ->
  forall (offset : float) (w1 : World float),
    random_uniform (- variance)%float variance w = (Ok offset, w1) ->
    PrimFloat.leb (- variance) offset = true ->
    PrimFloat.leb offset variance = true ->
    exists d w',
      humanize_delay base_delay variance w = (Ok d, w')
      /\ PrimFloat.leb (max0 (base_delay - variance)%float) d = true
      /\ PrimFloat.leb d (base_delay + variance) = true.
Proof.
  intros Hb Hv offset w1 Hdraw Hl Hu.
  unfold humanize_delay.
  change (ltb base_delay (of_Z 0)) with (PrimFloat.ltb base_delay 0).
  change (ltb variance (of_Z 0)) with (PrimFloat.ltb variance 0).
  assert (Hb' : PrimFloat.ltb base_delay 0 = false)
    by exact (nonneg_not_neg (F:=float) base_delay Hb).
  assert (Hv' : PrimFloat.ltb variance 0 = false)
    by exact (nonneg_not_neg (F:=float) variance Hv).
  rewrite Hb', Hv'. unfold bind at 1.
  change (neg variance) with (- variance)%float. rewrite Hdraw.
  eexists _, _. split; [reflexivity|].
  exact (max0_range_binary64 base_delay variance offset Hb Hv Hl Hu).
Qed.

(** A number above a non-negative one is not negative. *)
Lemma above_nonneg_not_neg (v b : float) :
  PrimFloat.leb 0 v = true -> PrimFloat.ltb v b = true ->
  PrimFloat.ltb b 0 = false.
Proof.
  intros Hv Hb. destruct (PrimFloat.ltb b 0) eqn:E; [|reflexivity].
  apply leb_xle in Hv as (z & W & Hz & HW & Hv).
  rewrite value_zero in Hz. injection Hz as <-.
  apply ltb_xlt in Hb as (W' & B & HW' & HB & Hb).
  rewrite HW in HW'. injection HW' as <-.
  apply ltb_xlt in E as (B' & z & HB' & Hz & E).
  rewrite value_zero in Hz. injection Hz as <-.
  rewrite HB in HB'. injection HB' as <-.
  destruct W, B; cbn [xle xlt] in Hv, Hb, E; try contradiction. lia.
Qed.

(** In binary64, with [0 <= variance < base_delay], twice the variance
    finite and a draw in the unit interval, the humanized delay is
    positive. *)
Lemma humanize_delay_positive_binary64 (base_delay variance : float) w :
  PrimFloat.leb 0 variance = true ->
  PrimFloat.ltb variance base_delay = true ->
  PrimFloat.ltb (variance + variance) infinity = true ->
  PrimFloat.leb 0 (random_stream (draws w)) = true ->
  PrimFloat.leb (random_stream (draws w)) 1 = true ->
  exists d w',
    humanize_delay base_delay variance w = (Ok d, w')
    /\ PrimFloat.ltb 0 d = true.
Proof.
  intros Hv Hb Hf Hr0 Hr1.
  unfold humanize_delay.
  change (ltb base_delay (of_Z 0)) with (PrimFloat.ltb base_delay 0).
  change (ltb variance (of_Z 0)) with (PrimFloat.ltb variance 0).
  assert (Hv' : PrimFloat.ltb variance 0 = false)
    by exact (nonneg_not_neg (F:=float) variance Hv).
  rewrite (@above_nonneg_not_neg variance base_delay Hv Hb), Hv'.
  eexists _, _. split; [reflexivity|].
  pose proof (offset_sum_positive_binary64 base_delay variance
                (random_stream (draws w)) Hv Hb Hf Hr0 Hr1) as H.
  change (PrimFloat.ltb 0
            (max0 (base_delay + (- variance + (variance - - variance)
                                 * random_stream (draws w)))%float) = true).
  set (x := (base_delay + (- variance + (variance - - variance)
                           * random_stream (draws w)))%float) in *.
  change (max0 x) with (if PrimFloat.ltb 0 x then x else 0%float).
  rewrite H. exact H.
Qed.
(** The schedule of a binary64 profile with positive delays. *)
Lemma apply_typing_profile_positive_binary64 {U : Unicode}
  (text : str) (profile : profile_dict float) (w : World float)
  (base_delay variance pause_chance pause_duration : float) :
  profile_fields profile base_delay variance pause_chance pause_duration ->
  PrimFloat.leb 0 variance = true ->
  PrimFloat.ltb variance base_delay = true ->
  PrimFloat.ltb (variance + variance) infinity = true ->
  PrimFloat.ltb 0 pause_duration = true ->
  unit_draws_binary64 ->
  exists (delays : list float) (w' : World float),
    apply_typing_profile (PyStr text) profile w = (Ok delays, w')
    /\ List.length delays = List.length (supported_chars text)
    /\ Forall (fun delay => PrimFloat.ltb 0 delay = true) delays.
Proof.
  intros Hf Hv Hb Hfin Hd Hr.
  apply (@apply_typing_profile_all float _ U host
           (fun delay => PrimFloat.ltb 0 delay = true)
           text profile base_delay variance pause_chance pause_duration
           w Hf Hd).
  intros w0. destruct (Hr (draws w0)) as [Hr0 Hr1].
  apply humanize_delay_positive_binary64; assumption.
Qed.
End Binary64Facts.



(** C6.  In binary64.  A non-positive [wpm] is refused.  For a positive
    [wpm] below [12 * (2 ^ 1024 - 2 ^ 970)] the profile has
    [base_delay = 1.0 / chars_per_second], where [chars_per_second] is
    the positive float nearest to [wpm * 5 / 60], [variance =
    base_delay * r] with [r] 0.2 from 80 words per minute, 0.3 from 40
    and 0.4 below, [pause_chance = 0.05] and [pause_duration =
    base_delay * 3].  From that bound on the quotient is too large for
    a float and [OverflowError] is raised. *)
Theorem create_typing_profile_spec :
  (forall wpm : Z,
     wpm <= 0 ->
     utils.create_typing_profile (F:=float) wpm
     = Raise (ValueError "WPM must be positive"))
  /\ (forall wpm : Z,
        0 < wpm -> wpm < 12 * (2 ^ 1024 - 2 ^ 970) ->
        exists chars_per_second : float,
          int_truediv (wpm * 5) 60 = Ok chars_per_second
          /\ value chars_per_second
             = Some (Fin (keep53_ratio (wpm * 5) 60))
          /\ PrimFloat.ltb 0 chars_per_second = true
          /\ (let base_delay := (1 / chars_per_second)%float in
              let r := if 80 <=? wpm then 0.2%float
                       else if 40 <=? wpm then 0.3%float
                       else 0.4%float in
              utils.create_typing_profile wpm
              = Ok [ ("wpm"%string, PyInt wpm);
                     ("base_delay"%string, PyFloat base_delay);
                     ("variance"%string, PyFloat (base_delay * r)%float);
                     ("pause_chance"%string, PyFloat 0.05%float);
                     ("pause_duration"%string,
                      PyFloat (base_delay * 3)%float) ]))
  /\ (forall wpm : Z,
        12 * (2 ^ 1024 - 2 ^ 970) <= wpm ->
        utils.create_typing_profile (F:=float) wpm
        = Raise (OverflowError
                   "integer division result too large for a float")).
Proof.
  assert (Hthr : 2 ^ 1025 - 2 ^ 971 = 2 * (2 ^ 1024 - 2 ^ 970)).
  { change 1025 with (1 + 1024). change 971 with (1 + 970).
    rewrite !Z.pow_add_r by lia. change (2 ^ 1) with 2. lia. }
  assert (Hpos : 0 < 2 ^ 1024 - 2 ^ 970).
  { assert (2 ^ 970 < 2 ^ 1024) by (apply Z.pow_lt_mono_r; lia). lia. }
  split; [|split].
  - intros wpm H. unfold utils.create_typing_profile.
    rewrite (proj2 (Z.leb_le _ _) H). reflexivity.
  - intros wpm H Hlt.
    destruct (long_true_divide_value (wpm * 5) 60 ltac:(lia) ltac:(lia))
      as [Hok _].
    destruct Hok as [x [Hx [Hv Hp]]]; [rewrite Hthr; lia|].
    assert (Hu : 0 < keep53_ratio (wpm * 5) 60).
    { apply Hp.
      assert (2 ^ 4 <= 2 ^ 1074) by (apply Z.pow_le_mono_r; lia).
      change (2 ^ 4) with 16 in *. nia. }
    exists x. split; [exact Hx|]. split; [exact Hv|].
    assert (Hz : value 0%float = Some (Fin 0)) by reflexivity.
    split.
    + rewrite ltb_value, Hz, Hv. unfold xltb. cbn [xcompare].
      rewrite (proj2 (Z.compare_lt_iff _ _) Hu). reflexivity.
    + unfold utils.create_typing_profile.
      rewrite (proj2 (Z.leb_gt _ _) H).
      change (int_truediv (wpm * 5) 60) with (long_true_divide (wpm * 5) 60).
      rewrite Hx. cbn [rbind]. unfold utils.float_truediv.
      change (eqb x (of_Z 0)) with (PrimFloat.eqb x 0).
      rewrite eqb_value, Hv, Hz. cbn [xcompare].
      rewrite (proj2 (Z.compare_gt_iff _ _) Hu). cbn [rbind].
      rewrite !Z.geb_leb.
      destruct (80 <=? wpm); [reflexivity|].
      destruct (40 <=? wpm); reflexivity.
  - intros wpm H. unfold utils.create_typing_profile.
    assert (Hw : 0 < wpm) by lia.
    rewrite (proj2 (Z.leb_gt _ _) Hw).
    destruct (long_true_divide_value (wpm * 5) 60 ltac:(lia) ltac:(lia))
      as [_ Hov].
    change (int_truediv (wpm * 5) 60) with (long_true_divide (wpm * 5) 60).
    rewrite Hov by (rewrite Hthr; lia). reflexivity.
Qed.

(** C2 as stated fails, in binary64 on a host like CPython's: with the
    delay [1e10], which is not negative, [time.sleep] raises
    [OverflowError] after the first character of ["ab"], and the second
    is never typed. *)
Theorem type_string_aborts :
  ~ (forall (host : Host float) (text : str) (delay : float)
            (w : World float),
       leb (of_Z 0) delay = true ->
       exists (bs : list bool) (w' : World float),
         wininput.type_string (PyStr text) delay w
         = (Ok (forallb (fun b => b) bs), w')
         /\ typed delay text w bs w'
         /\ List.length bs = List.length text).
Proof.
  intros H.
  destruct (H (cpython_host (fun _ => 0%float)) (lit "ab") 1e10%float
              initial eq_refl)
    as [bs [w' [Hrun _]]].
  vm_compute in Hrun. discriminate Hrun.
Qed.

(** C6 as stated fails: a positive [wpm] for which no profile is
    returned. *)
Theorem create_typing_profile_overflow :
  ~ (forall wpm : Z,
       0 < wpm ->
       exists profile,
         utils.create_typing_profile (F:=float) wpm = Ok profile).
Proof.
  intros H. destruct (H (10 ^ 400) eq_refl) as [profile Hrun].
  vm_compute in Hrun. discriminate Hrun.
Qed.

(** C7.  With a non-negative base delay and variance, and whatever
    offset in [[-variance, variance]] the generator draws, the humanized
    delay lies in [[max(0, base_delay - variance), base_delay +
    variance]].  This holds over the rationals, where a zero variance
    also gives exactly the base delay, and in binary64, where the two
    bounds are the numbers Python computes for them and [<=] is its
    comparison of floats.  In binary64 with a zero variance and a draw
    in the unit interval the humanized delay equals the base delay, as
    in [humanize_delay(0.1, 0.0) == 0.1]. *)
Theorem humanize_delay_range :
  (forall (host : Host Q) (base_delay variance : Q) (w : World Q),
     (0 <= base_delay)%Q -> (0 <= variance)%Q ->
     forall (offset : Q) (w1 : World Q),
       utils.random_uniform (- variance)%Q variance w = (Ok offset, w1) ->
       (- variance <= offset <= variance)%Q ->
       exists (d : Q) (w' : World Q),
         utils.humanize_delay base_delay variance w = (Ok d, w')
         /\ (utils.max0 (base_delay - variance) <= d
             <= base_delay + variance)%Q
         /\ (variance == 0 -> d == base_delay)%Q)
  /\ (forall (host : Host float) (base_delay variance : float)
             (w : World float),
        PrimFloat.leb 0 base_delay = true ->
        PrimFloat.leb 0 variance = true ->
        forall (offset : float) (w1 : World float),
          utils.random_uniform (- variance)%float variance w
          = (Ok offset, w1) ->
          PrimFloat.leb (- variance) offset = true ->
          PrimFloat.leb offset variance = true ->
          exists (d : float) (w' : World float),
            utils.humanize_delay base_delay variance w = (Ok d, w')
            /\ PrimFloat.leb (utils.max0 (base_delay - variance)%float) d
               = true
            /\ PrimFloat.leb d (base_delay + variance) = true)
  /\ (forall (host : Host float) (base_delay variance : float)
             (w : World float),
        PrimFloat.leb 0 base_delay = true ->
        PrimFloat.eqb variance 0 = true ->
        PrimFloat.leb 0 (random_stream (draws w)) = true ->
        PrimFloat.leb (random_stream (draws w)) 1 = true ->
        exists (d : float) (w' : World float),
          utils.humanize_delay base_delay variance w = (Ok d, w')
          /\ PrimFloat.eqb d base_delay = true).
Proof.
  split; [|split].
  - intros host base_delay variance w Hb Hv offset w1 Hdraw Ho.
    apply (@humanize_delay_drawn host base_delay variance w Hb Hv offset w1
             Hdraw Ho).
  - intros host base_delay variance w Hb Hv offset w1 Hdraw Hl Hu.
    apply (@humanize_delay_range_binary64 host base_delay variance w Hb Hv
             offset w1 Hdraw Hl Hu).
  - intros host base_delay variance w.
    apply humanize_delay_zero_variance_binary64.
Qed.

(** C9, as the code has it.  In every number type a schedule that is
    returned has one delay for each supported character of the text.
    For a profile with [0 <= variance < base_delay] and
    [pause_duration > 0], as [create_typing_profile] builds them, and a
    generator with values in the unit interval, the schedule is returned
    and every delay in it is positive: over the rationals, and in
    binary64 when twice the variance is finite. *)
Theorem apply_typing_profile_delays :
  (forall (F : Type) (num : Number F) (U : Unicode) (host : Host F)
          (text : str) (profile : utils.profile_dict F) (w : World F)
          (delays : list F) (w' : World F),
     utils.apply_typing_profile (PyStr text) profile w = (Ok delays, w') ->
     List.length delays = List.length (supported_chars text))
  /\ (forall (U : Unicode) (host : Host Q)
             (text : str) (profile : utils.profile_dict Q) (w : World Q)
             (base_delay variance pause_chance pause_duration : Q),
        profile_fields profile base_delay variance pause_chance
                       pause_duration ->
        (0 <= variance)%Q -> (variance < base_delay)%Q ->
        (0 < pause_duration)%Q ->
        unit_draws ->
        exists (delays : list Q) (w' : World Q),
          utils.apply_typing_profile (PyStr text) profile w = (Ok delays, w')
          /\ List.length delays = List.length (supported_chars text)
          /\ Forall (fun delay => (0 < delay)%Q) delays)
  /\ (forall (U : Unicode) (host : Host float)
             (text : str) (profile : utils.profile_dict float)
             (w : World float)
             (base_delay variance pause_chance pause_duration : float),
        profile_fields profile base_delay variance pause_chance
                       pause_duration ->
        PrimFloat.leb 0 variance = true ->
        PrimFloat.ltb variance base_delay = true ->
        PrimFloat.ltb (variance + variance) infinity = true ->
        PrimFloat.ltb 0 pause_duration = true ->
        unit_draws_binary64 ->
        exists (delays : list float) (w' : World float),
          utils.apply_typing_profile (PyStr text) profile w = (Ok delays, w')
          /\ List.length delays = List.length (supported_chars text)
          /\ Forall (fun delay => PrimFloat.ltb 0 delay = true) delays).
Proof.
  split; [|split].
  - intros F num U host text profile w delays w'.
    apply apply_typing_profile_length.
  - intros U host text profile w b v p d.
    apply apply_typing_profile_run.
  - intros U host text profile w b v p d.
    apply apply_typing_profile_positive_binary64.
Qed.

(** C9 as stated fails: a dictionary with the four keys, all zero, gives
    the supported character ["a"] the delay 0, which is not positive. *)
Lemma apply_typing_profile_zero_delay :
  ~ (forall (host : Host Q) (text : str) (profile : utils.profile_dict Q)
            (w : World Q),
       (forall key, In key utils.required_keys ->
                    dict_contains String.eqb profile key = true) ->
       exists (delays : list Q) (w' : World Q),
         utils.apply_typing_profile (PyStr text) profile w = (Ok delays, w')
         /\ List.length delays = List.length (supported_chars text)
         /\ Forall (fun delay => (0 < delay)%Q) delays).
Proof.
  intros H.
  destruct (H (success_host (fun _ => 0%Q)) (lit "a")
              [("base_delay"%string, 0%Q); ("variance"%string, 0%Q);
               ("pause_chance"%string, 0%Q); ("pause_duration"%string, 0%Q)]
              initial)
    as [delays [w' [Hrun [_ Hpos]]]].
  - intros key Hin. simpl in Hin.
    repeat (destruct Hin as [<-|Hin]; [reflexivity|]). destruct Hin.
  - vm_compute in Hrun. injection Hrun as <- _.
    inversion Hpos as [|x l Hx _]. discriminate Hx.
Qed.

(* ================================================================= *)
(** ** The support predicate and the typist *)

Section Support.
Context {F : Type} {num : Number F} {host : Host F}.
Import constants.

(** C1.  The predicate accepts U+212A KELVIN SIGN, an upper-case letter
    whose lower case is ["k"], but typing it takes the unsupported
    branch: it is not in [SHIFT_CHARS] and has no entry of its own, so
    the warning goes to [print] and, when [print] returns, the result
    is false. *)
Theorem kelvin_sign_supported_not_typed (w : World F) :
  utils._is_char_supported [KELVIN_SIGN] = true
  /\ wininput._type_character [KELVIN_SIGN] w
     = match print_answer (events w) (wininput.warning [KELVIN_SIGN]) with
       | None =>
           (Ok false, after w [EPrint (wininput.warning [KELVIN_SIGN])])
       | Some e => (Raise e, w)
       end.
Proof.
  split; [reflexivity|].
  change (wininput._type_character [KELVIN_SIGN] w)
    with (bind (print (wininput.warning [KELVIN_SIGN]))
               (fun _ => ret false) w).
  unfold bind, print.
  destruct (print_answer (events w) (wininput.warning [KELVIN_SIGN]));
    reflexivity.
Qed.

(** With an injector that always succeeds, typing a character returns
    true exactly when its stroke is a tap. *)
Lemma type_character_taps {U : Unicode} c w :
  succeeds host ->
  (fst (wininput._type_character [c] w) = Ok true
   <-> taps (wininput._type_character (host:=obliging) [c]) = true).
Proof.
  intros Hs. destruct (type_character_stroke c) as [e [Hk [Hst He]]].
  rewrite He. unfold taps. fold (stroke c). rewrite Hst.
  destruct Hk as [[vk [_ [-> | ->]]] | ->].
  - cbn [attempt outcome fst]. unfold sent_ok. rewrite Hs, Z.eqb_refl.
    split; reflexivity.
  - cbn [attempt outcome fst]. unfold sent_ok. rewrite Hs, Z.eqb_refl.
    split; reflexivity.
  - cbn [attempt]. unfold bind, print.
    destruct (print_answer (events w) (wininput.warning [c]));
      cbn [fst]; split; discriminate.
Qed.

Lemma dict_get_not_ascii {V} (d : list (str * V)) (c : char) :
  forallb (fun kv => ascii_key (fst kv)) d = true ->
  (128 <= c)%N -> dict_get str_eqb d [c] = None.
Proof.
  intros Hd Hc. induction d as [|[k v] d IH]; [reflexivity|].
  cbn [forallb fst] in Hd. apply andb_true_iff in Hd as [Hk Hd].
  cbn [dict_get]. destruct (str_eqb [c] k) eqn:E; [|apply IH, Hd].
  apply str_eqb_eq in E. subst k. simpl in Hk. apply N.ltb_lt in Hk. lia.
Qed.

Lemma set_contains_not_ascii (s : list str) (c : char) :
  forallb ascii_key s = true ->
  (128 <= c)%N -> set_contains str_eqb s [c] = false.
Proof.
  intros Hd Hc. induction s as [|k s IH]; [reflexivity|].
  cbn [forallb] in Hd. apply andb_true_iff in Hd as [Hk Hd].
  unfold set_contains. cbn [existsb]. fold (set_contains str_eqb s [c]).
  rewrite (IH Hd), orb_false_r.
  destruct (str_eqb [c] k) eqn:E; [|reflexivity].
  apply str_eqb_eq in E. subst k. simpl in Hk. apply N.ltb_lt in Hk. lia.
Qed.

(** On every other code point the predicate and the typist agree. *)
Lemma support_agrees_elsewhere (c : char) (w : World F) :
  succeeds host -> c <> KELVIN_SIGN ->
  (utils._is_char_supported [c] = true
   <-> fst (wininput._type_character [c] w) = Ok true).
Proof.
  intros Hs Hc. rewrite (type_character_taps c w Hs).
  assert (Heq : utils._is_char_supported [c]
                = taps (wininput._type_character (host:=obliging) [c])).
  { destruct (N.ltb_spec c 128) as [Hlt|Hge].
    - assert (Hall : forallb (fun n =>
                Bool.eqb (utils._is_char_supported [N.of_nat n])
                         (taps (wininput._type_character (host:=obliging)
                                  [N.of_nat n])))
                (seq 0 128) = true) by (vm_compute; reflexivity).
      rewrite forallb_forall in Hall.
      specialize (Hall (N.to_nat c)). rewrite N2Nat.id in Hall.
      apply eqb_prop, Hall, in_seq. lia.
    - assert (Hk : (c =? KELVIN_SIGN)%N = false) by (apply N.eqb_neq, Hc).
      assert (Hu : ascii_upper c = false).
      { unfold ascii_upper. apply andb_false_iff. right.
        apply N.leb_gt. lia. }
      unfold utils._is_char_supported, taps, emitted,
        wininput._type_character.
      cbn [List.length Nat.eqb negb isupper isupper_cp py_unicode].
      unfold dict_contains.
      rewrite (@dict_get_not_ascii _ CHAR_TO_VK c eq_refl Hge).
      rewrite (@set_contains_not_ascii SHIFT_CHARS c eq_refl Hge).
      rewrite Hu, Hk. reflexivity. }
  rewrite Heq. reflexivity.
Qed.
End Support.

(* ================================================================= *)
(** ** Facts about the text utilities *)
Section StringFacts.
Import constants.

Lemma replace_single (a : char) (new s : str) :
  replace_from [a] new 0 s
  = flat_map (fun c => if (c =? a)%N then new else [c]) s.
Proof.
  induction s as [|c rest IH]; [reflexivity|].
  cbn [replace_from startswith List.length Nat.sub flat_map].
  rewrite N.eqb_sym, andb_true_r.
  destruct (c =? a)%N; rewrite IH; reflexivity.
Qed.

Lemma replace_pair (a b : char) (new : str) (c : char) (rest : str) :
  replace_from [a; b] new 0 (c :: rest)
  = match rest with
    | d :: rest' =>
        if (c =? a)%N && (d =? b)%N
        then new ++ replace_from [a; b] new 0 rest'
        else c :: replace_from [a; b] new 0 rest
    | [] => [c]
    end.
Proof.
  cbn [replace_from startswith List.length Nat.sub].
  rewrite (N.eqb_sym a c).
  destruct rest as [|d rest'].
  - destruct (c =? a)%N; reflexivity.
  - cbn [startswith]. rewrite (N.eqb_sym b d), andb_true_r.
    destruct ((c =? a)%N && (d =? b)%N); reflexivity.
Qed.

(** Induction two characters at a time. *)
Lemma str_ind2 (P : str -> Prop) :
  P [] -> (forall c, P [c]) ->
  (forall c d rest, P rest -> P (d :: rest) -> P (c :: d :: rest)) ->
  forall s, P s.
Proof.
  intros H0 H1 H2 s.
  assert (H : P s /\ forall c, P (c :: s)); [|exact (proj1 H)].
  induction s as [|d rest [IH1 IH2]].
  - split; [exact H0 | exact H1].
  - split; [apply IH2|]. intros c. apply H2; [exact IH1 | apply IH2].
Qed.

Lemma retarget_cons2 t c d rest :
  retarget t (c :: d :: rest)
  = if (c =? 13)%N then
      if (d =? 10)%N then t ++ retarget t rest
      else t ++ retarget t (d :: rest)
    else if (c =? 10)%N then t ++ retarget t (d :: rest)
    else c :: retarget t (d :: rest).
Proof. reflexivity. Qed.

(** The three passes of [normalize_line_endings] are one pass. *)
Lemma passes_retarget (t s : str) :
  flat_map (fun c => if (c =? 10)%N then t else [c])
    (flat_map (fun c => if (c =? 13)%N then [10%N] else [c])
       (replace_from [13%N; 10%N] [10%N] 0 s))
  = retarget t s.
Proof.
  induction s as [|c|c d rest IH1 IH2] using str_ind2.
  - reflexivity.
  - rewrite replace_pair. cbn [retarget flat_map app].
    destruct (c =? 13)%N; cbn [flat_map app N.eqb Pos.eqb];
      [|destruct (c =? 10)%N]; rewrite ?app_nil_r; reflexivity.
  - rewrite replace_pair, retarget_cons2.
    destruct (N.eqb_spec c 13) as [->|H13]; cbn [andb].
    + destruct (d =? 10)%N.
      * cbn [app flat_map N.eqb Pos.eqb]. f_equal. exact IH1.
      * cbn [flat_map N.eqb Pos.eqb app]. f_equal. exact IH2.
    + cbn [flat_map]. rewrite (proj2 (N.eqb_neq _ _) H13). cbn [app flat_map].
      destruct (c =? 10)%N; cbn [app]; f_equal; exact IH2.
Qed.
End StringFacts.

Lemma flat_map_same (a : char) (u : str) :
  flat_map (fun c => if (c =? a)%N then [a] else [c]) u = u.
Proof.
  induction u as [|c u IH]; [reflexivity|].
  cbn [flat_map]. rewrite IH. destruct (N.eqb_spec c a) as [->|]; reflexivity.
Qed.

Section NormalizeFacts.
Context {F : Type}.
Import constants.

Lemma normalize_line_endings_run (s t : str) :
  utils.normalize_line_endings (F:=F) (PyStr s) (PyStr t)
  = if set_contains str_eqb [LF; CR ++ LF; CR] t then Ok (retarget t s)
    else Raise (ValueError "Target must be '\n', '\r\n', or '\r'").
Proof.
  unfold utils.normalize_line_endings.
  destruct (set_contains str_eqb [LF; CR ++ LF; CR] t) eqn:Ht;
    cbn [negb]; [|reflexivity].
  change LF with [10%N]. change CR with [13%N]. cbn [app].
  unfold str_replace.
  rewrite (replace_single 13%N [10%N]).
  destruct (str_eqb t [10%N]) eqn:E; cbn [negb].
  - apply str_eqb_eq in E. subst t. f_equal.
    rewrite <- passes_retarget. symmetry. apply flat_map_same.
  - f_equal. rewrite <- passes_retarget. apply replace_single.
Qed.
End NormalizeFacts.

Section RetargetFacts.
Import constants.

Lemma target_line_ending (t : str) :
  set_contains str_eqb [LF; CR ++ LF; CR] t = true <-> line_ending t.
Proof.
  unfold set_contains, line_ending. cbn [existsb].
  rewrite !orb_true_iff, !str_eqb_eq. unfold LF, CR. cbn [app].
  intuition congruence.
Qed.

Lemma retarget_other t (c : char) (u : str) :
  c <> 13%N -> c <> 10%N -> retarget t (c :: u) = c :: retarget t u.
Proof.
  intros H13 H10. cbn [retarget].
  rewrite (proj2 (N.eqb_neq _ _) H13), (proj2 (N.eqb_neq _ _) H10).
  reflexivity.
Qed.

(** A line-ending character that the target does not contain does not
    occur in the result. *)
Lemma retarget_free (t : str) (k : char) (s : str) :
  k = 10%N \/ k = 13%N -> ~ In k t -> ~ In k (retarget t s).
Proof.
  intros Hk Ht.
  induction s as [|c|c d rest IH1 IH2] using str_ind2.
  - intros [].
  - cbn [retarget].
    destruct (N.eqb_spec c 13) as [->|H13]; [exact Ht|].
    destruct (N.eqb_spec c 10) as [->|H10]; [rewrite app_nil_r; exact Ht|].
    intros [<-|[]]. destruct Hk; contradiction.
  - rewrite retarget_cons2.
    destruct (N.eqb_spec c 13) as [->|H13].
    + destruct (d =? 10)%N; intros H; apply in_app_or in H;
        destruct H; auto.
    + destruct (N.eqb_spec c 10) as [->|H10].
      * intros H; apply in_app_or in H; destruct H; auto.
      * intros [<-|H]; [destruct Hk; contradiction | auto].
Qed.

Lemma retarget_target a b (u : str) :
  line_ending a -> (a = [13%N] -> ~ In 10%N u) ->
  retarget b (a ++ u) = b ++ retarget b u.
Proof.
  intros [ -> | [ -> | -> ] ] Hu; [reflexivity | reflexivity |].
  cbn [app retarget N.eqb Pos.eqb].
  destruct u as [|d u']; [rewrite app_nil_r; reflexivity|].
  destruct (N.eqb_spec d 10) as [->|H10]; [|reflexivity].
  exfalso. apply (Hu eq_refl). left. reflexivity.
Qed.

(** Normalizing to [a] and then to [b] is normalizing to [b]. *)
Lemma retarget_retarget a b (s : str) :
  line_ending a -> retarget b (retarget a s) = retarget b s.
Proof.
  intros Ha.
  assert (Hfree : forall x, a = [13%N] -> ~ In 10%N (retarget a x)).
  { intros x ->. apply retarget_free; [left; reflexivity|].
    intros [H|[]]. discriminate H. }
  assert (Hend : retarget b a = b).
  { rewrite <- (app_nil_r a), retarget_target, app_nil_r;
      [reflexivity | exact Ha | intros _ []]. }
  induction s as [|c|c d rest IH1 IH2] using str_ind2.
  - reflexivity.
  - cbn [retarget].
    destruct (N.eqb_spec c 13) as [->|H13]; [exact Hend|].
    destruct (N.eqb_spec c 10) as [->|H10].
    + rewrite !app_nil_r. exact Hend.
    + cbn [retarget]. rewrite (proj2 (N.eqb_neq _ _) H13),
        (proj2 (N.eqb_neq _ _) H10). reflexivity.
  - rewrite !retarget_cons2.
    destruct (N.eqb_spec c 13) as [->|H13].
    + destruct (d =? 10)%N; rewrite retarget_target by auto;
        f_equal; assumption.
    + destruct (N.eqb_spec c 10) as [->|H10].
      * rewrite retarget_target by auto. f_equal. assumption.
      * rewrite retarget_other by assumption. f_equal. assumption.
Qed.

(** A text without line endings is left as it is. *)
Lemma retarget_plain t (s : str) :
  ~ In 10%N s -> ~ In 13%N s -> retarget t s = s.
Proof.
  induction s as [|c rest IH]; [reflexivity|].
  intros H10 H13. rewrite retarget_other.
  - f_equal. apply IH; intros H; [apply H10 | apply H13]; right; exact H.
  - intros ->. apply H13. left. reflexivity.
  - intros ->. apply H10. left. reflexivity.
Qed.
End RetargetFacts.

Section EscapeFacts.
Context {F : Type}.
Import constants.

Lemma flat_map_flat_map {A B C} (f : A -> list B) (g : B -> list C) l :
  flat_map g (flat_map f l) = flat_map (fun a => flat_map g (f a)) l.
Proof.
  induction l as [|a l IH]; [reflexivity|].
  cbn [flat_map]. rewrite flat_map_app, IH. reflexivity.
Qed.

Lemma str_replace_single (s : str) (a : char) (new : str) :
  str_replace s [a] new
  = flat_map (fun c => if (c =? a)%N then new else [c]) s.
Proof. apply replace_single. Qed.

(** The seven replacements of [escape_special_chars] are one pass that
    looks every character up in [escape_map]. *)
Lemma escape_special_chars_run (s : str) :
  utils.escape_special_chars (F:=F) (PyStr s) = Ok (flat_map escape_char s).
Proof.
  unfold utils.escape_special_chars, utils.escape_map.
  cbn [fold_left fst snd]. unfold LF, CR, TAB.
  rewrite !str_replace_single, !flat_map_flat_map.
  f_equal. apply flat_map_ext. intros c.
  unfold escape_char, utils.escape_map, LF, CR, TAB.
  cbn [dict_get str_eqb]. rewrite !andb_true_r.
  repeat (cbn [flat_map app]; rewrite ?app_nil_r;
          match goal with
          | |- context [N.eqb c ?k] =>
              destruct (N.eqb_spec c k); [subst c; reflexivity|]
          end).
  reflexivity.
Qed.

Lemma escape_char_cases (c : char) :
  (dict_get str_eqb utils.escape_map [c] = None /\ escape_char c = [c])
  \/ (exists e, dict_get str_eqb utils.escape_map [c] = Some e
                /\ escape_char c = e
                /\ In ([c], e) utils.escape_map).
Proof.
  unfold escape_char.
  destruct (dict_get str_eqb utils.escape_map [c]) as [e|] eqn:E.
  - right. exists e. repeat split.
    revert E. generalize utils.escape_map as d.
    induction d as [|[k v] d IH]; [discriminate|].
    cbn [dict_get]. destruct (str_eqb [c] k) eqn:Ek.
    + intros [= ->]. apply str_eqb_eq in Ek. subst k. left. reflexivity.
    + intros H. right. apply IH, H.
  - left. split; reflexivity.
Qed.

(** No character of the result has an entry in [escape_map]. *)
Lemma escape_char_clean (c x : char) :
  In x (escape_char c) -> dict_get str_eqb utils.escape_map [x] = None.
Proof.
  destruct (escape_char_cases c) as [[Hn ->]|[e [_ [-> Hin]]]].
  - intros [<-|[]]. exact Hn.
  - unfold utils.escape_map in Hin. cbn [In] in Hin.
    repeat (destruct Hin as [Hin|Hin];
            [injection Hin as _ <-; intros [<-|[<-|[]]]; reflexivity|]).
    destruct Hin.
Qed.

Lemma escape_clean_fixed (s : str) :
  Forall (fun x => dict_get str_eqb utils.escape_map [x] = None) s ->
  flat_map escape_char s = s.
Proof.
  induction 1 as [|x s Hx _ IH]; [reflexivity|].
  cbn [flat_map]. rewrite IH. unfold escape_char. rewrite Hx. reflexivity.
Qed.

Lemma escape_result_clean (s : str) :
  Forall (fun x => dict_get str_eqb utils.escape_map [x] = None)
         (flat_map escape_char s).
Proof.
  apply Forall_forall. intros x Hx. apply in_flat_map in Hx as [c [_ Hc]].
  exact (escape_char_clean _ _ Hc).
Qed.
End EscapeFacts.

Section ValidateFacts.
Context {F : Type} {U : Unicode}.
Import constants utils.

Lemma set_contains_In (l : list str) (x : str) :
  set_contains str_eqb l x = true <-> In x l.
Proof.
  unfold set_contains. rewrite existsb_exists. split.
  - intros [y [Hy E]]. apply str_eqb_eq in E. subst y. exact Hy.
  - intros H. exists x. split; [exact H | apply str_eqb_eq; reflexivity].
Qed.

Lemma set_contains_app (l1 l2 : list str) (x : str) :
  set_contains str_eqb (l1 ++ l2) x
  = set_contains str_eqb l1 x || set_contains str_eqb l2 x.
Proof. apply existsb_app. Qed.

Lemma filter_filter {A} (f g : A -> bool) l :
  filter f (filter g l) = filter (fun x => g x && f x) l.
Proof.
  induction l as [|a l IH]; [reflexivity|].
  cbn [filter]. destruct (g a); cbn [filter andb]; rewrite IH; reflexivity.
Qed.

Lemma str_eqb_refl (x : str) : str_eqb x x = true.
Proof. apply str_eqb_eq. reflexivity. Qed.

(** The loop appends the first occurrences that are not listed yet. *)
Lemma unsupported_loop_run (s : str) (acc : list str) :
  unsupported_loop s acc
  = acc ++ filter (fun y => negb (set_contains str_eqb acc y))
             (first_occurrences (unsupported_chars s)).
Proof.
  revert acc. induction s as [|c rest IH]; intros acc.
  - cbn. rewrite app_nil_r. reflexivity.
  - cbn [unsupported_loop]. unfold unsupported_chars. cbn [filter].
    destruct (_is_char_supported [c]); cbn [negb]; [apply IH|].
    fold (unsupported_chars rest). cbn [map first_occurrences filter].
    destruct (set_contains str_eqb acc [c]) eqn:E; cbn [negb].
    + rewrite IH. f_equal. rewrite filter_filter.
      apply filter_ext_in. intros y _.
      destruct (str_eqb y [c]) eqn:Ey; cbn [negb andb]; [|reflexivity].
      apply str_eqb_eq in Ey. subst y. rewrite E. reflexivity.
    + rewrite IH, <- app_assoc. cbn [app]. do 2 f_equal.
      rewrite filter_filter. apply filter_ext. intros y.
      rewrite set_contains_app. cbn [set_contains existsb].
      rewrite orb_false_r, negb_orb, andb_comm. reflexivity.
Qed.

Lemma first_occurrences_In (l : list str) (x : str) :
  In x (first_occurrences l) <-> In x l.
Proof.
  induction l as [|y l IH]; [reflexivity|].
  cbn [first_occurrences In]. rewrite filter_In, IH.
  split.
  - intros [H|[H _]]; auto.
  - intros [H|H]; [left; exact H|].
    destruct (str_eqb x y) eqn:E.
    + left. apply str_eqb_eq in E. congruence.
    + right. split; [exact H | reflexivity].
Qed.

Lemma first_occurrences_NoDup (l : list str) : NoDup (first_occurrences l).
Proof.
  induction l as [|y l IH]; [constructor|].
  cbn [first_occurrences]. constructor.
  - intros H. apply filter_In in H as [_ H].
    rewrite str_eqb_refl in H. discriminate H.
  - apply NoDup_filter, IH.
Qed.

Lemma unsupported_chars_In (s : str) (x : str) :
  In x (unsupported_chars s)
  <-> exists c, x = [c] /\ In c s /\ _is_char_supported [c] = false.
Proof.
  unfold unsupported_chars. rewrite in_map_iff. split.
  - intros [c [<- H]]. apply filter_In in H as [H1 H2].
    exists c. repeat split; [exact H1|]. apply negb_true_iff, H2.
  - intros [c [-> [H1 H2]]]. exists c. split; [reflexivity|].
    apply filter_In. split; [exact H1 | apply negb_true_iff, H2].
Qed.

Lemma validate_text_run (s : str) :
  validate_text (F:=F) (PyStr s)
  = Ok (forallb (fun c => _is_char_supported [c]) s,
        first_occurrences (unsupported_chars s)).
Proof.
  unfold validate_text. rewrite unsupported_loop_run. cbn [app].
  rewrite (filter_ext _ (fun _ => true)) by reflexivity.
  assert (Hid : forall l : list str, filter (fun _ => true) l = l).
  { induction l as [|a l IH]; [reflexivity|]. cbn. rewrite IH. reflexivity. }
  rewrite Hid. do 2 f_equal.
  unfold unsupported_chars.
  induction s as [|c rest IH]; [reflexivity|].
  cbn [filter forallb].
  destruct (_is_char_supported [c]); cbn [negb andb map first_occurrences];
    [exact IH | reflexivity].
Qed.
End ValidateFacts.

(* ================================================================= *)
(** ** Facts about the key functions on any argument *)

Section KeyFacts.
Context {F : Type} {num : Number F} {U : Unicode} {host : Host F}.
Import constants wininput.
Local Open Scope py_scope.

Lemma press_key_run vk w :
  valid_key vk ->
  press_key (PyInt vk) w
  = (Ok (sent_ok w [key_down vk]), after w [ESendInput [key_down vk]]).
Proof.
  intros Hvk. unfold press_key. rewrite (invalid_code_int Hvk).
  rewrite (@create_key_down F (PyInt vk) vk eq_refl Hvk).
  unfold bind at 1, lift at 1.
  apply send_input_run. discriminate.
Qed.

Lemma release_key_run vk w :
  valid_key vk ->
  release_key (PyInt vk) w
  = (Ok (sent_ok w [key_up vk]), after w [ESendInput [key_up vk]]).
Proof.
  intros Hvk. unfold release_key. rewrite (invalid_code_int Hvk).
  rewrite (@create_key_up F (PyInt vk) vk eq_refl Hvk).
  unfold bind at 1, lift at 1.
  apply send_input_run. discriminate.
Qed.

Lemma press_loop_run ms w :
  Forall valid_key ms ->
  for_each (map PyInt ms) (fun modifier =>
    if invalid_code modifier then
      raise (ValueError "Invalid modifier key code")
    else press_key modifier ;; ret tt) w
  = (Ok tt, after w (presses ms)).
Proof.
  intros H. revert w. induction H as [|m ms Hm _ IH]; intros w.
  - unfold presses. cbn [map for_each]. unfold ret.
    rewrite after_nil. reflexivity.
  - cbn [map for_each]. rewrite (invalid_code_int Hm).
    unfold bind at 1. unfold bind at 1. rewrite (press_key_run w Hm).
    unfold ret at 1. rewrite IH. unfold presses. cbn [map].
    rewrite after_after. reflexivity.
Qed.

Lemma release_loop_run ms w :
  Forall valid_key ms ->
  for_each (map PyInt ms) (fun modifier => release_key modifier ;; ret tt) w
  = (Ok tt, after w (map (fun m => ESendInput [key_up m]) ms)).
Proof.
  intros H. revert w. induction H as [|m ms Hm _ IH]; intros w.
  - cbn [map for_each]. unfold ret. rewrite after_nil. reflexivity.
  - cbn [map for_each].
    unfold bind at 1. unfold bind at 1. rewrite (release_key_run w Hm).
    unfold ret at 1. rewrite IH. cbn [map].
    rewrite after_after. reflexivity.
Qed.

Lemma with_modifiers_run {A} (ms : list Z) (block : M F A) w :
  Forall valid_key ms ->
  with_modifiers (PyList (map PyInt ms)) block w
  = (fst (block (after w (presses ms))),
     after (snd (block (after w (presses ms)))) (releases ms)).
Proof.
  intros H. unfold with_modifiers.
  unfold bind at 1. rewrite (press_loop_run w H).
  unfold try_finally.
  destruct (block (after w (presses ms))) as [r w1]. cbn [fst snd].
  rewrite <- map_rev.
  rewrite (release_loop_run w1 (Forall_rev H)).
  reflexivity.
Qed.

Lemma press_loop_stops good bad rest w :
  Forall valid_key good -> invalid_code bad = true ->
  for_each (map PyInt good ++ bad :: rest) (fun modifier =>
    if invalid_code modifier then
      raise (ValueError "Invalid modifier key code")
    else press_key modifier ;; ret tt) w
  = (Raise (ValueError "Invalid modifier key code"), after w (presses good)).
Proof.
  intros H Hbad. revert w. induction H as [|m ms Hm _ IH]; intros w.
  - unfold presses. cbn [map app for_each]. rewrite Hbad.
    unfold bind, raise. rewrite after_nil. reflexivity.
  - cbn [map app for_each]. rewrite (invalid_code_int Hm).
    unfold bind at 1. unfold bind at 1. rewrite (press_key_run w Hm).
    unfold ret at 1. rewrite IH. unfold presses. cbn [map].
    rewrite after_after. reflexivity.
Qed.
End KeyFacts.

Section InjectionFacts.
Context {F : Type} {num : Number F} {U : Unicode} {host : Host F}.
Import constants wininput.
Local Open Scope py_scope.

Lemma press_modifiers_general (mods : list (pyobj F)) inputs out :
  press_modifiers mods inputs = Ok out ->
  exists ks, Forall valid_key ks
             /\ map (@as_int F) mods = map Some ks
             /\ out = inputs ++ map key_down ks.
Proof.
  revert inputs. induction mods as [|o mods IH]; intros inputs.
  - cbn. intros [= <-]. exists []. rewrite app_nil_r. repeat split.
    constructor.
  - cbn [press_modifiers]. destruct (invalid_code o) eqn:E; [discriminate|].
    destruct (invalid_code_false _ E) as [vk [Hint Hvk]].
    rewrite (create_key_down _ Hint Hvk). cbn [rbind].
    intros H. destruct (IH _ H) as [ks [Hks [Hmap ->]]].
    exists (vk :: ks). repeat split.
    + constructor; assumption.
    + cbn [map]. rewrite Hint, Hmap. reflexivity.
    + rewrite <- app_assoc. reflexivity.
Qed.

Lemma release_modifiers_general (mods : list (pyobj F)) ks inputs :
  map (@as_int F) mods = map Some ks -> Forall valid_key ks ->
  release_modifiers mods inputs = Ok (inputs ++ map key_up ks).
Proof.
  revert ks inputs. induction mods as [|o mods IH]; intros ks inputs Hmap Hks.
  - destruct ks; [|discriminate]. cbn. rewrite app_nil_r. reflexivity.
  - destruct ks as [|k ks]; [discriminate|].
    cbn [map] in Hmap. injection Hmap as Hint Hmap.
    inversion Hks as [|? ? Hk Hks']; subst.
    cbn [release_modifiers]. rewrite (create_key_up _ Hint Hk). cbn [rbind].
    rewrite (IH ks _ Hmap Hks'), <- app_assoc. reflexivity.
Qed.

Lemma tap_key_general (vk_code modifiers : pyobj F) w :
  (exists e, tap_key vk_code modifiers w = (Raise e, w))
  \/ (exists vk ks,
        valid_key vk /\ Forall valid_key ks
        /\ tap_key vk_code modifiers w
           = (Ok (sent_ok w (tap_events vk ks)),
              after w [ESendInput (tap_events vk ks)])).
Proof.
  unfold tap_key. destruct (invalid_code vk_code) eqn:E.
  { left. eexists. reflexivity. }
  destruct (invalid_code_false _ E) as [vk [Hint Hvk]].
  rewrite (create_key_down _ Hint Hvk), (create_key_up _ Hint Hvk).
  destruct (truthy modifiers).
  - unfold py_reversed. destruct (py_iter modifiers) as [mods|];
      [|left; eexists; reflexivity].
    cbn [option_map].
    destruct (press_modifiers mods []) as [out|e] eqn:P;
      [|left; eexists; reflexivity].
    destruct (press_modifiers_general _ _ P) as [ks [Hks [Hmap ->]]].
    right. exists vk, ks. split; [exact Hvk|split; [exact Hks|]].
    unfold bind at 1, lift at 1. unfold bind at 1, lift at 1.
    unfold bind at 1, lift at 1.
    rewrite (@release_modifiers_general (rev mods) (rev ks))
      by (rewrite ?map_rev, ?Hmap; auto using Forall_rev).
    unfold bind at 1, lift at 1.
    replace (((([] ++ map key_down ks) ++ [key_down vk]) ++ [key_up vk])
             ++ map key_up (rev ks))
      with (tap_events vk ks)
      by (unfold tap_events; cbn [app]; rewrite <- !app_assoc; reflexivity).
    apply send_input_run, tap_events_not_nil.
  - right. exists vk, []. split; [exact Hvk|split; [constructor|]].
    unfold bind at 1, lift at 1. unfold bind at 1, lift at 1.
    unfold bind at 1, lift at 1. unfold bind at 1, lift at 1.
    apply (send_input_run (inputs:=tap_events vk [])), tap_events_not_nil.
Qed.

Lemma press_key_general (vk_code : pyobj F) w :
  (exists e, press_key vk_code w = (Raise e, w))
  \/ (exists vk, valid_key vk /\ as_int vk_code = Some vk
        /\ press_key vk_code w
           = (Ok (sent_ok w [key_down vk]),
              after w [ESendInput [key_down vk]])).
Proof.
  unfold press_key. destruct (invalid_code vk_code) eqn:E.
  { left. eexists. reflexivity. }
  destruct (invalid_code_false _ E) as [vk [Hint Hvk]].
  right. exists vk. split; [exact Hvk|split; [exact Hint|]].
  rewrite (create_key_down _ Hint Hvk). unfold bind at 1, lift at 1.
  apply send_input_run. discriminate.
Qed.

Lemma release_key_general (vk_code : pyobj F) w :
  (exists e, release_key vk_code w = (Raise e, w))
  \/ (exists vk, valid_key vk /\ as_int vk_code = Some vk
        /\ release_key vk_code w
           = (Ok (sent_ok w [key_up vk]),
              after w [ESendInput [key_up vk]])).
Proof.
  unfold release_key. destruct (invalid_code vk_code) eqn:E.
  { left. eexists. reflexivity. }
  destruct (invalid_code_false _ E) as [vk [Hint Hvk]].
  right. exists vk. split; [exact Hvk|split; [exact Hint|]].
  rewrite (create_key_up _ Hint Hvk). unfold bind at 1, lift at 1.
  apply send_input_run. discriminate.
Qed.

Lemma key_event_down vk : valid_key vk -> key_event (key_down vk).
Proof. intros H. exists vk. auto. Qed.

Lemma key_event_up vk : valid_key vk -> key_event (key_up vk).
Proof. intros H. exists vk. auto. Qed.

Lemma tap_events_key_events vk ks :
  valid_key vk -> Forall valid_key ks -> Forall key_event (tap_events vk ks).
Proof.
  intros Hvk Hks. unfold tap_events.
  repeat (apply Forall_app; split).
  - apply Forall_map. revert Hks. apply Forall_impl, key_event_down.
  - repeat constructor; [apply key_event_down|apply key_event_up]; assumption.
  - apply Forall_map. apply Forall_rev in Hks. revert Hks.
    apply Forall_impl, key_event_up.
Qed.

Lemma presses_keyboard ks :
  Forall valid_key ks -> Forall (@keyboard_call F) (presses ks).
Proof.
  intros H. unfold presses. apply Forall_map. revert H.
  apply Forall_impl. intros k Hk. split; [discriminate|].
  repeat constructor. apply key_event_down, Hk.
Qed.

Lemma ups_keyboard ks :
  Forall valid_key ks ->
  Forall (@keyboard_call F) (map (fun m => ESendInput [key_up m]) ks).
Proof.
  intros H. apply Forall_map. revert H.
  apply Forall_impl. intros k Hk. split; [discriminate|].
  repeat constructor. apply key_event_up, Hk.
Qed.

Lemma press_loop_general (mods : list (pyobj F)) w :
  exists ks r,
    Forall valid_key ks
    /\ for_each mods (fun modifier =>
         if invalid_code modifier then
           raise (ValueError "Invalid modifier key code")
         else press_key modifier ;; ret tt) w
       = (r, after w (presses ks))
    /\ (r = Ok tt -> map (@as_int F) mods = map Some ks).
Proof.
  revert w. induction mods as [|o mods IH]; intros w.
  - exists [], (Ok tt). repeat split; [constructor|].
    unfold presses. cbn [map for_each]. unfold ret. rewrite after_nil.
    reflexivity.
  - cbn [for_each]. destruct (invalid_code o) eqn:E.
    + exists [], (Raise (ValueError "Invalid modifier key code")).
      repeat split; [constructor| |discriminate].
      unfold bind, raise, presses. cbn [map]. rewrite after_nil. reflexivity.
    + destruct (press_key_general o w) as [[e He]|[vk [Hvk [Hint Hrun]]]].
      * exfalso. revert He. unfold press_key. rewrite E.
        destruct (invalid_code_false _ E) as [vk [Hint Hvk]].
        rewrite (create_key_down _ Hint Hvk). unfold bind at 1, lift at 1.
        rewrite send_input_run by discriminate. discriminate.
      * destruct (IH (after w [ESendInput [key_down vk]]))
          as [ks [r [Hks [Hloop Hok]]]].
        exists (vk :: ks), r. repeat split.
        -- constructor; assumption.
        -- unfold bind at 1. unfold bind at 1. rewrite Hrun.
           unfold ret at 1. rewrite Hloop. unfold presses. cbn [map].
           rewrite after_after. reflexivity.
        -- intros Hr. cbn [map]. rewrite Hint, (Hok Hr). reflexivity.
Qed.

Lemma release_loop_general (mods : list (pyobj F)) ks w :
  map (@as_int F) mods = map Some ks -> Forall valid_key ks ->
  for_each mods (fun modifier => release_key modifier ;; ret tt) w
  = (Ok tt, after w (map (fun m => ESendInput [key_up m]) ks)).
Proof.
  revert ks w. induction mods as [|o mods IH]; intros ks w Hmap Hks.
  - destruct ks; [|discriminate]. cbn [map for_each]. unfold ret.
    rewrite after_nil. reflexivity.
  - destruct ks as [|k ks]; [discriminate|].
    cbn [map] in Hmap. injection Hmap as Hint Hmap.
    inversion Hks as [|? ? Hk Hks']; subst.
    cbn [for_each]. unfold bind at 1. unfold bind at 1.
    assert (Hrun : release_key o w
                   = (Ok (sent_ok w [key_up k]),
                      after w [ESendInput [key_up k]])).
    { unfold release_key.
      assert (E : invalid_code o = false).
      { unfold invalid_code. rewrite Hint. destruct Hk as [H0 H255].
        apply orb_false_iff. split; [apply Z.ltb_ge; exact H0|].
        rewrite Z.gtb_ltb. apply Z.ltb_ge. exact H255. }
      rewrite E, (create_key_up _ Hint Hk). unfold bind at 1, lift at 1.
      apply send_input_run. discriminate. }
    rewrite Hrun. unfold ret at 1. rewrite (IH ks _ Hmap Hks').
    cbn [map]. rewrite after_after. reflexivity.
Qed.

Lemma keyboard_only_press_key vk_code : keyboard_only (press_key vk_code).
Proof.
  intros w. destruct (press_key_general vk_code w)
    as [[e ->]|[vk [Hvk [_ ->]]]].
  - exists []. rewrite after_nil. split; [reflexivity|constructor].
  - eexists. split; [reflexivity|]. repeat constructor; [discriminate|].
    apply key_event_down, Hvk.
Qed.

Lemma keyboard_only_release_key vk_code : keyboard_only (release_key vk_code).
Proof.
  intros w. destruct (release_key_general vk_code w)
    as [[e ->]|[vk [Hvk [_ ->]]]].
  - exists []. rewrite after_nil. split; [reflexivity|constructor].
  - eexists. split; [reflexivity|]. repeat constructor; [discriminate|].
    apply key_event_up, Hvk.
Qed.

Lemma keyboard_only_tap_key vk_code modifiers :
  keyboard_only (tap_key vk_code modifiers).
Proof.
  intros w. destruct (tap_key_general vk_code modifiers w)
    as [[e ->]|[vk [ks [Hvk [Hks ->]]]]].
  - exists []. rewrite after_nil. split; [reflexivity|constructor].
  - eexists. split; [reflexivity|]. repeat constructor.
    + apply tap_events_not_nil.
    + apply tap_events_key_events; assumption.
Qed.

Lemma keyboard_call_keystroke c (e : effect F) :
  keystroke c e -> keyboard_call e.
Proof.
  assert (Hshift : Forall valid_key [VK_SHIFT])
    by (repeat constructor; vm_compute; discriminate).
  intros [[vk [Hvk [->| ->]]]| ->]; cbn [keyboard_call]; try exact I;
    (split; [apply tap_events_not_nil|apply tap_events_key_events; auto]).
Qed.

Lemma keyboard_call_stroke c : Forall keyboard_call (stroke (F:=F) c).
Proof.
  destruct (type_character_stroke (F:=F) c) as [e [Hk [-> _]]].
  repeat constructor. exact (keyboard_call_keystroke Hk).
Qed.

Lemma keyboard_call_group delay c :
  Forall keyboard_call (char_group (F:=F) delay c).
Proof.
  unfold char_group. apply Forall_app. split.
  - apply keyboard_call_stroke.
  - unfold pause. destruct (gtb delay (of_Z 0)); repeat constructor.
Qed.

Lemma keyboard_only_type_string text delay :
  keyboard_only (type_string text delay).
Proof.
  intros w. unfold type_string.
  destruct text as [| | | |s|];
    try (exists []; rewrite after_nil; split; [reflexivity|constructor]).
  destruct (ltb delay (of_Z 0));
    [exists []; rewrite after_nil; split; [reflexivity|constructor]|].
  destruct (type_chars_cases s delay true w)
    as [n [bs [tail [r [Hrun [_ Hcases]]]]]].
  rewrite Hrun. cbn [snd]. eexists. split; [reflexivity|].
  apply Forall_app. split.
  - apply Forall_flat_map, Forall_forall. intros c _.
    apply keyboard_call_group.
  - destruct Hcases as [[_ [-> _]]|[c [x [_ [_ [[-> _]|[-> _]]]]]]];
      try constructor.
    apply keyboard_call_stroke.
Qed.

Lemma keyboard_only_with_modifiers {A} modifiers (block : M F A) :
  keyboard_only block -> keyboard_only (with_modifiers modifiers block).
Proof.
  intros Hblock w. unfold with_modifiers.
  destruct modifiers as [| | | | |mods];
    try (exists []; rewrite after_nil; split; [reflexivity|constructor]).
  destruct (press_loop_general mods w) as [ks [r [Hks [Hloop Hok]]]].
  unfold bind at 1. rewrite Hloop.
  destruct r as [[]|e].
  - unfold try_finally.
    destruct (Hblock (after w (presses ks))) as [es [Hes Hall]].
    destruct (block (after w (presses ks))) as [rb w1]. cbn [snd] in Hes.
    subst w1.
    rewrite (@release_loop_general (rev mods) (rev ks))
      by (rewrite ?map_rev, ?(Hok eq_refl); auto using Forall_rev).
    cbn [snd]. rewrite !after_after. eexists. split; [reflexivity|].
    repeat (apply Forall_app; split);
      auto using presses_keyboard, ups_keyboard, Forall_rev.
  - cbn [snd]. eexists. split; [reflexivity|].
    apply presses_keyboard, Hks.
Qed.
End InjectionFacts.

Section SleepFacts.
Context {F : Type} {num : Number F} {U : Unicode} {host : Host F}.
Import constants wininput.

Lemma sleeps_app (es1 es2 : list (effect F)) :
  sleeps (es1 ++ es2) = sleeps es1 ++ sleeps es2.
Proof. apply flat_map_app. Qed.

Lemma sleeps_keystroke c (e : effect F) : keystroke c e -> sleeps [e] = [].
Proof. intros [[vk [_ [->| ->]]]| ->]; reflexivity. Qed.

Lemma sleeps_stroke c : sleeps (stroke (F:=F) c) = [].
Proof.
  destruct (type_character_stroke (F:=F) c) as [e [Hk [-> _]]].
  apply (sleeps_keystroke Hk).
Qed.

Lemma sleeps_char_group delay c :
  sleeps (char_group delay c) = pause_durations delay
  /\ List.length (char_group delay c) = S (List.length (pause_durations delay)).
Proof.
  unfold char_group, pause_durations.
  rewrite sleeps_app, sleeps_stroke, length_app.
  destruct (type_character_stroke (F:=F) c) as [e [_ [-> _]]].
  unfold pause.
  destruct (gtb delay (of_Z 0)); split; reflexivity.
Qed.
End SleepFacts.

Section SleepFacts2.
Context {F : Type} {num : Number F} {U : Unicode} {host : Host F}.
Import constants wininput.

Lemma sleeps_char_groups (text : str) (delay : F) :
  sleeps (flat_map (char_group delay) text)
  = (if gtb delay (of_Z 0) then repeat delay (List.length text) else [])
  /\ List.length (flat_map (char_group delay) text)
     = (List.length text
        + List.length (sleeps (flat_map (char_group delay) text)))%nat.
Proof.
  induction text as [|c text [IH1 IH2]].
  - destruct (gtb delay (of_Z 0)); split; reflexivity.
  - cbn [flat_map List.length]. rewrite sleeps_app, length_app, IH2, IH1.
    destruct (sleeps_char_group delay c) as [Hs Hl]. rewrite Hs, Hl.
    unfold pause_durations.
    destruct (gtb delay (of_Z 0)); cbn [repeat app List.length]; split;
      try reflexivity; lia.
Qed.

(** The sleeps of a run of [type_string] on any host: one for each
    character it got past, all of them when it returns. *)
Lemma type_string_sleeps_run (text : str) (delay : F) (w : World F) :
  leb (of_Z 0) delay = true ->
  exists es n,
    snd (type_string (PyStr text) delay w) = after w es
    /\ (n <= List.length text)%nat
    /\ sleeps es = (if gtb delay (of_Z 0) then repeat delay n else [])
    /\ (forall b,
          fst (type_string (PyStr text) delay w) = Ok b ->
          n = List.length text
          /\ List.length es
             = (List.length text + List.length (sleeps es))%nat)
    /\ (can_print text -> can_sleep delay ->
        exists b, fst (type_string (PyStr text) delay w) = Ok b).
Proof.
  intros Hd.
  destruct (@type_string_cases F num U host text delay w Hd)
    as [n [bs [tail [r [Hrun [_ Hcases]]]]]].
  assert (Hn : (n <= List.length text)%nat).
  { destruct Hcases as [[-> _]|[c [x [Hnth _]]]]; [lia|].
    apply Nat.lt_le_incl, nth_error_Some. rewrite Hnth. discriminate. }
  assert (Htail : sleeps tail = []).
  { destruct Hcases as [[_ [-> _]]|[c [x [_ [_ [[-> _]|[-> _]]]]]]];
      try reflexivity.
    apply sleeps_stroke. }
  exists (flat_map (char_group delay) (firstn n text) ++ tail), n.
  rewrite Hrun. cbn [fst snd]. split; [reflexivity|]. split; [exact Hn|].
  destruct (sleeps_char_groups (firstn n text) delay) as [Hs Hl].
  rewrite length_firstn, Nat.min_l in Hs, Hl by exact Hn.
  split; [rewrite sleeps_app, Htail, app_nil_r; exact Hs|]. split.
  - intros b Hb.
    destruct Hcases as [[-> [-> _]]|[c [x [_ [Hr _]]]]];
      [|rewrite Hr in Hb; discriminate].
    split; [reflexivity|].
    rewrite app_nil_r. exact Hl.
  - intros Hp Hsl.
    destruct (@type_string_run F num U host text delay w Hd Hp Hsl)
      as [bs' [w' [Hrun' _]]].
    rewrite Hrun in Hrun'. injection Hrun' as -> _. eexists. reflexivity.
Qed.
End SleepFacts2.

Section KeyStateFacts.
Context {F : Type} {num : Number F} {keys : KeyState F}.
Import wininput.

Lemma land_bit15 (s : Z) :
  Z.land s 0x8000 = if Z.testbit s 15 then 0x8000 else 0.
Proof.
  change 0x8000 with (2 ^ 15). apply Z.bits_inj'. intros n Hn.
  rewrite Z.land_spec, Z.pow2_bits_eqb by lia.
  destruct (Z.eqb_spec 15 n) as [<-|Hne].
  - rewrite andb_true_r. destruct (Z.testbit s 15).
    + rewrite Z.pow2_bits_true by lia. reflexivity.
    + rewrite Z.bits_0. reflexivity.
  - rewrite andb_false_r. destruct (Z.testbit s 15).
    + rewrite Z.pow2_bits_false by lia. reflexivity.
    + rewrite Z.bits_0. reflexivity.
Qed.

Lemma to_SHORT_bit15 (v : Z) :
  Z.testbit (to_SHORT v) 15 = Z.testbit v 15.
Proof.
  rewrite <- (Z.mod_pow2_bits_low (to_SHORT v) 16 15) by lia.
  rewrite <- (Z.mod_pow2_bits_low v 16 15) by lia.
  f_equal. unfold to_SHORT.
  rewrite Zminus_mod_idemp_l. f_equal. lia.
Qed.

Lemma to_SHORT_range (v : Z) : - 2 ^ 15 <= to_SHORT v < 2 ^ 15.
Proof.
  unfold to_SHORT.
  pose proof (Z.mod_pos_bound (v + 2 ^ 15) (2 ^ 16) ltac:(lia)). lia.
Qed.

Lemma bit15_negative (s : Z) :
  - 2 ^ 15 <= s < 2 ^ 15 -> Z.testbit s 15 = (s <? 0).
Proof.
  intros Hs. rewrite Z.testbit_odd, Z.shiftr_div_pow2 by lia.
  destruct (Z.ltb_spec s 0) as [Hneg|Hpos].
  - assert (E : s / 2 ^ 15 = -1)
      by (symmetry; apply (Z.div_unique s (2 ^ 15) (-1) (s + 2 ^ 15)); lia).
    rewrite E. reflexivity.
  - rewrite Z.div_small by lia. reflexivity.
Qed.

Lemma is_key_pressed_run vk (w : World F) :
  valid_key vk ->
  let answer := user32_GetAsyncKeyState (events w) vk in
  is_key_pressed (PyInt vk) w = (Ok (Z.testbit answer 15), w)
  /\ Z.testbit answer 15 = (to_SHORT answer <? 0).
Proof.
  intros Hvk answer. split.
  - unfold is_key_pressed. rewrite (invalid_code_int Hvk). cbn [as_int].
    fold answer. rewrite land_bit15, to_SHORT_bit15.
    destruct (Z.testbit answer 15); reflexivity.
  - rewrite <- to_SHORT_bit15. apply bit15_negative, to_SHORT_range.
Qed.

Lemma is_key_pressed_invalid (vk_code : pyobj F) (w : World F) :
  invalid_code vk_code = true ->
  is_key_pressed vk_code w
  = (Raise (ValueError "Invalid virtual key code"), w).
Proof. intros H. unfold is_key_pressed. rewrite H. reflexivity. Qed.
End KeyStateFacts.

Section ShiftFacts.
Context {F : Type} {num : Number F} {host : Host F}.
Import constants wininput.

Lemma emitted_tap_none vk :
  valid_key vk ->
  emitted (tap_key (F:=F) (PyInt vk) PyNone) = [ESendInput (tap_events vk [])].
Proof.
  intros H. unfold emitted. rewrite (tap_key_none_run initial H). reflexivity.
Qed.

Lemma shift_chars_typed_with_shift (c : char) :
  set_contains str_eqb SHIFT_CHARS [c] = true ->
  exists vk, valid_key vk
    /\ emitted (_type_character (F:=F) [c])
       = [ESendInput (tap_events vk [VK_SHIFT])].
Proof.
  intros H. apply set_contains_In in H. unfold SHIFT_CHARS in H.
  cbn [In] in H.
  repeat (destruct H as [H|H];
          [injection H as <-; eexists; split;
           [|reflexivity]; vm_compute; split; discriminate|]).
  destruct H.
Qed.

Lemma shift_only_for_shift_chars (c : char) vk :
  emitted (_type_character (F:=F) [c])
  = [ESendInput (tap_events vk [VK_SHIFT])] ->
  set_contains str_eqb SHIFT_CHARS [c] = true.
Proof.
  destruct (set_contains str_eqb SHIFT_CHARS [c]) eqn:E; [reflexivity|].
  unfold _type_character. cbn [List.length Nat.eqb negb]. rewrite E.
  destruct (found (dict_get str_eqb CHAR_TO_VK [c])) as [k|] eqn:Ek.
  - rewrite (emitted_tap_none (found_range _ Ek)). discriminate.
  - unfold emitted, bind, print.
    destruct (print_answer (events initial) (warning [c])); discriminate.
Qed.
End ShiftFacts.

Section PairFacts.
Context {F : Type} {num : Number F} {host : Host F}.
Import constants wininput.

Lemma shift_char_map_pairs (k b : str) :
  In (k, b) SHIFT_CHAR_MAP ->
  exists vk, dict_get str_eqb CHAR_TO_VK b = Some vk
    /\ emitted (_type_character (F:=F) k)
       = [ESendInput (tap_events vk [VK_SHIFT])]
    /\ emitted (_type_character (F:=F) b)
       = [ESendInput (tap_events vk [])].
Proof.
  unfold SHIFT_CHAR_MAP. cbn [In]. intros H.
  repeat (destruct H as [H|H];
          [injection H as <- <-; eexists; repeat split; reflexivity|]).
  destruct H.
Qed.

Lemma letter_pairs (c : char) :
  (97 <= c <= 122)%N ->
  exists vk, dict_get str_eqb CHAR_TO_VK [c] = Some vk
    /\ emitted (_type_character (F:=F) [(c - 32)%N])
       = [ESendInput (tap_events vk [VK_SHIFT])]
    /\ emitted (_type_character (F:=F) [c])
       = [ESendInput (tap_events vk [])].
Proof.
  intros Hc.
  assert (H : In c (map N.of_nat (seq 97 26))).
  { apply in_map_iff. exists (N.to_nat c). split; [apply N2Nat.id|].
    apply in_seq. lia. }
  cbn [seq map In] in H.
  repeat (destruct H as [H|H];
          [subst c; eexists; repeat split; reflexivity|]).
  destruct H.
Qed.

Lemma typed_flags (delay : F) text w bs w' :
  succeeds host -> ~ In KELVIN_SIGN text ->
  typed delay text w bs w' ->
  bs = map (fun c => utils._is_char_supported [c]) text.
Proof.
  intros Hs Hk Ht. induction Ht as [w|c cs w b w1 bs w2 Hc _ IH].
  - reflexivity.
  - cbn [map]. f_equal.
    + assert (Hne : c <> KELVIN_SIGN) by (intros ->; apply Hk; left; reflexivity).
      pose proof (@support_agrees_elsewhere F num host c w Hs Hne) as Hiff.
      rewrite Hc in Hiff. cbn [fst] in Hiff.
      destruct b, (utils._is_char_supported [c]); try reflexivity.
      * destruct Hiff as [_ H]. symmetry. apply H. reflexivity.
      * destruct Hiff as [H _]. specialize (H eq_refl). discriminate H.
    + apply IH. intros H. apply Hk. right. exact H.
Qed.

Lemma type_string_validated (text : str) (delay : F) (w : World F) :
  succeeds host -> ~ In KELVIN_SIGN text ->
  leb (of_Z 0) delay = true ->
  exists valid unsupported,
    utils.validate_text (F:=F) (PyStr text) = Ok (valid, unsupported)
    /\ (forall b w',
          type_string (PyStr text) delay w = (Ok b, w') -> b = valid)
    /\ (can_print text -> can_sleep delay ->
        fst (type_string (PyStr text) delay w) = Ok valid).
Proof.
  intros Hs Hk Hd. rewrite validate_text_run. eexists _, _.
  split; [reflexivity|].
  assert (Hflags : forall bs w',
            typed delay text w bs w' ->
            forallb (fun b => b) bs
            = forallb (fun c => utils._is_char_supported [c]) text).
  { intros bs w' Ht. rewrite (typed_flags Hs Hk Ht).
    clear. induction text as [|c text IH]; [reflexivity|].
    cbn [map forallb]. rewrite IH. reflexivity. }
  split.
  - intros b w' Hrun.
    destruct (@type_string_cases F num _ host text delay w Hd)
      as [n [bs [tail [r [Hcase [Ht Hcases]]]]]].
    rewrite Hcase in Hrun. injection Hrun as -> _.
    destruct Hcases as [[-> [_ [= ->]]]|[c [x [_ [Hr _]]]]];
      [|discriminate].
    rewrite firstn_all in Ht. apply (Hflags _ _ Ht).
  - intros Hp Hsl.
    destruct (@type_string_run F num _ host text delay w Hd Hp Hsl)
      as [bs [w' [Hrun [Ht _]]]].
    rewrite Hrun. cbn [fst]. f_equal. apply (Hflags _ _ Ht).
Qed.
End PairFacts.

(* ================================================================= *)
(** ** Facts about the chunks, the profile and the schedule *)

Section SplitChunkFacts.
Context {F : Type} {U : Unicode}.
Import utils.

Lemma flush_uniform st : chunk_inv st -> Forall uniform_chunk (flush st).
Proof.
  intros [Hc Hcur]. unfold flush.
  destruct (current_chunk st) as [|c cs] eqn:E; [exact Hc|].
  apply Forall_app. split; [exact Hc|].
  constructor; [|constructor]. split; [discriminate | exact Hcur].
Qed.

Lemma split_step_chunk_inv st c : chunk_inv st -> chunk_inv (split_step st c).
Proof.
  intros Hinv. unfold split_step.
  destruct (Bool.eqb (_is_char_supported [c]) (current_supported st)) eqn:E.
  - destruct Hinv as [Hc Hcur]. split; [exact Hc|]. cbn.
    apply Forall_app. split; [exact Hcur|].
    constructor; [|constructor]. apply eqb_prop, E.
  - split; cbn; [apply flush_uniform, Hinv|].
    constructor; [reflexivity|constructor].
Qed.

Lemma split_loop_chunk_inv s st :
  chunk_inv st -> chunk_inv (fold_left split_step s st).
Proof.
  revert st. induction s as [|c s IH]; intros st H; [exact H|].
  cbn [fold_left]. apply IH, split_step_chunk_inv, H.
Qed.

Lemma split_text_uniform (t : str) spans :
  split_text_by_support (F:=F) (PyStr t) = Ok spans ->
  Forall uniform_chunk spans.
Proof.
  destruct t as [|c t]; cbn [split_text_by_support].
  - intros [= <-]. constructor.
  - intros [= <-]. apply flush_uniform.
    apply (split_loop_chunk_inv (c :: t)). split; constructor.
Qed.

Lemma split_text_concat (t : str) :
  exists spans,
    split_text_by_support (F:=F) (PyStr t) = Ok spans
    /\ List.concat (map fst spans) = t.
Proof.
  destruct t as [|c t].
  - exists []. split; reflexivity.
  - set (st := {| chunks := []; current_chunk := [];
                  current_supported := _is_char_supported [c] |}).
    assert (Hinv : split_inv st) by (split; [exact I | reflexivity]).
    destruct (split_loop_inv (c :: t) Hinv) as [_ Hc].
    exists (flush (fold_left split_step (c :: t) st)).
    split; [reflexivity|]. rewrite flush_consumed, Hc. reflexivity.
Qed.

Lemma forallb_concat_uniform (spans : list (str * bool)) :
  Forall uniform_chunk spans ->
  forallb (fun c => _is_char_supported [c]) (List.concat (map fst spans))
  = forallb snd spans.
Proof.
  induction 1 as [|[chunk flag] spans [Hne Hall] _ IH]; [reflexivity|].
  cbn [map List.concat forallb fst snd] in *.
  rewrite forallb_app, IH. f_equal.
  destruct flag.
  - apply forallb_forall. intros c Hc.
    rewrite Forall_forall in Hall. exact (Hall c Hc).
  - destruct chunk as [|c chunk]; [contradiction|].
    inversion Hall as [|? ? Hc _]; subst. cbn [forallb]. rewrite Hc.
    reflexivity.
Qed.
End SplitChunkFacts.

Section CalculateFacts.
Context {F : Type} {num : Number F} {U : Unicode}.
Import utils.

Lemma filter_idem {A} (f : A -> bool) l : filter f (filter f l) = filter f l.
Proof.
  induction l as [|a l IH]; [reflexivity|].
  cbn [filter]. destruct (f a) eqn:E; [|exact IH].
  cbn [filter]. rewrite E, IH. reflexivity.
Qed.

Lemma calculate_typing_time_supported (text : str) (delay : F) :
  calculate_typing_time (PyStr text) delay
  = calculate_typing_time (PyStr (supported_chars text)) delay.
Proof.
  unfold calculate_typing_time, supported_chars.
  rewrite filter_idem. reflexivity.
Qed.
End CalculateFacts.

Section ProfileErrorFacts.
Context {F : Type} {num : Number F} {U : Unicode} {host : Host F}.
Import utils.

Lemma check_keys_present (profile : profile_dict F) :
  check_keys required_keys profile = Ok tt ->
  exists b v p d, profile_fields profile b v p d.
Proof.
  unfold required_keys. cbn [check_keys]. unfold profile_fields, subscript,
    dict_contains.
  destruct (dict_get String.eqb profile "base_delay"%string) as [b|];
    cbn [negb]; [|discriminate].
  destruct (dict_get String.eqb profile "variance"%string) as [v|];
    cbn [negb]; [|discriminate].
  destruct (dict_get String.eqb profile "pause_chance"%string) as [p|];
    cbn [negb]; [|discriminate].
  destruct (dict_get String.eqb profile "pause_duration"%string) as [d|];
    cbn [negb]; [|discriminate].
  intros _. exists b, v, p, d. repeat split.
Qed.

Lemma check_keys_result (profile : profile_dict F) :
  check_keys required_keys profile = Ok tt
  \/ check_keys required_keys profile
     = Raise (ValueError "Profile missing required key").
Proof.
  unfold required_keys. cbn [check_keys].
  repeat match goal with
         | |- context [dict_contains String.eqb profile ?k] =>
             destruct (dict_contains String.eqb profile k); cbn [negb];
             auto
         end.
Qed.

Lemma check_keys_missing (profile : profile_dict F) key :
  In key required_keys ->
  dict_contains String.eqb profile key = false ->
  check_keys required_keys profile
  = Raise (ValueError "Profile missing required key").
Proof.
  intros Hin Hkey.
  destruct (check_keys_result profile) as [Hok|Hraise]; [|exact Hraise].
  exfalso. destruct (check_keys_present profile Hok)
    as [b [v [p [d [Hb [Hv [Hp Hd]]]]]]].
  unfold required_keys in Hin. cbn [In] in Hin.
  destruct Hin as [<-|[<-|[<-|[<-|[]]]]];
    [ rewrite (subscript_contains _ _ Hb) in Hkey
    | rewrite (subscript_contains _ _ Hv) in Hkey
    | rewrite (subscript_contains _ _ Hp) in Hkey
    | rewrite (subscript_contains _ _ Hd) in Hkey ]; discriminate Hkey.
Qed.

(** What a call of [humanize_delay] can do: raise one of its two
    errors and leave the world, or take one draw and return. *)
Lemma humanize_delay_cases (b v : F) (w : World F) :
  (exists msg, humanize_delay b v w = (Raise (ValueError msg), w))
  \/ (exists x, humanize_delay b v w
               = (Ok x, {| events := events w; draws := S (draws w) |})).
Proof.
  unfold humanize_delay.
  destruct (ltb b (of_Z 0)); [left; eexists; reflexivity|].
  destruct (ltb v (of_Z 0)); [left; eexists; reflexivity|].
  right. eexists. reflexivity.
Qed.

(** The loop takes at most two draws for each supported character, has
    no other effect, and raises nothing but a [ValueError]. *)
Lemma delay_loop_draws text (profile : profile_dict F) b v p d delays w :
  profile_fields profile b v p d ->
  exists r w',
    delay_loop text profile delays w = (r, w')
    /\ events w' = events w
    /\ (draws w <= draws w'
        <= draws w + 2 * List.length (supported_chars text))%nat
    /\ match r with
       | Ok ds =>
           (draws w + List.length (supported_chars text) <= draws w')%nat
       | Raise e => exists msg, e = ValueError msg
       end.
Proof.
  intros [Fb [Fv [Fp Fd]]].
  revert delays w. induction text as [|c text IH]; intros delays w.
  - exists (Ok delays), w. cbn. repeat split; lia.
  - cbn [delay_loop]. unfold supported_chars. cbn [filter].
    fold (supported_chars text).
    destruct (_is_char_supported [c]); cbn [negb List.length].
    + unfold bind at 1. unfold random_random at 1.
      rewrite Fp. unfold bind at 1, lift at 1.
      set (w1 := {| events := events w; draws := S (draws w) |}).
      destruct (ltb (random_stream (draws w)) p).
      * rewrite Fd. unfold bind at 1, lift at 1.
        destruct (IH (delays ++ [d]) w1) as [r [w' [Hrun [He [Hd Hr]]]]].
        exists r, w'. rewrite Hrun. cbn [events draws w1] in *.
        repeat split; try assumption; try lia.
        destruct r; [lia | exact Hr].
      * rewrite Fb, Fv. unfold bind at 1. unfold bind at 1, lift at 1.
        unfold bind at 1, lift at 1.
        destruct (humanize_delay_cases b v w1) as [[msg ->]|[x ->]].
        -- exists (Raise (ValueError msg)), w1. cbn [events draws w1].
           repeat split; try lia. exists msg. reflexivity.
        -- destruct (IH (delays ++ [x])
                        {| events := events w1; draws := S (draws w1) |})
             as [r [w' [Hrun [He [Hd Hr]]]]].
           exists r, w'. rewrite Hrun. cbn [events draws w1] in *.
           repeat split; try assumption; try lia.
           destruct r; [lia | exact Hr].
    + destruct (IH delays w) as [r [w' [Hrun [He [Hd Hr]]]]].
      exists r, w'. rewrite Hrun. repeat split; try assumption; lia.
Qed.
End ProfileErrorFacts.

Section ScheduleFacts.
Context {F : Type} {num : Number F} {U : Unicode} {host : Host F}.
Import utils.

Lemma apply_typing_profile_cases (text : str) (profile : profile_dict F) w :
  exists r w',
    apply_typing_profile (PyStr text) profile w = (r, w')
    /\ events w' = events w
    /\ (draws w <= draws w'
        <= draws w + 2 * List.length (supported_chars text))%nat
    /\ match r with
       | Ok ds =>
           (draws w + List.length (supported_chars text) <= draws w')%nat
       | Raise e => exists msg, e = ValueError msg
       end.
Proof.
  unfold apply_typing_profile. unfold bind at 1, lift at 1.
  destruct (check_keys_result profile) as [Hok|Hraise].
  - rewrite Hok.
    destruct (check_keys_present profile Hok) as [b [v [p [d Hf]]]].
    apply (delay_loop_draws text [] w Hf).
  - rewrite Hraise. eexists _, _. split; [reflexivity|].
    repeat split; try lia. eexists. reflexivity.
Qed.

Lemma filter_length_all {A} (f : A -> bool) l :
  List.length (filter f l) = List.length l <-> forallb f l = true.
Proof.
  induction l as [|a l IH]; [cbn; tauto|].
  cbn [filter forallb]. pose proof (filter_length_le f l) as Hle.
  destruct (f a); cbn [List.length andb].
  - rewrite <- IH. split; intros H; lia.
  - split; [lia | discriminate].
Qed.
End ScheduleFacts.


(* ================================================================= *)
(** ** Further properties of the text utilities *)

Section TextTools.
Context {F : Type} {U : Unicode}.
Import constants.

(** X1.  [validate_text] answers whether every character is supported,
    together with the unsupported characters, each once, in the order
    of their first occurrence. *)
Theorem validate_text_first_occurrences (text : str) :
  utils.validate_text (F:=F) (PyStr text)
  = Ok (forallb (fun c => utils._is_char_supported [c]) text,
        first_occurrences (unsupported_chars text))
  /\ NoDup (first_occurrences (unsupported_chars text))
  /\ (forall x,
        In x (first_occurrences (unsupported_chars text))
        <-> exists c, x = [c] /\ In c text
                      /\ utils._is_char_supported [c] = false).
Proof.
  split; [apply validate_text_run|].
  split; [apply first_occurrences_NoDup|].
  intros x. rewrite first_occurrences_In. apply unsupported_chars_In.
Qed.

(** X2.  [normalize_line_endings] accepts the three targets and no
    other, and its three replacements amount to one pass that puts the
    target in the place of every line ending: a carriage return with the
    line feed after it, or a carriage return or a line feed alone. *)
Theorem normalize_line_endings_one_pass (text target : str) :
  utils.normalize_line_endings (F:=F) (PyStr text) (PyStr target)
  = if set_contains str_eqb [LF; CR ++ LF; CR] target
    then Ok (retarget target text)
    else Raise (ValueError "Target must be '\n', '\r\n', or '\r'").
Proof. apply normalize_line_endings_run. Qed.

(** X3.  Normalizing to one target and then to another gives what
    normalizing to the second alone gives; in particular normalizing
    twice to the same target changes nothing more. *)
Theorem normalize_line_endings_twice (text a b : str) :
  set_contains str_eqb [LF; CR ++ LF; CR] a = true ->
  set_contains str_eqb [LF; CR ++ LF; CR] b = true ->
  rbind (utils.normalize_line_endings (F:=F) (PyStr text) (PyStr a))
        (fun once => utils.normalize_line_endings (F:=F) (PyStr once) (PyStr b))
  = utils.normalize_line_endings (F:=F) (PyStr text) (PyStr b).
Proof.
  intros Ha Hb. rewrite !normalize_line_endings_run, Ha, Hb. cbn [rbind].
  rewrite normalize_line_endings_run, Hb.
  rewrite retarget_retarget by (apply target_line_ending, Ha). reflexivity.
Qed.

(** X4.  With the target line feed the result has no carriage return,
    with the target carriage return it has no line feed, and a text
    without either character is returned as it is. *)
Theorem normalize_line_endings_clean (text : str) :
  (exists unix, utils.normalize_line_endings (F:=F) (PyStr text) (PyStr LF)
                = Ok unix /\ ~ In 13%N unix)
  /\ (exists mac, utils.normalize_line_endings (F:=F) (PyStr text) (PyStr CR)
                  = Ok mac /\ ~ In 10%N mac)
  /\ (forall target,
        set_contains str_eqb [LF; CR ++ LF; CR] target = true ->
        ~ In 10%N text -> ~ In 13%N text ->
        utils.normalize_line_endings (F:=F) (PyStr text) (PyStr target)
        = Ok text).
Proof.
  split; [|split].
  - exists (retarget LF text).
    split; [rewrite normalize_line_endings_run; reflexivity|].
    apply retarget_free; [right; reflexivity|].
    intros [H|[]]. discriminate H.
  - exists (retarget CR text).
    split; [rewrite normalize_line_endings_run; reflexivity|].
    apply retarget_free; [left; reflexivity|].
    intros [H|[]]. discriminate H.
  - intros target Ht H10 H13. rewrite normalize_line_endings_run, Ht.
    rewrite retarget_plain by assumption. reflexivity.
Qed.

(** X5.  The seven replacements of [escape_special_chars] amount to one
    pass that puts, for every character with an entry in [escape_map],
    the entry in its place. *)
Theorem escape_special_chars_one_pass (text : str) :
  utils.escape_special_chars (F:=F) (PyStr text)
  = Ok (flat_map escape_char text).
Proof. apply escape_special_chars_run. Qed.

(** X6.  The escaped text contains no character that [escape_map]
    escapes, so escaping it again changes nothing. *)
Theorem escape_special_chars_idempotent (text : str) :
  exists escaped,
    utils.escape_special_chars (F:=F) (PyStr text) = Ok escaped
    /\ Forall (fun c => dict_get str_eqb utils.escape_map [c] = None) escaped
    /\ utils.escape_special_chars (F:=F) (PyStr escaped) = Ok escaped.
Proof.
  exists (flat_map escape_char text).
  split; [apply escape_special_chars_run|].
  split; [apply escape_result_clean|].
  rewrite escape_special_chars_run.
  rewrite (escape_clean_fixed (escape_result_clean text)). reflexivity.
Qed.

(** X7.  Escaping cannot be undone: a special character and the two
    characters that escape it give the same result, wherever they
    stand. *)
Theorem escape_special_chars_collision (before after_ : str) (k e : str) :
  In (k, e) utils.escape_map ->
  k <> e
  /\ utils.escape_special_chars (F:=F) (PyStr (before ++ k ++ after_))
     = utils.escape_special_chars (F:=F) (PyStr (before ++ e ++ after_)).
Proof.
  intros Hin. rewrite !escape_special_chars_run, !flat_map_app.
  unfold utils.escape_map in Hin. cbn [In] in Hin.
  repeat (destruct Hin as [Hin|Hin];
          [injection Hin as <- <-; split; [discriminate | reflexivity]|]).
  destruct Hin.
Qed.

(** X8.  Every chunk of [split_text_by_support] is non-empty and all
    its characters have the support the chunk is flagged with; the
    text is valid for [validate_text] exactly when every chunk is
    flagged as supported. *)
Theorem split_text_by_support_uniform (text : str) :
  exists spans valid unsupported,
    utils.split_text_by_support (F:=F) (PyStr text) = Ok spans
    /\ utils.validate_text (F:=F) (PyStr text) = Ok (valid, unsupported)
    /\ Forall (fun chunk =>
                 fst chunk <> []
                 /\ Forall (fun c => utils._is_char_supported [c] = snd chunk)
                           (fst chunk)) spans
    /\ valid = forallb snd spans.
Proof.
  destruct (@split_text_concat F U text) as [spans [Hs Hconcat]].
  exists spans. rewrite validate_text_run. eexists _, _.
  split; [exact Hs|]. split; [reflexivity|].
  pose proof (split_text_uniform text Hs) as Hu.
  split; [exact Hu|].
  rewrite <- Hconcat at 1. apply forallb_concat_uniform, Hu.
Qed.
End TextTools.

(* ================================================================= *)
(** ** Further properties of the key injector *)

Section Injector.
Context {F : Type} {num : Number F} {U : Unicode} {host : Host F}.
Import constants wininput.
Local Open Scope py_scope.

(** X9.  For a key code in range, [press_key] and [release_key] each
    make one call of [SendInput] with the single event and return
    whether the system inserted it; one after the other they inject the
    two events of a tap, in two calls. *)
Theorem press_then_release (vk : Z) (w : World F) :
  valid_key vk ->
  press_key (PyInt vk) w
  = (Ok (sent_ok w [key_down vk]), after w [ESendInput [key_down vk]])
  /\ release_key (PyInt vk) w
     = (Ok (sent_ok w [key_up vk]), after w [ESendInput [key_up vk]])
  /\ snd ((press_key (PyInt vk) ;; release_key (PyInt vk)) w)
     = after w [ESendInput [key_down vk]; ESendInput [key_up vk]]
  /\ [key_down vk] ++ [key_up vk] = tap_events vk [].
Proof.
  intros Hvk. split; [apply press_key_run, Hvk|].
  split; [apply release_key_run, Hvk|]. split; [|reflexivity].
  unfold bind. rewrite (press_key_run w Hvk), (release_key_run _ Hvk).
  cbn [snd]. rewrite after_after. reflexivity.
Qed.

(** X10.  With modifiers in range, [with_modifiers] presses them in
    order, one call each, runs the block, and releases them in reverse
    order; it returns or raises what the block does, and the releases
    happen in both cases.  What [SendInput] answers is not looked at. *)
Theorem with_modifiers_holds_and_releases {A}
  (modifiers : list Z) (block : M F A) (w : World F) :
  Forall valid_key modifiers ->
  let held := after w (presses modifiers) in
  with_modifiers (PyList (map PyInt modifiers)) block w
  = (fst (block held), after (snd (block held)) (releases modifiers)).
Proof. intros H held. apply with_modifiers_run, H. Qed.

(** X11.  [with_modifiers] stops at the first entry that is not a key
    code in range: the modifiers before it have been pressed and stay
    pressed, the block is not run and nothing is released. *)
Theorem with_modifiers_stops_at_invalid {A}
  (good : list Z) (bad : pyobj F) (rest : list (pyobj F))
  (block : M F A) (w : World F) :
  Forall valid_key good -> invalid_code bad = true ->
  with_modifiers (PyList (map PyInt good ++ bad :: rest)) block w
  = (Raise (ValueError "Invalid modifier key code"),
     after w (presses good)).
Proof.
  intros Hgood Hbad. unfold with_modifiers. unfold bind at 1.
  rewrite press_loop_stops by assumption. reflexivity.
Qed.

(** X12.  Whatever their arguments, and whether they return or raise,
    the operations only ever call [SendInput] with at least one event,
    every event being the press or the release of a key code in range;
    [with_modifiers] keeps this when its block does. *)
Theorem injected_events_are_key_events :
  (forall vk_code : pyobj F, keyboard_only (press_key vk_code))
  /\ (forall vk_code : pyobj F, keyboard_only (release_key vk_code))
  /\ (forall vk_code modifiers : pyobj F,
        keyboard_only (tap_key vk_code modifiers))
  /\ (forall (text : pyobj F) (delay : F),
        keyboard_only (type_string text delay))
  /\ (forall A (modifiers : pyobj F) (block : M F A),
        keyboard_only block ->
        keyboard_only (with_modifiers modifiers block)).
Proof.
  split; [exact keyboard_only_press_key|].
  split; [exact keyboard_only_release_key|].
  split; [exact keyboard_only_tap_key|].
  split; [exact keyboard_only_type_string|].
  intros A modifiers block. apply keyboard_only_with_modifiers.
Qed.

(** X13.  [press_key], [release_key] and [tap_key] check their
    arguments before they emit anything: when one of them raises, the
    world is as it was.  [type_string] raises its own errors, for a
    text that is not a string and for a negative delay, in the same
    way; whatever else it raises, possibly after typing part of the
    text, is what [print] or [time.sleep] raised. *)
Theorem validation_before_emission
  (vk_code modifiers text : pyobj F) (delay : F) (w : World F) :
  (forall e w', press_key vk_code w = (Raise e, w') -> w' = w)
  /\ (forall e w', release_key vk_code w = (Raise e, w') -> w' = w)
  /\ (forall e w', tap_key vk_code modifiers w = (Raise e, w') -> w' = w)
  /\ ((forall s, text <> PyStr s) \/ ltb delay (of_Z 0) = true ->
      exists msg, type_string text delay w = (Raise (ValueError msg), w))
  /\ (forall e w',
        type_string text delay w = (Raise e, w') ->
        w' = w
        \/ (exists history line, print_answer history line = Some e)
        \/ (exists history, sleep_answer history delay = Some e)).
Proof.
  split; [intros e w'; apply press_key_raise_clean|].
  split; [intros e w'; apply release_key_raise_clean|].
  split; [intros e w'; apply tap_key_raise_clean|].
  split; [apply type_string_raise_clean|].
  intros e w'; apply type_string_raise_cases.
Qed.

(** X24.  [tap_key] is all or nothing on any arguments: either it
    raises and the world is as it was, or it makes exactly one call of
    [SendInput], with the events of one tap of a key code in range
    under modifiers in range (each modifier pressed is released in the
    same call), and returns whether the system inserted them all. *)
Theorem tap_key_all_or_nothing (vk_code modifiers : pyobj F) (w : World F) :
  (exists e, tap_key vk_code modifiers w = (Raise e, w))
  \/ (exists vk ks,
        valid_key vk /\ Forall valid_key ks
        /\ tap_key vk_code modifiers w
           = (Ok (sent_ok w (tap_events vk ks)),
              after w [ESendInput (tap_events vk ks)])).
Proof.
  destruct (tap_key_general vk_code modifiers w) as [[e H]|[vk [ks H]]].
  - left. exists e. exact H.
  - right. exists vk, ks. exact H.
Qed.

(** X14.  With a positive delay [type_string] sleeps once, for that
    delay, after every character it gets past, and with delay zero it
    never sleeps.  When it returns it has got past every character, the
    last one and the unsupported ones included, and besides the sleeps
    it has one effect for each character; it does return when
    [time.sleep] accepts the delay and [print] can write the warnings
    of the text. *)
Theorem type_string_sleeps (text : str) (delay : F) (w : World F) :
  leb (of_Z 0) delay = true ->
  exists es n,
    snd (type_string (PyStr text) delay w) = after w es
    /\ (n <= List.length text)%nat
    /\ sleeps es = (if gtb delay (of_Z 0) then repeat delay n else [])
    /\ (forall b,
          fst (type_string (PyStr text) delay w) = Ok b ->
          n = List.length text
          /\ List.length es
             = (List.length text + List.length (sleeps es))%nat)
    /\ (can_print text -> can_sleep delay ->
        exists b, fst (type_string (PyStr text) delay w) = Ok b).
Proof. apply type_string_sleeps_run. Qed.
End Injector.

Section KeyState.
Context {F : Type} {num : Number F} {keys : KeyState F}.
Import wininput.

(** X15.  [is_key_pressed] refuses a key code out of range; for one in
    range it answers whether bit 15 of what [GetAsyncKeyState] returned
    is set, which is whether the [SHORT] is negative.  It injects
    nothing and draws nothing. *)
Theorem is_key_pressed_top_bit (w : World F) :
  (forall vk_code : pyobj F,
     invalid_code vk_code = true ->
     is_key_pressed vk_code w
     = (Raise (ValueError "Invalid virtual key code"), w))
  /\ (forall vk, valid_key vk ->
        let answer := user32_GetAsyncKeyState (events w) vk in
        is_key_pressed (PyInt vk) w = (Ok (Z.testbit answer 15), w)
        /\ Z.testbit answer 15 = (to_SHORT answer <? 0)).
Proof.
  split.
  - intros vk_code. apply is_key_pressed_invalid.
  - intros vk. apply is_key_pressed_run.
Qed.
End KeyState.

Section Typist.
Context {F : Type} {num : Number F} {host : Host F}.
Import constants wininput.

(** X16.  With Python's case data, a character is typed with Shift held
    exactly when it is in [SHIFT_CHARS]; every character of
    [SHIFT_CHARS] is typed, none reaches the warning. *)
Theorem shift_held_exactly_for_shift_chars (c : char) :
  (exists vk, valid_key vk
     /\ emitted (_type_character (F:=F) [c])
        = [ESendInput (tap_events vk [VK_SHIFT])])
  <-> set_contains str_eqb SHIFT_CHARS [c] = true.
Proof.
  split.
  - intros [vk [_ H]]. exact (shift_only_for_shift_chars c H).
  - apply shift_chars_typed_with_shift.
Qed.

(** X17.  A shifted character is typed on the key of its unshifted
    character: every pair of [SHIFT_CHAR_MAP], and every upper-case
    letter with its lower-case letter, press the same key and differ
    only in Shift. *)
Theorem shifted_characters_share_the_key :
  (forall k b : str,
     In (k, b) SHIFT_CHAR_MAP ->
     exists vk, dict_get str_eqb CHAR_TO_VK b = Some vk
       /\ emitted (_type_character (F:=F) k)
          = [ESendInput (tap_events vk [VK_SHIFT])]
       /\ emitted (_type_character (F:=F) b)
          = [ESendInput (tap_events vk [])])
  /\ (forall c : char,
        (97 <= c <= 122)%N ->
        exists vk, dict_get str_eqb CHAR_TO_VK [c] = Some vk
          /\ emitted (_type_character (F:=F) [(c - 32)%N])
             = [ESendInput (tap_events vk [VK_SHIFT])]
          /\ emitted (_type_character (F:=F) [c])
             = [ESendInput (tap_events vk [])]).
Proof. split; [exact shift_char_map_pairs | exact letter_pairs]. Qed.

(** X18.  When the system inserts every event, whatever [type_string]
    returns is what [validate_text] answers for the text: true exactly
    when no character is unsupported; and it does return when
    [time.sleep] accepts the delay and [print] can write the warnings
    of the text.  (U+212A is set aside: the two disagree on it.) *)
Theorem type_string_returns_validity
  (text : str) (delay : F) (w : World F) :
  succeeds host -> ~ In KELVIN_SIGN text ->
  leb (of_Z 0) delay = true ->
  exists valid unsupported,
    utils.validate_text (F:=F) (PyStr text) = Ok (valid, unsupported)
    /\ (forall b w',
          type_string (PyStr text) delay w = (Ok b, w') -> b = valid)
    /\ (can_print text -> can_sleep delay ->
        fst (type_string (PyStr text) delay w) = Ok valid).
Proof. apply type_string_validated. Qed.
End Typist.

(* ================================================================= *)
(** ** Further properties of the delays *)

Section Cadence.
Context {F : Type} {num : Number F} {U : Unicode} {host : Host F}.
Import utils.

(** X19.  [apply_typing_profile] has no effect but draws from the
    generator: at least one and at most two for each supported
    character when it returns.  It raises nothing but a [ValueError],
    and a missing key is reported before anything is drawn. *)
Theorem apply_typing_profile_effects
  (text : str) (profile : profile_dict F) (w : World F) :
  (exists r w',
     apply_typing_profile (PyStr text) profile w = (r, w')
     /\ events w' = events w
     /\ (draws w <= draws w'
         <= draws w + 2 * List.length (supported_chars text))%nat
     /\ match r with
        | Ok ds =>
            (draws w + List.length (supported_chars text) <= draws w')%nat
        | Raise e => exists msg, e = ValueError msg
        end)
  /\ (forall key,
        In key required_keys ->
        dict_contains String.eqb profile key = false ->
        apply_typing_profile (PyStr text) profile w
        = (Raise (ValueError "Profile missing required key"), w)).
Proof.
  split; [apply apply_typing_profile_cases|].
  intros key Hin Hkey. unfold apply_typing_profile.
  rewrite (check_keys_missing profile Hin Hkey). reflexivity.
Qed.

(** X20.  The schedule is never longer than the text, and it has an
    entry for every character exactly when [validate_text] finds the
    text valid. *)
Theorem schedule_covers_valid_text
  (text : str) (profile : profile_dict F) (w : World F)
  (delays : list F) (w' : World F) :
  apply_typing_profile (PyStr text) profile w = (Ok delays, w') ->
  exists valid unsupported,
    validate_text (F:=F) (PyStr text) = Ok (valid, unsupported)
    /\ (List.length delays <= List.length text)%nat
    /\ (List.length delays = List.length text <-> valid = true).
Proof.
  intros Hrun. rewrite validate_text_run. eexists _, _.
  split; [reflexivity|].
  rewrite (apply_typing_profile_length _ _ _ Hrun). unfold supported_chars.
  split; [apply filter_length_le | apply filter_length_all].
Qed.

(** X21.  The estimate of [calculate_typing_time] is the delay times one
    less than the length of the schedule [apply_typing_profile] returns
    for the same text, and 0 for a schedule of at most one entry. *)
Theorem estimate_follows_schedule
  (text : str) (profile : profile_dict F) (w : World F)
  (delays : list F) (w' : World F) (delay : F) :
  apply_typing_profile (PyStr text) profile w = (Ok delays, w') ->
  leb (of_Z 0) delay = true ->
  calculate_typing_time (PyStr text) delay
  = Ok (if (1 <? Z.of_nat (List.length delays))%Z
        then mul (of_Z (Z.of_nat (List.length delays) - 1)) delay
        else of_Z 0).
Proof.
  intros Hrun Hd. rewrite (calculate_typing_time_run text delay Hd).
  unfold supported_count.
  rewrite (apply_typing_profile_length _ _ _ Hrun). reflexivity.
Qed.
End Cadence.


Section Binary64Cadence.
Context {host : Host float}.
Import utils.

(** X23.  In binary64, whatever the arguments and the draw (infinities
    and NaN included), [humanize_delay] either raises a [ValueError]
    without drawing, or takes one draw and returns a number that is at
    least 0, so never a negative number and never NaN. *)
Theorem humanize_delay_never_negative_binary64
  (base_delay variance : float) (w : World float) :
  (exists msg,
     humanize_delay base_delay variance w = (Raise (ValueError msg), w))
  \/ (exists d,
        humanize_delay base_delay variance w
        = (Ok d, {| events := events w; draws := S (draws w) |})
        /\ PrimFloat.leb 0 d = true).
Proof.
  unfold humanize_delay.
  destruct (ltb base_delay (of_Z 0)); [left; eexists; reflexivity|].
  destruct (ltb variance (of_Z 0)); [left; eexists; reflexivity|].
  right. eexists. split; [reflexivity|].
  apply leb_xle. eexists _, _.
  split; [exact value_zero|]. split; [apply value_max0|].
  apply xclamp_nonneg.
Qed.
End Binary64Cadence.


(* ================================================================= *)
(** ** The properties at concrete inputs *)

Section Witnesses.
#[local] Existing Instance demo_host.
Import constants.
Local Open Scope Q_scope.

(** On the host like CPython's: the delay 0.1 is one [time.sleep]
    accepts, and the warnings of the three characters can be printed. *)
Lemma type_string_best_effort_witness :
  exists (bs : list bool) (w' : World float),
    wininput.type_string (host:=cpython_host (fun _ => 0.5%float))
      (PyStr demo_text) 0.1%float initial
    = (Ok (forallb (fun b => b) bs), w')
    /\ typed (host:=cpython_host (fun _ => 0.5%float))
         0.1%float demo_text initial bs w'
    /\ List.length bs = List.length demo_text.
Proof.
  apply (@type_string_best_effort float _ _
           (cpython_host (fun _ => 0.5%float)) demo_text 0.1%float initial).
  - reflexivity.
  - intros history c [<-|[<-|[<-|[]]]]; reflexivity.
  - intros _ history. reflexivity.
Defined.


Lemma type_string_empty_witness :
  wininput.type_string (PyStr []) (1 # 20) initial = (Ok true, initial).
Proof.
  apply (@type_string_empty Q _ _ _ (1 # 20) initial). reflexivity.
Defined.

Lemma calculate_typing_time_spec_witness :
  utils.calculate_typing_time (PyStr demo_text) (1 # 10) = Ok (1 # 10).
Proof.
  exact (proj1 calculate_typing_time_spec Q _ _ demo_text (1 # 10) eq_refl).
Defined.

Lemma create_typing_profile_spec_witness :
  utils.create_typing_profile (F:=float) 0
  = Raise (ValueError "WPM must be positive")
  /\ exists chars_per_second : float,
       int_truediv (60 * 5) 60 = Ok chars_per_second
       /\ value chars_per_second = Some (Fin (keep53_ratio (60 * 5) 60))
       /\ PrimFloat.ltb 0 chars_per_second = true
       /\ utils.create_typing_profile 60
          = Ok [ ("wpm"%string, PyInt 60%Z);
                 ("base_delay"%string, PyFloat (1 / chars_per_second)%float);
                 ("variance"%string,
                  PyFloat (1 / chars_per_second * 0.3)%float);
                 ("pause_chance"%string, PyFloat 0.05%float);
                 ("pause_duration"%string,
                  PyFloat (1 / chars_per_second * 3)%float) ].
Proof.
  split.
  - apply (proj1 create_typing_profile_spec 0%Z). lia.
  - apply (proj1 (proj2 create_typing_profile_spec) 60%Z);
      vm_compute; reflexivity.
Defined.

(** [humanize_delay(0.1, 0.0) == 0.1] over the rationals and in
    binary64, and [humanize_delay(0.1, 0.03)] in binary64 for the draw
    0.5. *)
Lemma humanize_delay_range_witness :
  (exists (d : Q) (w' : World Q),
     utils.humanize_delay (1 # 10) 0 initial = (Ok d, w')
     /\ utils.max0 ((1 # 10) - 0) <= d <= (1 # 10) + 0
     /\ (0 == 0 -> d == 1 # 10))
  /\ (exists (d : float) (w' : World float),
        utils.humanize_delay (host:=success_host (fun _ => 0.5%float))
          0.1%float 0.03%float initial = (Ok d, w')
        /\ PrimFloat.leb (utils.max0 (0.1 - 0.03)%float) d = true
        /\ PrimFloat.leb d (0.1 + 0.03) = true)
  /\ (exists (d : float) (w' : World float),
        utils.humanize_delay (host:=success_host (fun _ => 0.5%float))
          0.1%float 0%float initial = (Ok d, w')
        /\ PrimFloat.eqb d 0.1 = true).
Proof.
  split; [|split].
  - apply (proj1 humanize_delay_range demo_host (1 # 10) 0 initial)
      with (offset := drawn (- 0) 0 initial)
           (w1 := {| events := []; draws := 1 |}).
    + vm_compute. discriminate.
    + vm_compute. discriminate.
    + reflexivity.
    + split; vm_compute; discriminate.
  - apply (proj1 (proj2 humanize_delay_range)
             (success_host (fun _ => 0.5%float)) 0.1%float 0.03%float
             initial)
      with (offset := (- 0.03 + (0.03 - - 0.03) * 0.5)%float)
           (w1 := {| events := []; draws := 1 |});
      vm_compute; reflexivity.
  - apply (proj2 (proj2 humanize_delay_range)
             (success_host (fun _ => 0.5%float))
             0.1%float 0%float initial); reflexivity.
Defined.

Lemma apply_typing_profile_delays_witness :
  (exists (delays : list Q) (w' : World Q),
     utils.apply_typing_profile (PyStr demo_text)
       [("base_delay"%string, 1 # 5); ("variance"%string, 3 # 50);
        ("pause_chance"%string, 1 # 20); ("pause_duration"%string, 3 # 5)]
       initial
     = (Ok delays, w')
     /\ List.length delays = List.length (supported_chars demo_text)
     /\ Forall (fun delay => 0 < delay) delays)
  /\ (exists (delays : list float) (w' : World float),
        utils.apply_typing_profile
          (host:=success_host (fun _ => 0.5%float)) (PyStr demo_text)
          [("base_delay"%string, 0.2%float); ("variance"%string, 0.06%float);
           ("pause_chance"%string, 0.05%float);
           ("pause_duration"%string, 0.6%float)]
          initial
        = (Ok delays, w')
        /\ List.length delays = List.length (supported_chars demo_text)
        /\ Forall (fun delay => PrimFloat.ltb 0 delay = true) delays).
Proof.
  split.
  - apply (proj1 (proj2 apply_typing_profile_delays) py_unicode demo_host
             demo_text _ initial (1 # 5) (3 # 50) (1 # 20) (3 # 5)).
    + repeat split.
    + vm_compute. discriminate.
    + reflexivity.
    + reflexivity.
    + intros n. split; vm_compute; discriminate.
  - apply (proj2 (proj2 apply_typing_profile_delays) py_unicode
             (success_host (fun _ => 0.5%float)) demo_text _ initial
             0.2%float 0.06%float 0.05%float 0.6%float).
    + repeat split.
    + reflexivity.
    + reflexivity.
    + reflexivity.
    + reflexivity.
    + intros n. split; reflexivity.
Defined.
End Witnesses.

(* ================================================================= *)
(** ** The further properties at concrete inputs *)

Section FurtherWitnesses.
#[local] Existing Instance demo_host.
Import constants.
Local Open Scope Q_scope.

(** A text with the three kinds of line ending, normalized to CR LF and
    then to LF. *)
Lemma normalize_line_endings_twice_witness :
  rbind (utils.normalize_line_endings (F:=Q)
           (PyStr (lit "a" ++ CR ++ LF ++ lit "b" ++ CR ++ lit "c" ++ LF))
           (PyStr (CR ++ LF)))
        (fun once =>
           utils.normalize_line_endings (F:=Q) (PyStr once) (PyStr LF))
  = utils.normalize_line_endings (F:=Q)
      (PyStr (lit "a" ++ CR ++ LF ++ lit "b" ++ CR ++ lit "c" ++ LF))
      (PyStr LF).
Proof.
  apply (@normalize_line_endings_twice Q
           (lit "a" ++ CR ++ LF ++ lit "b" ++ CR ++ lit "c" ++ LF)
           (CR ++ LF) LF); reflexivity.
Defined.

(** A tab between two letters, and a backslash and the letter t in its
    place. *)
Lemma escape_special_chars_collision_witness :
  TAB <> lit "\t"
  /\ utils.escape_special_chars (F:=Q) (PyStr (lit "a" ++ TAB ++ lit "b"))
     = utils.escape_special_chars (F:=Q)
         (PyStr (lit "a" ++ lit "\t" ++ lit "b")).
Proof.
  apply (@escape_special_chars_collision Q (lit "a") (lit "b")
           TAB (lit "\t")).
  right. right. left. reflexivity.
Defined.

Lemma press_then_release_witness :
  wininput.press_key (PyInt VK_A) initial
  = (Ok (sent_ok initial [key_down VK_A]),
     after initial [ESendInput [key_down VK_A]])
  /\ wininput.release_key (PyInt VK_A) initial
     = (Ok (sent_ok initial [key_up VK_A]),
        after initial [ESendInput [key_up VK_A]])
  /\ snd ((wininput.press_key (PyInt VK_A) ;;
           wininput.release_key (PyInt VK_A))%py initial)
     = after initial [ESendInput [key_down VK_A]; ESendInput [key_up VK_A]]
  /\ [key_down VK_A] ++ [key_up VK_A] = tap_events VK_A [].
Proof.
  apply (@press_then_release Q demo_host VK_A initial).
  unfold valid_key, VK_A. lia.
Defined.

(** Control and Shift held around a block that raises: both are
    released, Shift first. *)
Lemma with_modifiers_holds_and_releases_witness :
  let held := after initial (presses [VK_CONTROL; VK_SHIFT]) in
  wininput.with_modifiers (PyList (map PyInt [VK_CONTROL; VK_SHIFT]))
    (wininput.press_key (PyInt 300)) initial
  = (fst (wininput.press_key (PyInt 300) held),
     after (snd (wininput.press_key (PyInt 300) held))
       (releases [VK_CONTROL; VK_SHIFT])).
Proof.
  apply (@with_modifiers_holds_and_releases Q demo_host _
           [VK_CONTROL; VK_SHIFT] (wininput.press_key (PyInt 300)) initial).
  repeat constructor; unfold VK_CONTROL, VK_SHIFT; lia.
Defined.

(** Control, then 300, then Shift: Control stays pressed. *)
Lemma with_modifiers_stops_at_invalid_witness :
  wininput.with_modifiers
    (PyList (map PyInt [VK_CONTROL] ++ PyInt 300 :: [PyInt VK_SHIFT]))
    (wininput.press_key (PyInt VK_A)) initial
  = (Raise (ValueError "Invalid modifier key code"),
     after initial (presses [VK_CONTROL])).
Proof.
  apply (@with_modifiers_stops_at_invalid Q demo_host _ [VK_CONTROL]
           (PyInt 300) [PyInt VK_SHIFT] (wininput.press_key (PyInt VK_A))
           initial).
  - repeat constructor; unfold VK_CONTROL; lia.
  - reflexivity.
Defined.

Lemma type_string_sleeps_witness :
  exists (es : list (effect float)) (n : nat),
    snd (wininput.type_string (host:=cpython_host (fun _ => 0.5%float))
           (PyStr demo_text) 0.1%float initial)
    = after initial es
    /\ (n <= List.length demo_text)%nat
    /\ sleeps es
       = (if gtb 0.1%float (of_Z 0) then repeat 0.1%float n else [])
    /\ (forall b,
          fst (wininput.type_string (host:=cpython_host (fun _ => 0.5%float))
                 (PyStr demo_text) 0.1%float initial) = Ok b ->
          n = List.length demo_text
          /\ List.length es
             = (List.length demo_text + List.length (sleeps es))%nat)
    /\ (can_print (host:=cpython_host (fun _ => 0.5%float)) demo_text ->
        can_sleep (host:=cpython_host (fun _ => 0.5%float)) 0.1%float ->
        exists b,
          fst (wininput.type_string (host:=cpython_host (fun _ => 0.5%float))
                 (PyStr demo_text) 0.1%float initial) = Ok b).
Proof.
  apply (@type_string_sleeps float _ py_unicode
           (cpython_host (fun _ => 0.5%float)) demo_text 0.1%float initial).
  reflexivity.
Defined.

Lemma type_string_returns_validity_witness :
  exists valid unsupported,
    utils.validate_text (F:=float) (PyStr demo_text)
    = Ok (valid, unsupported)
    /\ (forall b w',
          wininput.type_string (host:=cpython_host (fun _ => 0.5%float))
            (PyStr demo_text) 0.1%float initial = (Ok b, w') ->
          b = valid)
    /\ (can_print (host:=cpython_host (fun _ => 0.5%float)) demo_text ->
        can_sleep (host:=cpython_host (fun _ => 0.5%float)) 0.1%float ->
        fst (wininput.type_string (host:=cpython_host (fun _ => 0.5%float))
               (PyStr demo_text) 0.1%float initial) = Ok valid).
Proof.
  apply (@type_string_returns_validity float _
           (cpython_host (fun _ => 0.5%float)) demo_text 0.1%float initial).
  - intros history inputs. reflexivity.
  - intros [H|[H|[H|[]]]]; discriminate H.
  - reflexivity.
Defined.

(** The schedule of the three-character text with one unsupported
    character has two entries. *)
Lemma schedule_covers_valid_text_witness :
  exists valid unsupported,
    utils.validate_text (F:=Q) (PyStr demo_text) = Ok (valid, unsupported)
    /\ (List.length [250000 # 1250000; 250000 # 1250000]
        <= List.length demo_text)%nat
    /\ (List.length [250000 # 1250000; 250000 # 1250000]
        = List.length demo_text <-> valid = true).
Proof.
  apply (@schedule_covers_valid_text Q _ py_unicode demo_host demo_text
           [("base_delay"%string, 1 # 5); ("variance"%string, 3 # 50);
            ("pause_chance"%string, 1 # 20);
            ("pause_duration"%string, 3 # 5)]
           initial [250000 # 1250000; 250000 # 1250000]
           {| events := []; draws := 4 |}).
  reflexivity.
Defined.

Lemma estimate_follows_schedule_witness :
  utils.calculate_typing_time (PyStr demo_text) (1 # 10)
  = Ok (if (1 <? Z.of_nat
                   (List.length [250000 # 1250000; 250000 # 1250000]))%Z
        then mul (of_Z (Z.of_nat
                          (List.length [250000 # 1250000; 250000 # 1250000])
                        - 1)) (1 # 10)
        else of_Z 0).
Proof.
  apply (@estimate_follows_schedule Q _ py_unicode demo_host demo_text
           [("base_delay"%string, 1 # 5); ("variance"%string, 3 # 50);
            ("pause_chance"%string, 1 # 20);
            ("pause_duration"%string, 3 # 5)]
           initial [250000 # 1250000; 250000 # 1250000]
           {| events := []; draws := 4 |} (1 # 10)).
  - reflexivity.
  - reflexivity.
Defined.

End FurtherWitnesses.

(* ================================================================= *)
(** ** Closed calls in binary64 *)

(** [create_typing_profile] at 80, 60 and 20 words per minute: the
    variance is the base delay times 0.2, 0.3 and 0.4. *)
Example create_typing_profile_binary64 :
  utils.create_typing_profile (F:=float) 80
  = Ok [("wpm"%string, PyInt 80%Z);
        ("base_delay"%string, PyFloat 0.15%float);
        ("variance"%string, PyFloat (0.15 * 0.2)%float);
        ("pause_chance"%string, PyFloat 0.05%float);
        ("pause_duration"%string, PyFloat (0.15 * 3)%float)]
  /\ utils.create_typing_profile (F:=float) 60
     = Ok [("wpm"%string, PyInt 60%Z);
           ("base_delay"%string, PyFloat 0.2%float);
           ("variance"%string, PyFloat (0.2 * 0.3)%float);
           ("pause_chance"%string, PyFloat 0.05%float);
           ("pause_duration"%string, PyFloat (0.2 * 3)%float)]
  /\ utils.create_typing_profile (F:=float) 20
     = Ok [("wpm"%string, PyInt 20%Z);
           ("base_delay"%string, PyFloat 0.6%float);
           ("variance"%string, PyFloat (0.6 * 0.4)%float);
           ("pause_chance"%string, PyFloat 0.05%float);
           ("pause_duration"%string, PyFloat (0.6 * 3)%float)].
Proof. repeat split; vm_compute; reflexivity. Qed.

(** Large speeds: the quotient [wpm * 5 / 60] of the two integers is
    rounded once, also where [wpm * 5] is not a float; at [10 ^ 308] the
    base delay is [1.2e-307], and at [10 ^ 400] the quotient is too
    large. *)
Example create_typing_profile_large :
  utils.create_typing_profile (F:=float) 1801439850948201
  = Ok [("wpm"%string, PyInt 1801439850948201%Z);
        ("base_delay"%string, PyFloat 0x1.dfffffffffff4p-48%float);
        ("variance"%string, PyFloat 0x1.7fffffffffff7p-50%float);
        ("pause_chance"%string, PyFloat 0x1.999999999999ap-5%float);
        ("pause_duration"%string, PyFloat 0x1.67ffffffffff7p-46%float)]
  /\ int_truediv (F:=float) (1801439850948201 * 5) 60
     = Ok 0x1.1111111111118p+47%float
  /\ utils.create_typing_profile (F:=float) (10 ^ 308)
     = Ok [("wpm"%string, PyInt (10 ^ 308)%Z);
           ("base_delay"%string, PyFloat 0x1.59283684dba77p-1020%float);
           ("variance"%string, PyFloat 0x1.14202b9d7c85fp-1022%float);
           ("pause_chance"%string, PyFloat 0x1.999999999999ap-5%float);
           ("pause_duration"%string, PyFloat 0x1.02de28e3a4bd9p-1018%float)]
  /\ utils.create_typing_profile (F:=float) (10 ^ 400)
     = Raise (OverflowError "integer division result too large for a float")
  /\ int_truediv (F:=float) 1 (2 ^ 1075) = Ok 0%float
  /\ int_truediv (F:=float) 3 (2 ^ 1075) = Ok 0x1p-1073%float
  /\ int_truediv (F:=float) 1 0 = Raise ZeroDivisionError.
Proof. repeat split; vm_compute; reflexivity. Qed.

(** Why twice the variance has to be finite: with a variance of
    [2 ^ 1023] the width of the interval overflows, the draw 0.0 turns it into a
    NaN, and the clamp answers 0. *)
Example humanize_delay_binary64_overflow :
  fst (utils.humanize_delay (host:=success_host (fun _ => 0%float))
         0x1.ap+1023%float 0x1p+1023%float initial)
  = Ok 0%float.
Proof. vm_compute. reflexivity. Qed.

(** The schedule of such a profile for the text ["a"]: one delay, 0. *)
Example apply_typing_profile_binary64_overflow :
  fst (utils.apply_typing_profile (host:=success_host (fun _ => 0%float))
         (PyStr (lit "a"))
         [("base_delay"%string, 0x1.ap+1023%float);
          ("variance"%string, 0x1p+1023%float);
          ("pause_chance"%string, 0%float);
          ("pause_duration"%string, 1%float)]
         initial)
  = Ok [0%float].
Proof. vm_compute. reflexivity. Qed.

(** [humanize_delay(0.1, 0.0)] is 0.1 in binary64, for draws at both
    ends and in the middle of the unit interval. *)
Example humanize_delay_binary64 :
  Forall (fun r =>
            fst (utils.humanize_delay (host:=success_host (fun _ => r))
                   0.1%float 0%float initial)
            = Ok 0.1%float)
         [0%float; 0.5%float; 0.9999999999999999%float].
Proof. repeat constructor. Qed.

(* ================================================================= *)
(** ** Closed calls of the orchestrator *)

(** ["ab"] at delay 0: two taps without modifiers, in order. *)
Example type_string_ab :
  wininput.type_string (host:=demo_host) (PyStr (lit "ab")) 0%Q initial
  = (Ok true,
     after initial
       [ESendInput [key_down constants.VK_A; key_up constants.VK_A];
        ESendInput [key_down constants.VK_B; key_up constants.VK_B]]).
Proof. reflexivity. Qed.

(** An injection that fails is part of the result: the tap is sent, the
    answer is false, and the next character is still typed. *)
Example type_string_injection_failure :
  wininput.type_string (host:=failing_host (fun _ => 0%Q))
    (PyStr (lit "ab")) 0%Q initial
  = (Ok false,
     after initial
       [ESendInput [key_down constants.VK_A; key_up constants.VK_A];
        ESendInput [key_down constants.VK_B; key_up constants.VK_B]]).
Proof. reflexivity. Qed.

(** On the host like CPython's, in binary64.  With the delay [1e10]
    the first pause is refused: ["a"] has been typed, ["b"] never is.
    A character whose warning cannot be encoded stops the string where
    it stands. *)
Example type_string_sleep_overflow :
  wininput.type_string (host:=cpython_host (fun _ => 0%float))
    (PyStr (lit "ab")) 1e10%float initial
  = (Raise (OverflowError "timestamp too large to convert to C _PyTime_t"),
     after initial
       [ESendInput [key_down constants.VK_A; key_up constants.VK_A]])
  /\ wininput.type_string (host:=cpython_host (fun _ => 0%float))
       (PyStr (lit "a" ++ [0xD800%N] ++ lit "b")) 0%float initial
     = (Raise (UnicodeEncodeError "surrogates not allowed"),
        after initial
          [ESendInput [key_down constants.VK_A; key_up constants.VK_A]])
  /\ wininput.type_string (host:=cpython_host (fun _ => 0%float))
       (PyStr demo_text) 0.5%float initial
     = (Ok false,
        after initial
          [ESendInput [key_down constants.VK_SHIFT;
                       key_down constants.VK_H; key_up constants.VK_H;
                       key_up constants.VK_SHIFT];
           ESleep 0.5%float;
           EPrint (wininput.warning [0x4E16%N]);
           ESleep 0.5%float;
           ESendInput [key_down constants.VK_I; key_up constants.VK_I];
           ESleep 0.5%float]).
Proof. repeat split; vm_compute; reflexivity. Qed.

(** A modifier list that is valid is pressed in order and released in
    reverse order around the block. *)
Example with_modifiers_ctrl_shift :
  wininput.with_modifiers (host:=demo_host)
    (PyList [PyInt constants.VK_CONTROL; PyInt constants.VK_SHIFT])
    (wininput.tap_key (host:=demo_host) (PyInt constants.VK_A) PyNone)
    initial
  = (Ok true,
     after initial
       [ESendInput [key_down constants.VK_CONTROL];
        ESendInput [key_down constants.VK_SHIFT];
        ESendInput [key_down constants.VK_A; key_up constants.VK_A];
        ESendInput [key_up constants.VK_SHIFT];
        ESendInput [key_up constants.VK_CONTROL]]).
Proof. reflexivity. Qed.

(* ================================================================= *)
(** ** Closed calls of the text utilities and of [is_key_pressed] *)

(** The example of the docstring of [normalize_line_endings]. *)
Example normalize_line_endings_lines :
  utils.normalize_line_endings (F:=Q)
    (PyStr (lit "Line1" ++ constants.CR ++ constants.LF ++ lit "Line2"
            ++ constants.CR ++ lit "Line3" ++ constants.LF))
    (PyStr constants.LF)
  = Ok (lit "Line1" ++ constants.LF ++ lit "Line2" ++ constants.LF
        ++ lit "Line3" ++ constants.LF).
Proof. reflexivity. Qed.

(** The example of the docstring of [escape_special_chars]. *)
Example escape_special_chars_hello :
  utils.escape_special_chars (F:=Q)
    (PyStr (lit "Hello" ++ constants.TAB ++ lit "World" ++ constants.LF))
  = Ok (lit "Hello\tWorld\n").
Proof. reflexivity. Qed.

(** The example of the docstring of [validate_text], and a text that
    repeats an unsupported character. *)
Example validate_text_hello :
  utils.validate_text (F:=Q)
    (PyStr (lit "Hello " ++ [0x4E16%N; 0x754C%N] ++ lit "!"))
  = Ok (false, [[0x4E16%N]; [0x754C%N]])
  /\ utils.validate_text (F:=Q)
       (PyStr ([0x754C%N; 0x4E16%N] ++ lit "a" ++ [0x754C%N]))
     = Ok (false, [[0x754C%N]; [0x4E16%N]])
  /\ utils.validate_text (F:=Q) (PyStr []) = Ok (true, []).
Proof. repeat split. Qed.

(** [is_key_pressed] when [GetAsyncKeyState] answers 0x8001 for the key
    A and 1 for every other key. *)
Example is_key_pressed_a :
  let keys := {| user32_GetAsyncKeyState :=
                   fun (_ : list (effect Q)) vk =>
                     if (vk =? constants.VK_A)%Z then 0x8001%Z else 1%Z |} in
  wininput.is_key_pressed (PyInt constants.VK_A) initial = (Ok true, initial)
  /\ wininput.is_key_pressed (PyInt constants.VK_B) initial
     = (Ok false, initial)
  /\ wininput.is_key_pressed (PyInt 256) initial
     = (Raise (ValueError "Invalid virtual key code"), initial).
Proof. repeat split. Qed.
